(** * Federated RecVAE training: a shallow embedding of
      [recvae/federated_train.py]

    The development follows the two classes of the source file, [Clients]
    and [Server].  Tensors are row-major arrays of exact rationals, Python
    dictionaries are association lists in insertion order, exceptions are
    an explicit error type, and the collaborators that are not part of the
    file (random number generator, byte-size utility, model forward and
    backward pass, 2-means clustering, shuffling data loader) are
    variables of a section. *)

From Stdlib Require Import String List Bool Arith ZArith QArith Qcanon Qround Lia.
From Stdlib Require Import Permutation.
Import ListNotations.

Set Implicit Arguments.
Local Open Scope nat_scope.

(** ** Python exceptions and the error monad *)

Inductive pyerr : Type :=
| KeyError
| IndexError
| AttributeError
| ValueError
| ZeroDivisionError
| RuntimeError.

Inductive result (A : Type) : Type :=
| Ok (a : A)
| Raise (e : pyerr).

Arguments Ok {A} a.
Arguments Raise {A} e.

Definition bind {A B : Type} (m : result A) (f : A -> result B) : result B :=
  match m with
  | Ok a => f a
  | Raise e => Raise e
  end.

Notation "x <- m ;; k" := (bind m (fun x => k))
  (at level 61, m at next level, right associativity).
Notation "' p <- m ;; k" := (bind m (fun x => match x with p => k end))
  (at level 61, p pattern, m at next level, right associativity).

Definition of_option {A : Type} (e : pyerr) (o : option A) : result A :=
  match o with
  | Some a => Ok a
  | None => Raise e
  end.

(** A [for] loop whose body may raise: the state is threaded through the
    elements in order and the first exception aborts the loop. *)
Fixpoint foldM {A S : Type} (f : A -> S -> result S) (l : list A) (s : S)
  : result S :=
  match l with
  | [] => Ok s
  | a :: l' => s' <- f a s ;; foldM f l' s'
  end.

Fixpoint mapM {A B : Type} (f : A -> result B) (l : list A)
  : result (list B) :=
  match l with
  | [] => Ok []
  | a :: l' => b <- f a ;; bs <- mapM f l' ;; Ok (b :: bs)
  end.

(** ** Dictionaries

    A Python [dict] keeps its keys in insertion order; assigning to an
    existing key keeps the key's position, assigning to a new key appends
    it. *)

Class Key (K : Type) : Type := {
  keqb : K -> K -> bool;
  keqb_eq : forall a b, keqb a b = true <-> a = b
}.

#[export] Instance nat_Key : Key nat :=
  {| keqb := Nat.eqb; keqb_eq := Nat.eqb_eq |}.

#[export] Instance string_Key : Key string :=
  {| keqb := String.eqb; keqb_eq := String.eqb_eq |}.

Definition dict (K V : Type) : Type := list (K * V).

Section Dict.
Context {K V : Type} `{Key K}.

Fixpoint dict_get (k : K) (d : dict K V) : option V :=
  match d with
  | [] => None
  | (k', v) :: d' => if keqb k k' then Some v else dict_get k d'
  end.

Fixpoint dict_set (k : K) (v : V) (d : dict K V) : dict K V :=
  match d with
  | [] => [(k, v)]
  | (k', v') :: d' =>
      if keqb k k' then (k', v) :: d' else (k', v') :: dict_set k v d'
  end.

Definition dict_keys (d : dict K V) : list K := map fst d.
Definition dict_values (d : dict K V) : list V := map snd d.
End Dict.

(** ** Tensors *)

Record tensor : Type := mkTensor {
  shape : list nat;
  data : list Qc          (* row-major *)
}.

Definition numel (sh : list nat) : nat := fold_right Nat.mul 1%nat sh.

(** Every tensor that torch or numpy builds has as many entries as its
    shape says. *)
Definition wf_tensor (t : tensor) : Prop :=
  length (data t) = numel (shape t).

Fixpoint map2 {A B C : Type} (f : A -> B -> C) (a : list A) (b : list B)
  : list C :=
  match a, b with
  | x :: a', y :: b' => f x y :: map2 f a' b'
  | _, _ => []
  end.

Definition shape_eqb (s1 s2 : list nat) : bool :=
  if list_eq_dec Nat.eq_dec s1 s2 then true else false.

(** Element-wise in-place arithmetic [a += b] and [a -= b].  Operands of
    different shapes raise [RuntimeError] (torch's broadcasting of a smaller
    right operand is not modelled: every operand pair in the source comes
    from the same parameter of the same model). *)
Definition tensor_zip (f : Qc -> Qc -> Qc) (a b : tensor) : result tensor :=
  if shape_eqb (shape a) (shape b)
  then Ok {| shape := shape a; data := map2 f (data a) (data b) |}
  else Raise RuntimeError.

Definition tensor_iadd : tensor -> tensor -> result tensor := tensor_zip Qcplus.
Definition tensor_isub : tensor -> tensor -> result tensor := tensor_zip Qcminus.

(** [t / n] and [c + t] with a Python number on one side. *)
Definition tensor_div_scalar (t : tensor) (n : Qc) : tensor :=
  {| shape := shape t; data := map (fun x => (x / n)%Qc) (data t) |}.

Definition scalar_add_tensor (c : Qc) (t : tensor) : tensor :=
  {| shape := shape t; data := map (fun x => (c + x)%Qc) (data t) |}.

(** Rows of a 2-D tensor of shape [(r, c)], and the rows of its transpose. *)
Fixpoint chunks (c r : nat) (d : list Qc) : list (list Qc) :=
  match r with
  | O => []
  | S r' => firstn c d :: chunks c r' (skipn c d)
  end.

Definition transpose (c : nat) (rows : list (list Qc)) : list (list Qc) :=
  map (fun j => map (fun row => nth j row 0%Qc) rows) (seq 0 c).

(** A gradient dictionary maps parameter names to gradient tensors;
    [clients_grads] maps user ids to gradient dictionaries. *)
Definition grads_dict : Type := dict string tensor.
Definition clients_grads : Type := dict nat grads_dict.

(** Objects whose serialized size [utils.get_size] is asked for. *)
Inductive sized : Type :=
| SizedTensor (t : tensor)
| SizedStateDict (d : grads_dict).

Definition Qc_of_nat (n : nat) : Qc := Q2Qc (inject_Z (Z.of_nat n)).

(** [1 << 20] *)
Definition MiB : Qc := Q2Qc (inject_Z (Z.shiftl 1 20)).

(** Python's [a / b] on numbers: a zero divisor raises
    [ZeroDivisionError]. *)
Definition py_div (a b : Qc) : result Qc :=
  if Qc_eq_bool b 0%Qc then Raise ZeroDivisionError else Ok (a / b)%Qc.

Definition qsum (l : list Qc) : Qc := fold_right Qcplus 0%Qc l.

Definition count_nonzero (l : list Qc) : nat :=
  length (filter (fun x => negb (Qc_eq_bool x 0%Qc)) l).

(** In-place update of the tensor stored under [name] in user [uid]'s
    gradient dictionary.  The tensors of distinct slots are distinct
    objects (each is a [detach().clone()], [Clients.train]), so no other
    slot changes. *)
Definition slot_get (uid : nat) (name : string) (cg : clients_grads)
  : result tensor :=
  gd <- of_option KeyError (dict_get uid cg) ;;
  of_option KeyError (dict_get name gd).

Definition slot_set (uid : nat) (name : string) (t : tensor)
  (cg : clients_grads) : clients_grads :=
  match dict_get uid cg with
  | Some gd => dict_set uid (dict_set name t gd) cg
  | None => cg
  end.

(** ** class Clients *)

Module Clients.
Section Oracles.

(** State of torch's random number generator, and the draw of [n]
    standard normal samples. *)
Variable RNG : Type.
Variable randn : RNG -> nat -> list Qc * RNG.

(** [utils.get_size], in bytes. *)
Variable get_size : sized -> Qc.

(** [torch.randn_like(grads)] *)
Definition randn_like (g : RNG) (grads : tensor) : tensor * RNG :=
  let (xs, g') := randn g (numel (shape grads)) in
  ({| shape := shape grads; data := xs |}, g').

Record mpc_state : Type := mkMpc {
  store : clients_grads;
  gen : RNG;
  cost : Qc
}.

(** Body of the innermost loop of [MPC_perturb]: user [uid] masks the
    gradient of parameter [name] with a fresh share and hands the share
    to user [suid]. *)
Definition share_step (uid suid : nat) (name : string) (st : mpc_state)
  : result mpc_state :=
  grads <- slot_get uid name (store st) ;;
  let (share, g') := randn_like (gen st) grads in
  grads' <- tensor_isub grads share ;;
  let cg1 := slot_set uid name grads' (store st) in
  target <- slot_get suid name cg1 ;;
  target' <- tensor_iadd target share ;;
  let cg2 := slot_set suid name target' cg1 in
  Ok {| store := cg2; gen := g';
        cost := (cost st + get_size (SizedTensor share))%Qc |}.

(** [for grads_to_send in (clients_grads[suid] for suid in ...)]: the
    generator looks the recipient up, then the names of the sender's
    dictionary are traversed. *)
Definition send_to (uid suid : nat) (st : mpc_state) : result mpc_state :=
  _ <- of_option KeyError (dict_get suid (store st)) ;;
  gd <- of_option KeyError (dict_get uid (store st)) ;;
  foldM (share_step uid suid) (dict_keys gd) st.

(** [uids[clients_idx]]: numpy indexing of the id array by the index
    matrix, checked against the bounds of [uids]. *)
Definition take_ids (uids : list nat) (clients_idx : list (list nat))
  : result (list (list nat)) :=
  mapM (mapM (fun j => of_option IndexError (nth_error uids j))) clients_idx.

(** The loops of [MPC_perturb] once the neighbour indices are drawn. *)
Definition MPC_exchange (clients_idx : list (list nat)) (g : RNG)
  (cg : clients_grads) : result (clients_grads * Qc * RNG) :=
  let uids := dict_keys cg in
  clients_to_send <- take_ids uids clients_idx ;;
  st <- foldM (fun '(i, uid) st =>
                 row <- of_option IndexError (nth_error clients_to_send i) ;;
                 foldM (send_to uid) row st)
              (combine (seq 0 (length uids)) uids)
              {| store := cg; gen := g; cost := 0%Qc |} ;;
  Ok (store st, (cost st / MiB)%Qc, gen st).

(** [utils.sample_neighbor(n, xi)]: one row of neighbour indices per
    member; it may raise. *)
Variable sample_neighbor : RNG -> nat -> nat -> result (list (list nat)) * RNG.

(** [Clients.MPC_perturb].  The dictionary is updated in place and
    returned; its only caller, [Clients.train], builds it as a local and
    lets an exception pass, so what an exception leaves of it is not
    observable and only the exception is returned. *)
Definition MPC_perturb (xi : nat) (g : RNG) (cg : clients_grads)
  : result (clients_grads * Qc * RNG) :=
  let (r, g') := sample_neighbor g (length (dict_keys cg)) xi in
  clients_idx <- r ;;
  MPC_exchange clients_idx g' cg.

(** *** Communication cost of the upload *)

(** Fraction of the item rows (columns, entries) of [grads] that carry a
    non-zero sum: the [compressed] branch of
    [count_update_communication_cost]. *)
Definition nonzero_fraction (n_items : nat) (grads : tensor) : result Qc :=
  match shape grads with
  | [] => Raise IndexError
  | [r; c] =>
      let rows := chunks c r (data grads) in
      let sums := if Nat.eqb r n_items
                  then map qsum rows
                  else map qsum (transpose c rows) in
      if Nat.eqb n_items 0 then Raise ZeroDivisionError
      else Ok (Qc_of_nat (count_nonzero sums) / Qc_of_nat n_items)%Qc
  | _ =>
      if Nat.eqb n_items 0 then Raise ZeroDivisionError
      else Ok (Qc_of_nat (count_nonzero (data grads)) / Qc_of_nat n_items)%Qc
  end.

Definition name_in (name : string) (names : list string) : bool :=
  existsb (String.eqb name) names.

(** Body of the loops of [count_update_communication_cost]; [compressed]
    is the local flag of that function. *)
Definition add_upload (compressed : bool) (n_items : nat)
  (protect_module_name : list string) (entry : string * tensor) (c : Qc)
  : result Qc :=
  let (name, grads) := entry in
  para_percent <-
    (if compressed && name_in name protect_module_name
     then nonzero_fraction n_items grads
     else Ok 1%Qc) ;;
  Ok (c + get_size (SizedTensor grads) * para_percent)%Qc.

Definition count_update_communication_cost (n_items : nat)
  (protect_module_name : list string) (cg : clients_grads) : result Qc :=
  let compressed := false in
  c <- foldM (fun gd c =>
                foldM (add_upload compressed n_items protect_module_name) gd c)
             (dict_values cg) 0%Qc ;;
  Ok (c / MiB)%Qc.

(** *** Clients.train *)

(** Forward pass, [loss.backward()] and the collection of the gradients
    of the parameters that require them, for one user's private row under
    the loaded model state. *)
Variable local_gradient : grads_dict -> nat -> Qc -> RNG -> grads_dict * RNG.

(** The exception that [torch.cat] raises for an empty list of tensors.
    Its class differs between versions of torch ([RuntimeError] in some,
    [ValueError] in others) and the source pins none. *)
Variable cat_empty_error : pyerr.

Inductive perturb_method : Type := MPC | NoPerturb.

Record t : Type := mkClients {
  n_items : nat;
  protect_module_name : list string;
  xi : nat;
  method : perturb_method;
  communication_cost : list Qc;
  rng : RNG
}.

Definition set_ledger (l : list Qc) (c : t) : t :=
  {| n_items := n_items c; protect_module_name := protect_module_name c;
     xi := xi c; method := method c; communication_cost := l;
     rng := rng c |}.

Definition set_rng (g : RNG) (c : t) : t :=
  {| n_items := n_items c; protect_module_name := protect_module_name c;
     xi := xi c; method := method c;
     communication_cost := communication_cost c; rng := g |}.

(** [l[-1] = f(l[-1])] *)
Fixpoint update_last (f : Qc -> Qc) (l : list Qc) : list Qc :=
  match l with
  | [] => []
  | [x] => [f x]
  | x :: l' => x :: update_last f l'
  end.

(** The loop that fills [clients_grads], one entry per sampled user. *)
Fixpoint collect_grads (state : grads_dict) (dropout_prob : Qc)
  (uids : list nat) (acc : clients_grads) (g : RNG) : clients_grads * RNG :=
  match uids with
  | [] => (acc, g)
  | uid :: rest =>
      let (grad_u, g') := local_gradient state uid dropout_prob g in
      collect_grads state dropout_prob rest (dict_set uid grad_u acc) g'
  end.

(** What [self.perturb_fuc(clients_grads)] returns: [MPC_perturb] returns
    a pair, the other strategy is [lambda g: g] and returns the
    dictionary itself. *)
Inductive perturb_result : Type :=
| RetPair (cg : clients_grads) (c : Qc)
| RetDict (cg : clients_grads).

Definition perturb_fuc (c : t) (cg : clients_grads)
  : t * result perturb_result :=
  match method c with
  | MPC =>
      match MPC_perturb (xi c) (rng c) cg with
      | Ok (cg', cost', g') => (set_rng g' c, Ok (RetPair cg' cost'))
      | Raise e => (c, Raise e)
      end
  | NoPerturb => (c, Ok (RetDict cg))
  end.

(** [Clients.train].  The ledger is mutated in place, so the state that
    an exception leaves behind is returned together with the outcome.
    Loading the state and reading the users' rows belong to the model
    and the data set and are taken to succeed. *)
Definition train (uids : list nat) (model_param_state_dict : grads_dict)
  (dropout_prob : Qc) (c : t) : t * result clients_grads :=
  let n := Qc_of_nat (length uids) in
  let c := set_ledger (communication_cost c ++
             [(get_size (SizedStateDict model_param_state_dict) * n / MiB)%Qc])
             c in
  match uids with
  | [] => (c, Raise cat_empty_error)   (* torch.cat of an empty list *)
  | _ :: _ =>
      let (cg, g) := collect_grads model_param_state_dict dropout_prob
                       uids [] (rng c) in
      let c := set_rng g c in
      match perturb_fuc c cg with
      | (c, Raise e) => (c, Raise e)
      | (c, Ok (RetPair perturb_grads cost')) =>
          let c := set_ledger
                     (update_last (fun x => x + cost')%Qc (communication_cost c)) c in
          match count_update_communication_cost (n_items c)
                  (protect_module_name c) perturb_grads with
          | Raise e => (c, Raise e)
          | Ok up =>
              let c := set_ledger
                         (update_last (fun x => x + up)%Qc (communication_cost c)) c in
              let c := set_ledger
                         (update_last (fun x => x / n)%Qc (communication_cost c)) c in
              (c, Ok perturb_grads)
          end
      | (c, Ok (RetDict d)) =>
          (* [perturb_grads, communication_cost = d] iterates the keys *)
          match dict_keys d with
          | [_; k2] =>
              let c := set_ledger
                         (update_last (fun x => x + Qc_of_nat k2)%Qc
                            (communication_cost c)) c in
              (* [perturb_grads] is an int: it has no [values] *)
              (c, Raise AttributeError)
          | _ => (c, Raise ValueError)
          end
      end
  end.

(** [Clients.get_mean_communications_cost]:
    [sum(ledger) / max(len(ledger), 1)], with Python's division. *)
Definition get_mean_communications_cost (c : t) : result Qc :=
  py_div (qsum (communication_cost c))
         (Qc_of_nat (Nat.max (length (communication_cost c)) 1)).

End Oracles.
End Clients.

(** ** class Server *)

Module Server.

(** A parameter of the server model as [named_parameters] yields it. *)
Record param : Type := mkParam {
  pname : string;
  requires_grad : bool;
  pdata : tensor;
  grad : option tensor          (* [None] after [zero_grad(set_to_none=True)] *)
}.

Definition set_grad (g : tensor) (p : param) : param :=
  {| pname := pname p; requires_grad := requires_grad p; pdata := pdata p;
     grad := Some g |}.

(** First loop of [aggregate_gradients].  [aggregated_gradients] is a
    [defaultdict(float)]: a name seen for the first time starts from the
    float [0.0], to which the first term is added. *)
Definition add_term (clients_num : nat) (entry : string * tensor)
  (agg : dict string tensor) : result (dict string tensor) :=
  let (name, g) := entry in
  let term := tensor_div_scalar g (Qc_of_nat clients_num) in
  match dict_get name agg with
  | None => Ok (dict_set name (scalar_add_tensor 0%Qc term) agg)
  | Some acc =>
      acc' <- tensor_iadd acc term ;;
      Ok (dict_set name acc' agg)
  end.

Definition accumulate (clients_num : nat) (cg : clients_grads)
  : result (dict string tensor) :=
  foldM (fun gd agg => foldM (add_term clients_num) gd agg)
        (dict_values cg) [].

(** Second loop: the model's gradient slots.  A name that no user sent
    reads as the default float [0.0], which has no [detach]. *)
Definition apply_aggregate (agg : dict string tensor) (p : param) : result param :=
  if negb (requires_grad p) then Ok p
  else
    match dict_get (pname p) agg, grad p with
    | Some a, None => Ok (set_grad a p)
    | Some a, Some g => g' <- tensor_iadd g a ;; Ok (set_grad g' p)
    | None, None => Raise AttributeError
    | None, Some g => Ok (set_grad (scalar_add_tensor 0%Qc g) p)
    end.

Definition aggregate_gradients (model : list param) (cg : clients_grads)
  : result (list param) :=
  let clients_num := length cg in
  agg <- accumulate clients_num cg ;;
  mapM (apply_aggregate agg) model.

(** *** The restoration attack *)

(** numpy floats: the mean of an empty array is [nan], and every
    comparison with [nan] is false. *)
Inductive npfloat : Type :=
| NaN
| Fin (q : Qc).

Definition Qclt_bool (a b : Qc) : bool := negb (Qle_bool b a).

Definition np_lt (a b : npfloat) : bool :=
  match a, b with
  | Fin x, Fin y => Qclt_bool x y
  | _, _ => false
  end.

Definition np_mean (l : list Qc) : npfloat :=
  match l with
  | [] => NaN
  | _ :: _ => Fin (qsum l / Qc_of_nat (length l))%Qc
  end.

(** [a.shape[0]] *)
Definition shape0 (t : tensor) : result nat :=
  match shape t with
  | [] => Raise IndexError
  | r :: _ => Ok r
  end.

(** [a.T] for arrays of rank at most two, the ranks of the model's
    parameters. *)
Definition numpy_T (t : tensor) : tensor :=
  match shape t with
  | [r; c] => {| shape := [c; r];
                 data := concat (transpose c (chunks c r (data t))) |}
  | _ => t
  end.

(** [if a.shape[0] != self.n_items: a = a.T] *)
Definition orient (n_items : nat) (t : tensor) : result tensor :=
  r <- shape0 t ;;
  Ok (if Nat.eqb r n_items then t else numpy_T t).

(** The rows of a matrix, as [np.sum(a, axis=1)] and row indexing need
    them.  A vector has no axis 1; arrays of rank three or more, which the
    model does not have, are reported as an error too (KMeans refuses
    them). *)
Definition rows2 (t : tensor) : result (list (list Qc)) :=
  match shape t with
  | [r; c] => Ok (chunks c r (data t))
  | _ => Raise ValueError
  end.

(** [np.sum(a, axis=1).nonzero()[0]] *)
Definition nonzero_rows (rows : list (list Qc)) : list nat :=
  map fst
    (filter (fun p => negb (Qc_eq_bool (qsum (snd p)) 0%Qc))
            (combine (seq 0 (length rows)) rows)).

(** [a[idx]] for an index array *)
Definition take_rows (idx : list nat) (rows : list (list Qc)) : list (list Qc) :=
  map (fun i => nth i rows []) idx.

(** [a[mask]] for a boolean mask *)
Definition select {A : Type} (mask : list bool) (l : list A) : list A :=
  map snd (filter fst (combine mask l)).

(** [x[i] = 1] on a list *)
Fixpoint set_one (i : nat) (x : list Qc) : list Qc :=
  match x, i with
  | [], _ => []
  | _ :: x', O => 1%Qc :: x'
  | y :: x', S i' => y :: set_one i' x'
  end.

(** [x[idx] = 1] for an index array; an index past the end raises. *)
Definition scatter_ones (idx : list nat) (x : list Qc) : result (list Qc) :=
  foldM (fun i x => if Nat.ltb i (length x) then Ok (set_one i x)
                    else Raise IndexError)
        idx x.

Inductive optimizer : Type := optimizer_encoder | optimizer_decoder.

Record t : Type := mkServer {
  seed : nat;
  n_items : nat;
  epochs : nat;
  early_stop : Z;
  alternating : bool;
  dropout_prob : Qc;
  n_enc_epochs : nat;
  n_dec_epochs : nat;
  enc_name : string;
  dec_name : string;
  use_enc_grad : bool;
  restore_epochs : list nat;
  use_tensorboard : bool
}.

Section Restore.

(** [KMeans(n_clusters=2, random_state=seed).fit_predict(rows)]: one label
    in {0, 1} per row, [true] standing for label 1. *)
Variable kmeans_labels : nat -> list (list Qc) -> list bool.

(** [np.linalg.norm(row, ord=2)] *)
Variable l2norm : list Qc -> Qc.

(** KMeans needs at least as many samples as clusters. *)
Definition fit_predict (sd : nat) (rows : list (list Qc)) : result (list bool) :=
  if Nat.ltb (length rows) 2 then Raise ValueError
  else Ok (kmeans_labels sd rows).

(** [np.linalg.norm(rows[sel], ord=2, axis=1).mean()] *)
Definition g_norm (sel : list bool) (rows : list (list Qc)) : npfloat :=
  np_mean (map l2norm (select sel rows)).

(** Lines 199 to 210 of the source: the prediction from the decoder
    gradient, given the item-oriented rows. *)
Definition decoder_prediction (srv : t) (dec_grads : list (list Qc))
  : result (list Qc) :=
  let dec_grads_nonzero_idx := nonzero_rows dec_grads in
  let dec_grads_nonzero := take_rows dec_grads_nonzero_idx dec_grads in
  x_pred_ <- fit_predict (seed srv) dec_grads_nonzero ;;
  let select1 := x_pred_ in
  let select0 := map negb select1 in
  let g_norm1 := g_norm select1 dec_grads_nonzero in
  let g_norm0 := g_norm select0 dec_grads_nonzero in
  let x_pred_ := if np_lt g_norm1 g_norm0 then map (xorb true) x_pred_
                 else x_pred_ in
  scatter_ones (select x_pred_ dec_grads_nonzero_idx)
               (repeat 0%Qc (n_items srv)).

(** Lines 211 to 213: union with the rows of non-zero encoder gradient. *)
Definition encoder_refinement (srv : t) (euc_grads : option tensor)
  (x_pred : list Qc) : result (list Qc) :=
  match euc_grads with
  | Some euc =>
      if use_enc_grad srv
      then rows <- rows2 euc ;; scatter_ones (nonzero_rows rows) x_pred
      else Ok x_pred
  | None => Ok x_pred
  end.

(** Body of the loop of [restore_from_gradient] up to the prediction
    handed to [evaluate_restore]. *)
Definition restore_user (srv : t) (gd : grads_dict) : result (list Qc) :=
  dec_grads <- of_option KeyError (dict_get (dec_name srv) gd) ;;
  euc_grads <- (if String.eqb (enc_name srv) (dec_name srv) then Ok None
                else e <- of_option KeyError (dict_get (enc_name srv) gd) ;;
                     Ok (Some e)) ;;
  dec_grads <- orient (n_items srv) dec_grads ;;
  euc_grads <- match euc_grads with
               | None => Raise AttributeError        (* [None.shape] *)
               | Some e => e' <- orient (n_items srv) e ;; Ok (Some e')
               end ;;
  rows <- rows2 dec_grads ;;
  x_pred <- decoder_prediction srv rows ;;
  encoder_refinement srv euc_grads x_pred.

(** [restore_from_gradient]: the predictions, one per user of the round,
    on which the precision, recall and F1 scores are computed. *)
Definition restore_from_gradient (srv : t) (cg : clients_grads)
  : result (list (nat * list Qc)) :=
  mapM (fun '(uid, gd) => x <- restore_user srv gd ;; Ok (uid, x)) cg.

End Restore.

(** *** Server.run and Server.train

    The training loops are modelled by the sequence of calls they make on
    the collaborators, in program order. *)

Inductive call : Type :=
| IterLoader                                      (* [iter(uid_seq)]: a fresh shuffle *)
| ZeroGrad (o : optimizer)
| ClientsTrain (uids : list nat) (dropout_prob : Qc)
| AggregateGradients (uids : list nat)
| OptStep (o : optimizer)
| RestoreFromGradient (uids : list nat)
| ModelTrain
| UpdatePrior
| LogInTensorboard (epoch : nat)
| Evaluate (epoch : nat)
| SaveCheckpoint (epoch : nat).

Section Training.

Variable RNG : Type.

(** The batches that one traversal of the shuffling [DataLoader] over
    [ClientsSampler] yields. *)
Variable shuffle : RNG -> list (list nat) * RNG.

(** Validation NDCG\@k returned by [evaluate] at the end of an epoch
    (epochs counted from 0, as the loop variable). *)
Variable validation_ndcg : nat -> Qc.

(** Body of the inner loop of [run] for one cohort; returns the calls made
    and the value of [to_restore] afterwards. *)
Definition round (opts : list optimizer) (dropout_prob : Qc)
  (uids : list nat) (to_restore : bool) : list call * bool :=
  let cs := map ZeroGrad opts
            ++ [ClientsTrain uids dropout_prob; AggregateGradients uids]
            ++ map OptStep opts in
  if to_restore then (cs ++ [RestoreFromGradient uids], false)
  else (cs, to_restore).

Fixpoint run_batches (opts : list optimizer) (dropout_prob : Qc)
  (batches : list (list nat)) (to_restore : bool) : list call * bool :=
  match batches with
  | [] => ([], to_restore)
  | uids :: rest =>
      let (cs, to_restore) := round opts dropout_prob uids to_restore in
      let (cs', to_restore) := run_batches opts dropout_prob rest to_restore in
      (cs ++ cs', to_restore)
  end.

Fixpoint run_epochs (opts : list optimizer) (n_epochs : nat)
  (dropout_prob : Qc) (to_restore : bool) (g : RNG)
  : list call * bool * RNG :=
  match n_epochs with
  | O => ([], to_restore, g)
  | S n =>
      let (batches, g) := shuffle g in
      let (cs, to_restore) := run_batches opts dropout_prob batches to_restore in
      let '(cs', to_restore, g) :=
        run_epochs opts n dropout_prob to_restore g in
      (IterLoader :: cs ++ cs', to_restore, g)
  end.

(** [Server.run] *)
Definition run (opts : list optimizer) (n_epochs : nat) (dropout_prob : Qc)
  (to_restore : bool) (g : RNG) : list call * RNG :=
  let '(cs, _, g) := run_epochs opts n_epochs dropout_prob to_restore g in
  (cs, g).

(** The train phase of one epoch of [Server.train]. *)
Definition train_phase (srv : t) (epoch : nat) (g : RNG)
  : list call * RNG :=
  let to_restore := existsb (Nat.eqb (epoch + 1)) (restore_epochs srv) in
  if alternating srv then
    let (cs1, g) := run [optimizer_encoder] (n_enc_epochs srv)
                        (dropout_prob srv) false g in
    let (cs2, g) := run [optimizer_decoder] (n_dec_epochs srv) 0%Qc
                        to_restore g in
    (ModelTrain :: cs1 ++ UpdatePrior :: cs2, g)
  else
    let (cs, g) := run [optimizer_encoder; optimizer_decoder] 1
                       (dropout_prob srv) to_restore g in
    (ModelTrain :: cs, g).

(** [best_ndcg] starts at [-np.inf]. *)
Inductive best : Type :=
| NegInf
| Best (q : Qc).

Definition improves_on (ndcg5 : Qc) (b : best) : bool :=
  match b with
  | NegInf => true
  | Best q => Qclt_bool q ndcg5
  end.

Record train_state : Type := mkTrainState {
  best_ndcg : best;
  best_epoch : nat;
  patience : Z;
  epochs_run : nat;            (* loop iterations entered so far *)
  calls : list call;
  loader : RNG
}.

(** One iteration of the loop of [Server.train]; the boolean tells
    whether the loop breaks. *)
Definition train_epoch (srv : t) (epoch : nat) (st : train_state)
  : train_state * bool :=
  let (cs, g) := train_phase srv epoch (loader st) in
  let cs := calls st ++ cs
            ++ (if use_tensorboard srv then [LogInTensorboard epoch] else [])
            ++ [Evaluate epoch] in
  let ndcg5 := validation_ndcg epoch in
  if improves_on ndcg5 (best_ndcg st) then
    ({| best_ndcg := Best ndcg5; best_epoch := epoch + 1;
        patience := early_stop srv; epochs_run := epoch + 1;
        calls := cs ++ [SaveCheckpoint (epoch + 1)]; loader := g |}, false)
  else
    let patience := (patience st - 1)%Z in
    ({| best_ndcg := best_ndcg st; best_epoch := best_epoch st;
        patience := patience; epochs_run := epoch + 1;
        calls := cs; loader := g |},
     Z.eqb patience 0).

Fixpoint train_loop (srv : t) (range : list nat) (st : train_state)
  : train_state :=
  match range with
  | [] => st
  | epoch :: rest =>
      let (st', stop) := train_epoch srv epoch st in
      if stop then st' else train_loop srv rest st'
  end.

(** [Server.train] *)
Definition train (srv : t) (g : RNG) : train_state :=
  train_loop srv (seq 0 (epochs srv))
    {| best_ndcg := NegInf; best_epoch := 0; patience := early_stop srv;
       epochs_run := 0; calls := []; loader := g |}.

End Training.
(** *** Server.evaluate: averaging the per-user metrics *)

(** [a[np.isnan(a)] = 0] on one value *)
Definition nan_to_zero (v : npfloat) : Qc :=
  match v with
  | NaN => 0%Qc
  | Fin q => q
  end.

(** One metric of [evaluate]: the per-batch arrays are concatenated
    ([np.concatenate] raises on an empty list of arrays), the not-a-number
    entries are set to 0 and the mean is taken. *)
Definition mean_metric (batches : list (list npfloat)) : result npfloat :=
  match batches with
  | [] => Raise ValueError
  | _ :: _ => Ok (np_mean (map nan_to_zero (concat batches)))
  end.

(** The per-batch arrays of the six metrics, one list entry per batch of
    the data set. *)
Record metric_lists : Type := mkMetricLists {
  ndcg5_list : list (list npfloat);
  recall5_list : list (list npfloat);
  precision5_list : list (list npfloat);
  f1_list : list (list npfloat);
  oneCall_list : list (list npfloat);
  auc_list : list (list npfloat)
}.

(** Lines 312 to 332 of [evaluate]: the six means, returned in the order
    precision, recall, F1, NDCG, one-call, AUC. *)
Definition evaluate_means (m : metric_lists)
  : result (npfloat * npfloat * npfloat * npfloat * npfloat * npfloat) :=
  ndcg5 <- mean_metric (ndcg5_list m) ;;
  recall5 <- mean_metric (recall5_list m) ;;
  precision5 <- mean_metric (precision5_list m) ;;
  f1 <- mean_metric (f1_list m) ;;
  oneCAll <- mean_metric (oneCall_list m) ;;
  auc <- mean_metric (auc_list m) ;;
  Ok (precision5, recall5, f1, ndcg5, oneCAll, auc).

End Server.

(** * Notions used to state the properties *)

(** Names and shapes of a cohort's gradients, without the values. *)
Definition skeleton (cg : clients_grads) : list (nat * list (string * list nat)) :=
  map (fun p => (fst p, map (fun q => (fst q, shape (snd q))) (snd p))) cg.

Definition slot_shape (uid : nat) (name : string) (cg : clients_grads)
  : option (list nat) :=
  match dict_get uid cg with
  | Some gd => option_map shape (dict_get name gd)
  | None => None
  end.

Definition all_wf (cg : clients_grads) : Prop :=
  Forall (fun p => Forall (fun q => wf_tensor (snd q)) (snd p)) cg.

(** Every user's gradient dictionary has the same parameter names, with
    tensors of the same shapes. *)
Definition uniform (cg : clients_grads) : Prop :=
  forall u v name sh,
    In u (dict_keys cg) -> In v (dict_keys cg) ->
    slot_shape u name cg = Some sh -> slot_shape v name cg = Some sh.

(** Entry [k] of the gradient of [name] in one dictionary, and its sum over
    the users of the cohort. *)
Definition coord (name : string) (k : nat) (gd : grads_dict) : Qc :=
  match dict_get name gd with
  | Some t => nth k (data t) 0%Qc
  | None => 0%Qc
  end.

Definition cohort_sum (name : string) (k : nat) (cg : clients_grads) : Qc :=
  qsum (map (coord name k) (dict_values cg)).

(** A neighbour assignment for [n] members that stays within the cohort:
    one row per member, every index that of a member. *)
Definition closed_exchange (n : nat) (clients_idx : list (list nat)) : Prop :=
  length clients_idx = n /\ Forall (Forall (fun j => j < n)) clients_idx.

(** What the exchange loops of [MPC_perturb] keep true of the gradients,
    relative to the gradients [cg0] they started from. *)
Definition conserved {RNG : Type} (cg0 : clients_grads)
  (st : Clients.mpc_state RNG) : Prop :=
  skeleton (Clients.store st) = skeleton cg0
  /\ all_wf (Clients.store st)
  /\ forall name k,
       cohort_sum name k (Clients.store st) = cohort_sum name k cg0.

(** The arithmetic mean over the cohort of entry [k] of the gradient of
    [name]: the sum over the users, divided by their number. *)
Definition mean_coord (name : string) (k : nat) (cg : clients_grads) : Qc :=
  (cohort_sum name k cg / Qc_of_nat (length cg))%Qc.

(** Entry [k] of a parameter's gradient accumulator; an absent accumulator
    counts as zero. *)
Definition grad_coord (p : Server.param) (k : nat) : Qc :=
  match Server.grad p with
  | Some g => nth k (data g) 0%Qc
  | None => 0%Qc
  end.

(** The gradient tensors of a cohort conform to the shapes [shp] of the
    model's named parameters, and every dictionary has distinct keys. *)
Definition conforms (shp : string -> list nat) (cg : clients_grads) : Prop :=
  forall uid gd, In (uid, gd) cg ->
    NoDup (dict_keys gd)
    /\ forall name t, dict_get name gd = Some t ->
                      wf_tensor t /\ shape t = shp name.

(** What [aggregate_gradients] makes of one parameter. *)
Definition aggregated (cg : clients_grads) (p p' : Server.param) : Prop :=
  Server.pname p' = Server.pname p
  /\ Server.requires_grad p' = Server.requires_grad p
  /\ Server.pdata p' = Server.pdata p
  /\ if Server.requires_grad p
     then exists g', Server.grad p' = Some g'
                     /\ shape g' = shape (Server.pdata p)
                     /\ wf_tensor g'
                     /\ forall k, nth k (data g') 0%Qc
                                  = (grad_coord p k
                                     + mean_coord (Server.pname p) k cg)%Qc
     else p' = p.

(** Running total kept by the first loop of [aggregate_gradients] after
    the entries [done] have been added. *)
Definition partial_sum (n : Qc) (name : string) (k : nat)
  (done : list (string * tensor)) : Qc :=
  qsum (map (fun q => if String.eqb name (fst q)
                      then (nth k (data (snd q)) 0 / n)%Qc else 0%Qc) done).

Definition accumulated (shp : string -> list nat) (n : Qc)
  (done : list (string * tensor)) (agg : dict string tensor) : Prop :=
  forall name,
    match dict_get name agg with
    | None => forall q, In q done -> fst q <> name
    | Some a => wf_tensor a /\ shape a = shp name
                /\ forall k, nth k (data a) 0%Qc = partial_sum n name k done
    end.

(** The tensors of a gradient mapping, in the order in which they are
    sent. *)
Definition sent_tensors (cg : clients_grads) : list tensor :=
  map snd (concat (dict_values cg)).

(** Full serialized size of a gradient mapping, in megabytes. *)
Definition full_upload_cost (get_size : sized -> Qc) (cg : clients_grads) : Qc :=
  (qsum (map (fun t => get_size (SizedTensor t)) (sent_tensors cg)) / MiB)%Qc.

(** Download cost of a round, in megabytes. *)
Definition download_cost (get_size : sized -> Qc) (state : grads_dict)
  (cohort_size : nat) : Qc :=
  (get_size (SizedStateDict state) * Qc_of_nat cohort_size / MiB)%Qc.

(** The selected rows that 2-means put in the cluster labelled [lab], and
    the mean of their norms. *)
Definition cluster_rows (lab : bool) (labels : list bool)
  (rows : list (list Qc)) : list (list Qc) :=
  map snd (filter (fun p => Bool.eqb (fst p) lab) (combine labels rows)).

Definition mean_norm (l2norm : list Qc -> Qc) (rows : list (list Qc)) : Qc :=
  (qsum (map l2norm rows) / Qc_of_nat (length rows))%Qc.

(** Item [i] is one of the selected rows and 2-means labelled it [lab]. *)
Definition in_cluster (lab : bool) (labels : list bool) (idx : list nat)
  (i : nat) : Prop :=
  exists p, nth_error idx p = Some i /\ nth_error labels p = Some lab.

(** The calls of one round of [run] up to and including the optimizer
    steps. *)
Definition round_calls (opts : list Server.optimizer) (dropout_prob : Qc)
  (uids : list nat) : list Server.call :=
  map Server.ZeroGrad opts
  ++ [Server.ClientsTrain uids dropout_prob; Server.AggregateGradients uids]
  ++ map Server.OptStep opts.

(** The cohorts that a call of [run] with [n_epochs] traversals of the
    loader processes, in order. *)
Fixpoint cohorts_processed {RNG : Type} (shuffle : RNG -> list (list nat) * RNG)
  (n_epochs : nat) (g : RNG) : list (list nat) :=
  match n_epochs with
  | O => []
  | S n => let (batches, g') := shuffle g in
           batches ++ cohorts_processed shuffle n g'
  end.

Definition is_restore (c : Server.call) : bool :=
  match c with
  | Server.RestoreFromGradient _ => true
  | _ => false
  end.

Definition is_iter (c : Server.call) : bool :=
  match c with
  | Server.IterLoader => true
  | _ => false
  end.

(** Epoch [i] (counted from 0) improves the validation NDCG\@k: its value is
    strictly above that of every earlier epoch. *)
Definition improves (ndcg : nat -> Qc) (i : nat) : bool :=
  forallb (fun j => Server.Qclt_bool (ndcg j) (ndcg i)) (seq 0 i).

(** Number (counted from 1) of the last improving epoch among the first
    [t] epochs; 0 when there is none. *)
Fixpoint last_improving (ndcg : nat -> Qc) (t : nat) : nat :=
  match t with
  | O => O
  | S t' => if improves ndcg t' then S t' else last_improving ndcg t'
  end.

(** The early-stopping claim: training runs until [early_stop] epochs
    after the last improving epoch, or until the maximum number of
    epochs. *)
Definition halts_as_claimed {RNG : Type}
  (shuffle : RNG -> list (list nat) * RNG) (ndcg : nat -> Qc)
  (srv : Server.t) (g : RNG) : Prop :=
  let t := Server.epochs_run (Server.train shuffle ndcg srv g) in
  t = Nat.min (Server.epochs srv)
              (last_improving ndcg t + Z.to_nat (Server.early_stop srv)).

(** State of the loop of [Server.train] after [i] epochs without a break. *)
Definition train_invariant {RNG : Type} (ndcg : nat -> Qc) (patience0 : Z)
  (i : nat) (st : Server.train_state RNG) : Prop :=
  Server.epochs_run st = i
  /\ (forall v, Server.improves_on v (Server.best_ndcg st)
                = forallb (fun j => Server.Qclt_bool (ndcg j) v) (seq 0 i))
  /\ Server.best_epoch st = last_improving ndcg i
  /\ Server.patience st
     = (patience0 - Z.of_nat (i - last_improving ndcg i))%Z
  /\ (forall t, 1 <= t <= i ->
                t < last_improving ndcg t + Z.to_nat patience0)
  /\ (forall e, In (Server.SaveCheckpoint e) (Server.calls st)
                <-> 1 <= e <= i /\ improves ndcg (e - 1) = true).

(** State in which the loop of [Server.train] ends when at most [n] epochs
    are allowed. *)
Definition train_outcome {RNG : Type} (ndcg : nat -> Qc) (patience0 : Z)
  (n : nat) (st : Server.train_state RNG) : Prop :=
  let t := Server.epochs_run st in
  t = Nat.min n (last_improving ndcg t + Z.to_nat patience0)
  /\ (forall t', 1 <= t' < t ->
                 t' < last_improving ndcg t' + Z.to_nat patience0)
  /\ Server.best_epoch st = last_improving ndcg t
  /\ Server.patience st
     = (patience0 - Z.of_nat (t - last_improving ndcg t))%Z
  /\ (forall e, In (Server.SaveCheckpoint e) (Server.calls st)
                <-> 1 <= e <= t /\ improves ndcg (e - 1) = true).

(** The parameter [p] after mean aggregation over the cohort [cg], in
    closed form: its accumulator holds, entry by entry, the previous
    content plus the mean. *)
Definition mean_update (shp : string -> list nat) (cg : clients_grads)
  (p : Server.param) : Server.param :=
  if Server.requires_grad p
  then Server.set_grad
         {| shape := shp (Server.pname p);
            data := map (fun k => (grad_coord p k
                                   + mean_coord (Server.pname p) k cg)%Qc)
                        (seq 0 (numel (shp (Server.pname p)))) |}
         p
  else p.

(** Every user of the cohort supplies a gradient for every parameter of the
    model that requires one, and the accumulators already present have the
    parameters' shapes. *)
Definition supplied (shp : string -> list nat) (model : list Server.param)
  (cg : clients_grads) : Prop :=
  forall p, In p model -> Server.requires_grad p = true ->
    (forall g, Server.grad p = Some g ->
               wf_tensor g /\ shape g = shp (Server.pname p))
    /\ forall uid gd, In (uid, gd) cg ->
         exists t, dict_get (Server.pname p) gd = Some t.

(** What [run] does apart from the attack: per traversal of the loader and
    per cohort, zero-grad of each optimizer, training, aggregation and a
    step of each optimizer. *)
Fixpoint plain_run_calls {RNG : Type} (shuffle : RNG -> list (list nat) * RNG)
  (opts : list Server.optimizer) (dropout_prob : Qc) (n_epochs : nat)
  (g : RNG) : list Server.call :=
  match n_epochs with
  | O => []
  | S n =>
      let (batches, g') := shuffle g in
      Server.IterLoader
        :: concat (map (round_calls opts dropout_prob) batches)
        ++ plain_run_calls shuffle opts dropout_prob n g'
  end.

(** State of the loader after [n_epochs] traversals. *)
Fixpoint loader_after {RNG : Type} (shuffle : RNG -> list (list nat) * RNG)
  (n_epochs : nat) (g : RNG) : RNG :=
  match n_epochs with
  | O => g
  | S n => loader_after shuffle n (snd (shuffle g))
  end.

Definition not_restore (c : Server.call) : bool := negb (is_restore c).

(** The cohorts handed to [Clients.train], and those handed to
    [aggregate_gradients], in the order of the calls. *)
Definition trained_cohorts (cs : list Server.call) : list (list nat) :=
  flat_map (fun c => match c with
                     | Server.ClientsTrain uids _ => [uids]
                     | _ => []
                     end) cs.

Definition aggregated_cohorts (cs : list Server.call) : list (list nat) :=
  flat_map (fun c => match c with
                     | Server.AggregateGradients uids => [uids]
                     | _ => []
                     end) cs.

(** Whether the attack is scheduled for the epoch with loop variable
    [epoch]: [epoch + 1 in self.restore_epochs]. *)
Definition attack_scheduled (srv : Server.t) (epoch : nat) : bool :=
  existsb (Nat.eqb (epoch + 1)) (Server.restore_epochs srv).

(** The rows of a gradient matrix of shape (r, c) with one row per item:
    the stored rows when the first dimension is [n_items], the columns
    otherwise. *)
Definition item_rows (n_items r c : nat) (d : list Qc) : list (list Qc) :=
  if Nat.eqb r n_items then chunks c r d else transpose c (chunks c r d).

(** The items whose row has a non-zero sum, in increasing order: the rows
    that the attack hands to 2-means. *)
Definition nonzero_items (rows : list (list Qc)) : list nat :=
  filter (fun i => negb (Qc_eq_bool (qsum (nth i rows [])) 0%Qc))
         (seq 0 (length rows)).

(** Item [i] is marked by the encoder refinement: the refinement is
    switched on and the row of [i] in the encoder gradient has a non-zero
    sum. *)
Definition enc_marked (srv : Server.t) (enc_rows : list (list Qc)) (i : nat)
  : Prop :=
  Server.use_enc_grad srv = true
  /\ i < length enc_rows /\ qsum (nth i enc_rows []) <> 0%Qc.

(** The claim on what the attack labels, said of a prediction: it is 1
    exactly on the items of the cluster labelled [big] and 0 on every
    other item. *)
Definition labels_larger_cluster_only (big : bool) (labels : list bool)
  (idx : list nat) (n_items : nat) (x_pred : list Qc) : Prop :=
  forall i, i < n_items ->
    (in_cluster big labels idx i /\ nth i x_pred 0%Qc = 1%Qc)
    \/ (~ in_cluster big labels idx i /\ nth i x_pred 0%Qc = 0%Qc).

Definition is_update_prior (c : Server.call) : bool :=
  match c with
  | Server.UpdatePrior => true
  | _ => false
  end.

(** The attack calls of a call of [run] over [n_epochs] traversals of the
    loader: one, on the first cohort processed, when the flag is set and
    there is a cohort; none otherwise. *)
Definition attack_calls {RNG : Type} (shuffle : RNG -> list (list nat) * RNG)
  (flag : bool) (n_epochs : nat) (g : RNG) : list Server.call :=
  if flag then
    match cohorts_processed shuffle n_epochs g with
    | c0 :: _ => [Server.RestoreFromGradient c0]
    | [] => []
    end
  else [].

(** What the loop of [Server.train] keeps true of the best validation
    value after [i] epochs. *)
Definition best_tracked {RNG : Type} (ndcg : nat -> Qc) (i : nat)
  (st : Server.train_state RNG) : Prop :=
  Server.epochs_run st = i
  /\ (i = 0 ->
      Server.best_ndcg st = Server.NegInf /\ Server.best_epoch st = 0
      /\ forall e, ~ In (Server.SaveCheckpoint e) (Server.calls st))
  /\ (1 <= i ->
      1 <= Server.best_epoch st <= i
      /\ Server.best_ndcg st = Server.Best (ndcg (Server.best_epoch st - 1))
      /\ (forall j, j < i ->
                    (ndcg j <= ndcg (Server.best_epoch st - 1)%nat)%Qc)
      /\ (forall j, j < Server.best_epoch st - 1 ->
                    (ndcg j < ndcg (Server.best_epoch st - 1)%nat)%Qc)
      /\ In (Server.SaveCheckpoint (Server.best_epoch st)) (Server.calls st)
      /\ forall e, In (Server.SaveCheckpoint e) (Server.calls st) ->
                   e <= Server.best_epoch st).

(** The values of a metric array that are numbers, and the mean that counts
    every not-a-number entry as 0. *)
Definition finite_values (l : list Server.npfloat) : list Qc :=
  flat_map (fun v => match v with
                     | Server.Fin q => [q]
                     | Server.NaN => []
                     end) l.

Definition zero_filled_mean (batches : list (list Server.npfloat)) : Qc :=
  (qsum (finite_values (concat batches))
   / Qc_of_nat (length (concat batches)))%Qc.

(** Serialized size of one user's gradient dictionary, tensor by tensor in
    the order of its keys; the size of the dictionary of user [uid]. *)
Definition bundle_size (get_size : sized -> Qc) (gd : grads_dict) : Qc :=
  qsum (map (fun name => match dict_get name gd with
                         | Some t => get_size (SizedTensor t)
                         | None => 0%Qc
                         end) (dict_keys gd)).

Definition bundle_of (get_size : sized -> Qc) (uid : nat)
  (cg : clients_grads) : Qc :=
  match dict_get uid cg with
  | Some gd => bundle_size get_size gd
  | None => 0%Qc
  end.

(** Bytes exchanged between the clients: every user sends one share of its
    whole dictionary to each of its neighbours. *)
Definition exchange_bytes (get_size : sized -> Qc)
  (clients_idx : list (list nat)) (cg : clients_grads) : Qc :=
  qsum (map (fun p => (Qc_of_nat (length (fst p))
                       * bundle_of get_size (snd p) cg)%Qc)
            (combine clients_idx (dict_keys cg))).

(** The size of a tensor depends on its shape only. *)
Definition size_by_shape (get_size : sized -> Qc) : Prop :=
  forall t t', wf_tensor t -> wf_tensor t' -> shape t = shape t' ->
               get_size (SizedTensor t) = get_size (SizedTensor t').

(** * Concrete collaborators and inputs for the examples *)

Module Fixture.

(** A counter stands for the generator; the [n] "samples" drawn at state
    [g] are [g, g+1, ...]. *)
Definition randn (g n : nat) : list Qc * nat :=
  (map (fun i => Qc_of_nat (g + i)) (seq 0 n), g + n).

(** Four bytes per entry. *)
Definition get_size (o : sized) : Qc :=
  match o with
  | SizedTensor t => Qc_of_nat (4 * length (data t))
  | SizedStateDict d =>
      Qc_of_nat (4 * list_sum (map (fun q => length (data (snd q))) d))
  end.

Definition vec (l : list nat) : tensor :=
  {| shape := [length l]; data := map Qc_of_nat l |}.

(** Two users, two parameters each. *)
Definition cohort2 : clients_grads :=
  [(7, [("w"%string, vec [1; 2]); ("b"%string, vec [3])]);
   (9, [("w"%string, vec [4; 5]); ("b"%string, vec [6])])].

(** Each of the two users sends to the other one. *)
Definition swap_neighbor (g n xi : nat) : result (list (list nat)) * nat :=
  (Ok [[1]; [0]], g).

(** A server model with a fresh accumulator, a filled one, and a frozen
    parameter; the shapes of its named parameters. *)
Definition model3 : list Server.param :=
  [ {| Server.pname := "w"; Server.requires_grad := true;
       Server.pdata := vec [0; 0]; Server.grad := None |};
    {| Server.pname := "b"; Server.requires_grad := true;
       Server.pdata := vec [0]; Server.grad := Some (vec [10]) |};
    {| Server.pname := "frozen"; Server.requires_grad := false;
       Server.pdata := vec [1; 1; 1]; Server.grad := None |} ]%string.

Definition shp (name : string) : list nat :=
  if String.eqb name "w" then [2] else [1].

(** The gradient of every user is the loaded state itself. *)
Definition local_gradient (state : grads_dict) (uid : nat) (dropout : Qc)
  (g : nat) : grads_dict * nat :=
  (state, g).

Definition state1 : grads_dict := [("w"%string, vec [1; 2])].

(** A client pool configured without perturbation, before its first
    round. *)
Definition plain_clients : Clients.t nat :=
  {| Clients.n_items := 2; Clients.protect_module_name := ["w"%string];
     Clients.xi := 1; Clients.method := Clients.NoPerturb;
     Clients.communication_cost := []; Clients.rng := 0 |}.

(** The Euclidean norm of the rows whose norm is an integer: the integer
    square root of the sum of squares. *)
Definition l2norm (row : list Qc) : Qc :=
  Q2Qc (inject_Z (Z.sqrt (Qfloor (this (qsum (map (fun x => x * x)%Qc row)))))).

(** A clustering that gives label 0 to the rows of large norm, and one
    that puts every row in cluster 1. *)
Definition kmeans_large_is_0 (seed : nat) (rows : list (list Qc)) : list bool :=
  map (fun r => Qle_bool (l2norm r) (Qc_of_nat 2)) rows.

Definition kmeans_single (seed : nat) (rows : list (list Qc)) : list bool :=
  map (fun _ => true) rows.

Definition server4 (enc dec : string) : Server.t :=
  {| Server.seed := 0; Server.n_items := 4; Server.epochs := 3;
     Server.early_stop := 0; Server.alternating := true;
     Server.dropout_prob := Q2Qc (1 # 2);
     Server.n_enc_epochs := 2; Server.n_dec_epochs := 1;
     Server.enc_name := enc; Server.dec_name := dec;
     Server.use_enc_grad := false; Server.restore_epochs := [1];
     Server.use_tensorboard := false |}.

Definition mat (r c : nat) (l : list nat) : tensor :=
  {| shape := [r; c]; data := map Qc_of_nat l |}.

(** Items 1 and 3 carry gradient, of norms 5 and 1. *)
Definition dec_rows : list (list Qc) :=
  map (map Qc_of_nat) [[0; 0]; [3; 4]; [0; 0]; [1; 0]].

Definition cohort_dec : clients_grads :=
  [(7, [("decoder.w"%string, mat 4 2 [0; 0; 3; 4; 0; 0; 1; 0])])].

(** A loader over three users with batches of two; the first traversal is
    empty when [g] is 0, to exercise the search for the first cohort. *)
Definition shuffle (g : nat) : list (list nat) * nat :=
  (match g with
   | O => []
   | S _ => [[g; 0]; [1]]
   end, S g).

(** Validation NDCG that only the first epoch improves. *)
Definition ndcg_once (epoch : nat) : Qc :=
  match epoch with
  | O => Qc_of_nat 1
  | S _ => Qc_of_nat 0
  end.

(** The same server with a patience of two epochs and up to ten epochs. *)
Definition server_patient : Server.t :=
  {| Server.seed := 0; Server.n_items := 4; Server.epochs := 10;
     Server.early_stop := 2; Server.alternating := true;
     Server.dropout_prob := Q2Qc (1 # 2);
     Server.n_enc_epochs := 2; Server.n_dec_epochs := 1;
     Server.enc_name := "encoder.w"; Server.dec_name := "decoder.w";
     Server.use_enc_grad := false; Server.restore_epochs := [1];
     Server.use_tensorboard := false |}.

(** A client pool configured with the pairwise masking, before its first
    round. *)
Definition mpc_clients : Clients.t nat :=
  {| Clients.n_items := 2; Clients.protect_module_name := ["w"%string];
     Clients.xi := 1; Clients.method := Clients.MPC;
     Clients.communication_cost := []; Clients.rng := 0 |}.

(** A server in joint mode, with a patience of two epochs. *)
Definition server_joint : Server.t :=
  {| Server.seed := 0; Server.n_items := 4; Server.epochs := 3;
     Server.early_stop := 2; Server.alternating := false;
     Server.dropout_prob := Q2Qc (1 # 2);
     Server.n_enc_epochs := 2; Server.n_dec_epochs := 1;
     Server.enc_name := "encoder.w"; Server.dec_name := "decoder.w";
     Server.use_enc_grad := false; Server.restore_epochs := [1];
     Server.use_tensorboard := false |}.

(** Two batches of a metric; the second user of the first batch has no
    held-out item. *)
Definition metric_batches : list (list Server.npfloat) :=
  [[Server.Fin (Qc_of_nat 1); Server.NaN]; [Server.Fin (Qc_of_nat 0)]].

Definition metrics6 : Server.metric_lists :=
  {| Server.ndcg5_list := metric_batches;
     Server.recall5_list := metric_batches;
     Server.precision5_list := metric_batches;
     Server.f1_list := metric_batches;
     Server.oneCall_list := metric_batches;
     Server.auc_list := metric_batches |}.

(** A server with the encoder refinement switched on, and the gradients
    of one user: the decoder gradient of [dec_rows] and a 2 x 4 encoder
    gradient whose only non-zero column is that of item 2. *)
Definition server_refine : Server.t :=
  {| Server.seed := 0; Server.n_items := 4; Server.epochs := 3;
     Server.early_stop := 0; Server.alternating := true;
     Server.dropout_prob := Q2Qc (1 # 2);
     Server.n_enc_epochs := 2; Server.n_dec_epochs := 1;
     Server.enc_name := "encoder.w"; Server.dec_name := "decoder.w";
     Server.use_enc_grad := true; Server.restore_epochs := [1];
     Server.use_tensorboard := false |}.

Definition user_grads : grads_dict :=
  [("decoder.w"%string, mat 4 2 [0; 0; 3; 4; 0; 0; 1; 0]);
   ("encoder.w"%string, mat 2 4 [0; 0; 1; 0; 0; 0; 0; 0])].

End Fixture.

(** * Properties *)

Unset Implicit Arguments.

(** ** Loops in the error monad *)

Lemma foldM_invariant {A S : Type} (P : S -> Prop) (Q : A -> Prop)
  (f : A -> S -> result S) (l : list A) :
  (forall a s, Q a -> P s -> exists s', f a s = Ok s' /\ P s') ->
  Forall Q l ->
  forall s, P s -> exists s', foldM f l s = Ok s' /\ P s'.
Proof.
  intros step HQ. induction HQ as [|a l Ha _ IH]; intros s Hs.
  - exists s. split; [reflexivity | assumption].
  - destruct (step a s Ha Hs) as (s1 & E1 & H1).
    destruct (IH s1 H1) as (s2 & E2 & H2).
    exists s2. simpl. rewrite E1. simpl. auto.
Qed.

Lemma mapM_Forall2 {A B : Type} (R : A -> B -> Prop) (f : A -> result B)
  (l : list A) :
  Forall (fun a => exists b, f a = Ok b /\ R a b) l ->
  exists bs, mapM f l = Ok bs /\ Forall2 R l bs.
Proof.
  induction 1 as [|a l (b & Eb & Hb) _ (bs & Ebs & Hbs)].
  - exists []. split; [reflexivity | constructor].
  - exists (b :: bs). simpl. rewrite Eb. simpl. rewrite Ebs. simpl.
    split; [reflexivity | constructor; assumption].
Qed.

(** ** Dictionaries *)

Section DictFacts.
Context {K V : Type} `{Key K}.

Lemma keqb_refl (k : K) : keqb k k = true.
Proof. apply keqb_eq. reflexivity. Qed.

Lemma keqb_neq (a b : K) : a <> b -> keqb a b = false.
Proof.
  intros N. destruct (keqb a b) eqn:E; [|reflexivity].
  apply keqb_eq in E. contradiction.
Qed.

Lemma dict_get_in (k : K) (d : dict K V) :
  In k (dict_keys d) -> exists v, dict_get k d = Some v.
Proof.
  induction d as [|[k' v'] d IH]; simpl; [contradiction|].
  intros [E | I].
  - subst. rewrite keqb_refl. eauto.
  - destruct (keqb k k'); eauto.
Qed.

Lemma dict_get_some_in (k : K) (v : V) (d : dict K V) :
  dict_get k d = Some v -> In (k, v) d.
Proof.
  induction d as [|[k' v'] d IH]; simpl; [discriminate|].
  destruct (keqb k k') eqn:E.
  - apply keqb_eq in E. subst. intros [= ->]. auto.
  - auto.
Qed.

Lemma dict_get_set_same (k : K) (v v0 : V) (d : dict K V) :
  dict_get k d = Some v0 -> dict_get k (dict_set k v d) = Some v.
Proof.
  induction d as [|[k' v'] d IH]; simpl; [discriminate|].
  destruct (keqb k k') eqn:E; simpl; rewrite E; auto.
Qed.

Lemma dict_get_set_other (k k1 : K) (v : V) (d : dict K V) :
  k1 <> k -> dict_get k1 (dict_set k v d) = dict_get k1 d.
Proof.
  intros N. induction d as [|[k' v'] d IH]; simpl.
  - rewrite (keqb_neq _ _ N). reflexivity.
  - destruct (keqb k k') eqn:E; simpl.
    + apply keqb_eq in E. subst k'. rewrite (keqb_neq _ _ N). reflexivity.
    + destruct (keqb k1 k'); auto.
Qed.

Lemma dict_keys_set (k : K) (v v0 : V) (d : dict K V) :
  dict_get k d = Some v0 -> dict_keys (dict_set k v d) = dict_keys d.
Proof.
  induction d as [|[k' v'] d IH]; simpl; [discriminate|].
  destruct (keqb k k') eqn:E; simpl; [reflexivity|].
  intros G. f_equal. apply IH, G.
Qed.
End DictFacts.

Section DictUpdate.
Context {K V : Type} `{Key K}.

Lemma dict_set_map_snd {W : Type} (g : V -> W) (k : K) (v v' : V)
  (d : dict K V) :
  dict_get k d = Some v -> g v' = g v ->
  map (fun p => (fst p, g (snd p))) (dict_set k v' d)
  = map (fun p => (fst p, g (snd p))) d.
Proof.
  intros G E. induction d as [|[k0 v0] d IH]; simpl in *; [discriminate|].
  destruct (keqb k k0) eqn:Ek; simpl.
  - injection G as ->. rewrite E. reflexivity.
  - f_equal. apply IH, G.
Qed.

Lemma dict_set_Forall (P : V -> Prop) (k : K) (v' : V) (d : dict K V) :
  Forall (fun p => P (snd p)) d -> P v' ->
  Forall (fun p => P (snd p)) (dict_set k v' d).
Proof.
  intros F Hv. induction F as [|[k0 v0] d H0 F IH]; simpl.
  - constructor; [assumption | constructor].
  - destruct (keqb k k0); constructor; assumption.
Qed.

Lemma dict_set_qsum (f : V -> Qc) (k : K) (v v' : V) (d : dict K V) :
  dict_get k d = Some v ->
  qsum (map f (dict_values (dict_set k v' d)))
  = (qsum (map f (dict_values d)) + (f v' - f v))%Qc.
Proof.
  intros G. induction d as [|[k0 v0] d IH]; simpl in *; [discriminate|].
  destruct (keqb k k0) eqn:Ek; simpl.
  - injection G as ->. ring.
  - rewrite (IH G). ring.
Qed.
End DictUpdate.

(** ** Element-wise arithmetic *)

Lemma map2_length {A B C : Type} (f : A -> B -> C) (a : list A) (b : list B) :
  length a = length b -> length (map2 f a b) = length a.
Proof.
  revert b. induction a as [|x a IH]; destruct b; simpl; intros E;
    try discriminate; auto.
Qed.

Lemma nth_map2 (f : Qc -> Qc -> Qc) (a b : list Qc) (k : nat) :
  length a = length b -> f 0%Qc 0%Qc = 0%Qc ->
  nth k (map2 f a b) 0%Qc = f (nth k a 0%Qc) (nth k b 0%Qc).
Proof.
  intros E Z0. revert b k E.
  induction a as [|x a IH]; destruct b; simpl; intros k E; try discriminate.
  - destruct k; auto.
  - destruct k; auto.
Qed.

Lemma shape_eqb_refl (sh : list nat) : shape_eqb sh sh = true.
Proof. unfold shape_eqb. destruct (list_eq_dec Nat.eq_dec sh sh); congruence. Qed.

Lemma shape_eqb_true (s1 s2 : list nat) : shape_eqb s1 s2 = true -> s1 = s2.
Proof. unfold shape_eqb. destruct (list_eq_dec Nat.eq_dec s1 s2); congruence. Qed.

Lemma tensor_zip_same_shape (f : Qc -> Qc -> Qc) (a b : tensor) :
  shape a = shape b ->
  tensor_zip f a b = Ok {| shape := shape a; data := map2 f (data a) (data b) |}.
Proof. intros E. unfold tensor_zip. rewrite E, shape_eqb_refl. reflexivity. Qed.

(** ** Slots of a cohort's gradients *)

Lemma skeleton_keys (cg : clients_grads) :
  map fst (skeleton cg) = dict_keys cg.
Proof. unfold skeleton, dict_keys. rewrite map_map. reflexivity. Qed.

Lemma gd_shape_lookup (name : string) (gd gd' : grads_dict) :
  map (fun q => (fst q, shape (snd q))) gd
  = map (fun q => (fst q, shape (snd q))) gd' ->
  option_map shape (dict_get name gd) = option_map shape (dict_get name gd').
Proof.
  revert gd'. induction gd as [|[n t] gd IH]; destruct gd' as [|[n' t'] gd'];
    simpl; intros E; try discriminate; [reflexivity|].
  injection E as -> Es Et. destruct (String.eqb name n'); simpl; auto.
  congruence.
Qed.

Lemma slot_shape_skeleton (uid : nat) (name : string) (cg cg' : clients_grads) :
  skeleton cg = skeleton cg' ->
  slot_shape uid name cg = slot_shape uid name cg'.
Proof.
  unfold slot_shape. revert cg'.
  induction cg as [|[u gd] cg IH]; destruct cg' as [|[u' gd'] cg'];
    simpl; intros E; try discriminate; [reflexivity|].
  injection E as -> Eg Er. destruct (Nat.eqb uid u').
  - apply gd_shape_lookup, Eg.
  - apply IH, Er.
Qed.

Lemma slot_shape_get (uid : nat) (name : string) (sh : list nat)
  (cg : clients_grads) :
  slot_shape uid name cg = Some sh ->
  exists gd t, dict_get uid cg = Some gd /\ dict_get name gd = Some t
               /\ shape t = sh /\ slot_get uid name cg = Ok t.
Proof.
  unfold slot_shape, slot_get. destruct (dict_get uid cg) as [gd|]; [|discriminate].
  destruct (dict_get name gd) as [t|] eqn:G; simpl; [|discriminate].
  intros [= <-]. exists gd, t. rewrite G. auto.
Qed.

Lemma all_wf_slot (uid : nat) (name : string) (gd : grads_dict) (t : tensor)
  (cg : clients_grads) :
  all_wf cg -> dict_get uid cg = Some gd -> dict_get name gd = Some t ->
  wf_tensor t.
Proof.
  intros W G1 G2. apply dict_get_some_in in G1, G2.
  unfold all_wf in W. rewrite Forall_forall in W.
  specialize (W _ G1). simpl in W. rewrite Forall_forall in W.
  apply (W _ G2).
Qed.

Section SlotSet.
Variables (uid : nat) (name : string) (gd : grads_dict) (t t' : tensor)
          (cg : clients_grads).
Hypothesis Huser : dict_get uid cg = Some gd.
Hypothesis Hname : dict_get name gd = Some t.

Lemma slot_set_skeleton :
  shape t' = shape t -> skeleton (slot_set uid name t' cg) = skeleton cg.
Proof.
  intros E. unfold slot_set, skeleton. rewrite Huser.
  apply dict_set_map_snd with (v := gd); [exact Huser|].
  apply dict_set_map_snd with (v := t); assumption.
Qed.

Lemma slot_set_wf :
  all_wf cg -> wf_tensor t' -> all_wf (slot_set uid name t' cg).
Proof.
  intros W Wt. unfold slot_set. rewrite Huser.
  apply dict_set_Forall
    with (P := fun gd0 : grads_dict => Forall (fun q => wf_tensor (snd q)) gd0);
    [exact W|].
  apply dict_set_Forall with (P := wf_tensor); [|exact Wt].
  pose proof (dict_get_some_in _ _ _ Huser) as I. unfold all_wf in W.
  rewrite Forall_forall in W. apply (W _ I).
Qed.

Lemma slot_set_sum (n : string) (k : nat) :
  cohort_sum n k (slot_set uid name t' cg)
  = (cohort_sum n k cg
     + (if String.eqb n name
        then nth k (data t') 0 - nth k (data t) 0 else 0))%Qc.
Proof.
  unfold cohort_sum, slot_set. rewrite Huser.
  rewrite dict_set_qsum with (v := gd) by exact Huser. f_equal.
  unfold coord. destruct (String.eqb n name) eqn:E.
  - apply String.eqb_eq in E. subst n.
    rewrite dict_get_set_same with (v0 := t) by exact Hname.
    rewrite Hname. reflexivity.
  - rewrite dict_get_set_other.
    + destruct (dict_get n gd); ring.
    + intros ->. rewrite String.eqb_refl in E. discriminate.
Qed.
End SlotSet.

(** ** Share conservation of the pairwise masking *)

Section ShareConservation.
Variable RNG : Type.
Variable randn : RNG -> nat -> list Qc * RNG.
Hypothesis randn_length : forall g n, length (fst (randn g n)) = n.
Variable get_size : sized -> Qc.
Variable cg0 : clients_grads.
Hypothesis Huniform : uniform cg0.

Lemma share_step_conserved (uid suid : nat) (name : string) (sh : list nat)
  (st : Clients.mpc_state RNG) :
  In uid (dict_keys cg0) -> In suid (dict_keys cg0) ->
  slot_shape uid name cg0 = Some sh ->
  conserved cg0 st ->
  exists st', Clients.share_step randn get_size uid suid name st = Ok st'
              /\ conserved cg0 st'.
Proof.
  intros Iu Is Hsh (Hsk & Hwf & Hsum).
  assert (Hcur : slot_shape uid name (Clients.store st) = Some sh)
    by (rewrite (slot_shape_skeleton uid name _ _ Hsk); exact Hsh).
  destruct (slot_shape_get _ _ _ _ Hcur) as (gd & grads & Gu & Gn & Eg & Eget).
  assert (Wg : wf_tensor grads) by (eapply all_wf_slot; eassumption).
  unfold Clients.share_step. rewrite Eget. cbn [bind].
  unfold Clients.randn_like.
  pose proof (randn_length (Clients.gen st) (numel (shape grads))) as Lx.
  destruct (randn (Clients.gen st) (numel (shape grads))) as [xs g'].
  simpl in Lx.
  set (share := {| shape := shape grads; data := xs |}).
  unfold tensor_isub. rewrite tensor_zip_same_shape by reflexivity.
  cbn [bind].
  set (grads' := {| shape := shape grads;
                    data := map2 Qcminus (data grads) (data share) |}).
  assert (Lgs : length (data grads) = length (data share))
    by (simpl; rewrite Lx; exact Wg).
  set (cg1 := slot_set uid name grads' (Clients.store st)).
  assert (Sk1 : skeleton cg1 = skeleton (Clients.store st))
    by (apply slot_set_skeleton with (gd := gd) (t := grads); auto).
  assert (W1 : all_wf cg1).
  { apply slot_set_wf with (gd := gd); auto.
    unfold wf_tensor, grads'. simpl. rewrite map2_length; auto. }
  assert (Hs1 : slot_shape suid name cg1 = Some sh).
  { rewrite (slot_shape_skeleton suid name _ _ Sk1), (slot_shape_skeleton suid name _ _ Hsk).
    eapply Huniform; [exact Iu | exact Is | exact Hsh]. }
  destruct (slot_shape_get _ _ _ _ Hs1) as (gd2 & target & Gu2 & Gn2 & Et & Eget2).
  assert (Wt : wf_tensor target) by (eapply all_wf_slot; eassumption).
  rewrite Eget2. cbn [bind].
  assert (Ets : shape target = shape share) by (simpl; congruence).
  unfold tensor_iadd. rewrite tensor_zip_same_shape by exact Ets.
  cbn [bind].
  assert (Lts : length (data target) = length (data share)).
  { simpl. rewrite Lx. unfold wf_tensor in Wt. congruence. }
  eexists. split; [reflexivity|].
  unfold conserved. simpl Clients.store. repeat split.
  - rewrite slot_set_skeleton with (gd := gd2) (t := target); auto.
    congruence.
  - apply slot_set_wf with (gd := gd2); auto.
    unfold wf_tensor. simpl. rewrite map2_length; auto.
  - intros n k.
    rewrite slot_set_sum with (gd := gd2) (t := target) by assumption.
    fold cg1. unfold cg1 at 1.
    rewrite slot_set_sum with (gd := gd) (t := grads) by assumption.
    rewrite <- Hsum. destruct (String.eqb n name); [|ring].
    simpl data. rewrite !nth_map2 by (auto; reflexivity). ring.
Qed.
Lemma conserved_keys (st : Clients.mpc_state RNG) :
  conserved cg0 st -> dict_keys (Clients.store st) = dict_keys cg0.
Proof.
  intros (Hsk & _ & _). rewrite <- !skeleton_keys. congruence.
Qed.

Lemma send_to_conserved (uid suid : nat) (st : Clients.mpc_state RNG) :
  In uid (dict_keys cg0) -> In suid (dict_keys cg0) ->
  conserved cg0 st ->
  exists st', Clients.send_to randn get_size uid suid st = Ok st'
              /\ conserved cg0 st'.
Proof.
  intros Iu Is C. pose proof (conserved_keys st C) as Ek.
  destruct (dict_get_in suid (Clients.store st)) as [gs Gs];
    [rewrite Ek; exact Is|].
  destruct (dict_get_in uid (Clients.store st)) as [gd Gu];
    [rewrite Ek; exact Iu|].
  unfold Clients.send_to. rewrite Gs, Gu. cbn [of_option bind].
  apply foldM_invariant
    with (Q := fun name => exists sh, slot_shape uid name cg0 = Some sh);
    [| |exact C].
  - intros name s (sh & Hsh) Cs.
    apply share_step_conserved with (sh := sh); assumption.
  - apply Forall_forall. intros name I.
    destruct (dict_get_in name gd I) as [t Gt]. exists (shape t).
    destruct C as (Hsk & _ & _).
    rewrite <- (slot_shape_skeleton uid name _ _ Hsk).
    unfold slot_shape. rewrite Gu, Gt. reflexivity.
Qed.

Lemma take_ids_ok (uids : list nat) (idx : list (list nat)) :
  Forall (Forall (fun j => j < length uids)) idx ->
  exists cts, Clients.take_ids uids idx = Ok cts
              /\ length cts = length idx
              /\ Forall (Forall (fun u => In u uids)) cts.
Proof.
  intros F. unfold Clients.take_ids.
  destruct (mapM_Forall2
              (fun (_ : list nat) ids => Forall (fun u => In u uids) ids)
              (mapM (fun j => of_option IndexError (nth_error uids j)))
              idx) as (cts & E & F2).
  - apply Forall_forall. intros row Irow.
    rewrite Forall_forall in F. specialize (F row Irow).
    destruct (mapM_Forall2 (fun (_ : nat) u => In u uids)
                (fun j => of_option IndexError (nth_error uids j)) row)
      as (ids & Ei & Fi).
    + apply Forall_forall. intros j Ij. rewrite Forall_forall in F.
      specialize (F j Ij). destruct (nth_error uids j) as [u|] eqn:N.
      * exists u. split; [reflexivity|]. eapply nth_error_In, N.
      * apply nth_error_None in N. lia.
    + exists ids. split; [exact Ei|].
      clear -Fi. induction Fi; constructor; assumption.
  - exists cts. split; [exact E|]. split.
    + symmetry. eapply Forall2_length, F2.
    + clear -F2. induction F2; constructor; assumption.
Qed.

Lemma MPC_exchange_conserved (clients_idx : list (list nat)) (g : RNG) :
  all_wf cg0 ->
  closed_exchange (length (dict_keys cg0)) clients_idx ->
  exists cg' c g',
    Clients.MPC_exchange randn get_size clients_idx g cg0 = Ok (cg', c, g')
    /\ skeleton cg' = skeleton cg0
    /\ forall name k, cohort_sum name k cg' = cohort_sum name k cg0.
Proof.
  intros W [Len In_range]. unfold Clients.MPC_exchange.
  destruct (take_ids_ok (dict_keys cg0) clients_idx In_range) as (cts & -> & Lc & Fc).
  cbn [bind].
  destruct (foldM_invariant (conserved cg0)
              (fun p : nat * nat =>
                 fst p < length cts /\ In (snd p) (dict_keys cg0))
              (fun '(i, uid) st =>
                 row <- of_option IndexError (nth_error cts i) ;;
                 foldM (Clients.send_to randn get_size uid) row st)
              (combine (seq 0 (length (dict_keys cg0))) (dict_keys cg0)))
    with (s := {| Clients.store := cg0; Clients.gen := g;
                  Clients.cost := 0%Qc |})
    as (st & -> & Hsk & _ & Hsum).
  - intros [i uid] s [Hi Hu] C. simpl in Hi, Hu.
    destruct (nth_error cts i) as [row|] eqn:N;
      [|apply nth_error_None in N; lia].
    cbn [of_option bind].
    apply foldM_invariant with (Q := fun suid => In suid (dict_keys cg0));
      [| |exact C].
    + intros suid s' Hs C'. apply send_to_conserved; assumption.
    + rewrite Forall_forall in Fc. apply Fc. eapply nth_error_In, N.
  - apply Forall_forall. intros [i uid] I. simpl. split.
    + apply in_combine_l, in_seq in I. lia.
    + eapply in_combine_r, I.
  - repeat split. exact W.
  - cbn [bind]. do 3 eexists. split; [reflexivity|]. split; assumption.
Qed.
End ShareConservation.

(** C1. Share conservation: when every user's gradient dictionary has the
    same parameter names and tensor shapes and the sampled neighbour
    assignment is a closed exchange within the cohort, [MPC_perturb]
    returns, keeps every name and shape, and leaves, for each parameter
    name and each entry of that parameter, the exact sum over all users of
    the cohort unchanged.  This holds for every fan-out [xi], in particular
    for [xi >= 1]. *)
Theorem MPC_perturb_share_conservation
  (RNG : Type) (randn : RNG -> nat -> list Qc * RNG)
  (get_size : sized -> Qc)
  (sample_neighbor : RNG -> nat -> nat -> result (list (list nat)) * RNG)
  (xi : nat) (g g1 : RNG) (cg : clients_grads) (clients_idx : list (list nat)) :
  (forall g n, length (fst (randn g n)) = n) ->
  uniform cg ->
  all_wf cg ->
  sample_neighbor g (length (dict_keys cg)) xi = (Ok clients_idx, g1) ->
  closed_exchange (length (dict_keys cg)) clients_idx ->
  exists cg' c g',
    Clients.MPC_perturb randn get_size sample_neighbor xi g cg = Ok (cg', c, g')
    /\ skeleton cg' = skeleton cg
    /\ forall name k, cohort_sum name k cg' = cohort_sum name k cg.
Proof.
  intros Hlen Hu Hw Hs Hc. unfold Clients.MPC_perturb. rewrite Hs.
  cbn [bind]. apply MPC_exchange_conserved; assumption.
Qed.

Lemma fixture_randn_length (g n : nat) : length (fst (Fixture.randn g n)) = n.
Proof. unfold Fixture.randn. simpl. rewrite length_map, length_seq. reflexivity. Qed.

Lemma fixture_cohort2_uniform : uniform Fixture.cohort2.
Proof.
  intros u v name sh Iu Iv. simpl in Iu, Iv.
  destruct Iu as [<- | [<- | []]]; destruct Iv as [<- | [<- | []]];
    unfold slot_shape; simpl;
    destruct (String.eqb name "w"); simpl; auto;
    destruct (String.eqb name "b"); simpl; auto.
Qed.

Lemma fixture_cohort2_wf : all_wf Fixture.cohort2.
Proof. repeat constructor. Qed.

Lemma MPC_perturb_share_conservation_witness :
  exists cg' c g',
    Clients.MPC_perturb Fixture.randn Fixture.get_size Fixture.swap_neighbor
      1 0 Fixture.cohort2 = Ok (cg', c, g')
    /\ skeleton cg' = skeleton Fixture.cohort2
    /\ forall name k, cohort_sum name k cg' = cohort_sum name k Fixture.cohort2.
Proof.
  apply (MPC_perturb_share_conservation nat Fixture.randn Fixture.get_size
           Fixture.swap_neighbor 1 0 0 Fixture.cohort2 [[1]; [0]]).
  - exact fixture_randn_length.
  - exact fixture_cohort2_uniform.
  - exact fixture_cohort2_wf.
  - reflexivity.
  - split; [reflexivity|]. repeat constructor.
Defined.

(** ** Mean aggregation *)

Lemma foldM_concat {A S : Type} (f : A -> S -> result S) (ls : list (list A)) :
  forall s, foldM (fun l s => foldM f l s) ls s = foldM f (concat ls) s.
Proof.
  induction ls as [|l ls IH]; intros s; simpl; [reflexivity|].
  revert s. induction l as [|a l IHl]; intros s; simpl.
  - apply IH.
  - destruct (f a s) as [s1|e]; simpl; [apply IHl | reflexivity].
Qed.

Lemma qsum_app (a b : list Qc) : qsum (a ++ b) = (qsum a + qsum b)%Qc.
Proof. induction a as [|x a IH]; simpl; [ring | rewrite IH; ring]. Qed.

Lemma partial_sum_snoc (n : Qc) (name : string) (k : nat)
  (done : list (string * tensor)) (q : string * tensor) :
  partial_sum n name k (done ++ [q])
  = (partial_sum n name k done
     + (if String.eqb name (fst q) then nth k (data (snd q)) 0 / n else 0))%Qc.
Proof. unfold partial_sum. rewrite map_app, qsum_app. simpl. ring. Qed.

Lemma partial_sum_absent (n : Qc) (name : string) (k : nat)
  (done : list (string * tensor)) :
  (forall q, In q done -> fst q <> name) -> partial_sum n name k done = 0%Qc.
Proof.
  unfold partial_sum. induction done as [|q done IH]; simpl; intros A;
    [reflexivity|].
  rewrite IH by auto. destruct (String.eqb name (fst q)) eqn:E; [|ring].
  apply String.eqb_eq in E. exfalso. apply (A q); auto.
Qed.

Lemma nth_map_Qc (f : Qc -> Qc) (l : list Qc) (k : nat) :
  f 0%Qc = 0%Qc -> nth k (map f l) 0%Qc = f (nth k l 0%Qc).
Proof.
  intros Z0. revert k. induction l as [|x l IH]; destruct k; simpl; auto.
Qed.

Section Accumulate.
Variable shp : string -> list nat.
Variable clients_num : nat.

Lemma add_term_accumulated (done : list (string * tensor))
  (q : string * tensor) (agg : dict string tensor) :
  wf_tensor (snd q) -> shape (snd q) = shp (fst q) ->
  accumulated shp (Qc_of_nat clients_num) done agg ->
  exists agg', Server.add_term clients_num q agg = Ok agg'
               /\ accumulated shp (Qc_of_nat clients_num) (done ++ [q]) agg'.
Proof.
  destruct q as [name g]. simpl. intros Wg Sg Acc.
  unfold Server.add_term. pose proof (Acc name) as An.
  destruct (dict_get name agg) as [acc|] eqn:G.
  - destruct An as (Wa & Sa & Va).
    unfold tensor_iadd. rewrite tensor_zip_same_shape by (simpl; congruence).
    cbn [bind]. eexists. split; [reflexivity|].
    intros name'. destruct (String.eqb name' name) eqn:E.
    + apply String.eqb_eq in E. subst name'.
      rewrite dict_get_set_same with (v0 := acc) by exact G.
      assert (L : length (data acc)
                  = length (map (fun x => (x / Qc_of_nat clients_num)%Qc) (data g)))
        by (rewrite length_map; unfold wf_tensor in *; congruence).
      split; [|split].
      * unfold wf_tensor. simpl. rewrite map2_length; auto.
      * exact Sa.
      * intros k. simpl data. rewrite nth_map2 by (auto; reflexivity).
        rewrite partial_sum_snoc. simpl fst. simpl snd.
        rewrite String.eqb_refl, Va.
        rewrite nth_map_Qc by (unfold Qcdiv; ring). reflexivity.
    + assert (N : name' <> name)
        by (intros ->; rewrite String.eqb_refl in E; discriminate).
      rewrite dict_get_set_other by exact N.
      pose proof (Acc name') as A'.
      destruct (dict_get name' agg) as [a|].
      * destruct A' as (Wa' & Sa' & Va'). repeat split; auto.
        intros k. rewrite partial_sum_snoc. simpl fst. rewrite E, Va'. ring.
      * intros q Iq. apply in_app_or in Iq. destruct Iq as [Iq | [<- | []]];
          [auto | simpl; congruence].
  - eexists. split; [reflexivity|].
    intros name'. destruct (String.eqb name' name) eqn:E.
    + apply String.eqb_eq in E. subst name'.
      assert (Gs : dict_get name
                     (dict_set name
                        (scalar_add_tensor 0 (tensor_div_scalar g (Qc_of_nat clients_num)))
                        agg)
                   = Some (scalar_add_tensor 0
                             (tensor_div_scalar g (Qc_of_nat clients_num)))).
      { clear -G. induction agg as [|[k0 v0] agg IH]; simpl in *.
        - rewrite String.eqb_refl. reflexivity.
        - destruct (String.eqb name k0) eqn:E0; [discriminate|].
          simpl. rewrite E0. auto. }
      rewrite Gs. split; [|split].
      * unfold wf_tensor. simpl. rewrite !length_map. exact Wg.
      * simpl. exact Sg.
      * intros k. simpl data. rewrite partial_sum_snoc. simpl fst. simpl snd.
        rewrite String.eqb_refl, partial_sum_absent by exact An.
        rewrite !nth_map_Qc by (unfold Qcdiv; ring). reflexivity.
    + assert (N : name' <> name)
        by (intros ->; rewrite String.eqb_refl in E; discriminate).
      rewrite dict_get_set_other by exact N.
      pose proof (Acc name') as A'.
      destruct (dict_get name' agg) as [a|].
      * destruct A' as (Wa' & Sa' & Va'). repeat split; auto.
        intros k. rewrite partial_sum_snoc. simpl fst. rewrite E, Va'. ring.
      * intros q Iq. apply in_app_or in Iq. destruct Iq as [Iq | [<- | []]];
          [auto | simpl; congruence].
Qed.

Lemma add_terms_accumulated (es : list (string * tensor)) :
  Forall (fun q => wf_tensor (snd q) /\ shape (snd q) = shp (fst q)) es ->
  forall done agg,
    accumulated shp (Qc_of_nat clients_num) done agg ->
    exists agg', foldM (Server.add_term clients_num) es agg = Ok agg'
                 /\ accumulated shp (Qc_of_nat clients_num) (done ++ es) agg'.
Proof.
  induction 1 as [|q es [Wq Sq] _ IH]; intros done agg Acc.
  - exists agg. rewrite app_nil_r. split; [reflexivity | exact Acc].
  - destruct (add_term_accumulated done q agg Wq Sq Acc) as (agg1 & E1 & A1).
    destruct (IH _ _ A1) as (agg2 & E2 & A2).
    exists agg2. simpl. rewrite E1. cbn [bind]. split; [exact E2|].
    rewrite <- app_assoc in A2. exact A2.
Qed.
End Accumulate.

Lemma partial_sum_dict (n : Qc) (name : string) (k : nat) (gd : grads_dict) :
  NoDup (dict_keys gd) ->
  partial_sum n name k gd = (coord name k gd / n)%Qc.
Proof.
  unfold coord. induction gd as [|[k0 t0] gd IH]; simpl; intros ND.
  - unfold partial_sum, Qcdiv. simpl. ring.
  - inversion ND as [|? ? Notin ND']; subst.
    change (partial_sum n name k ((k0, t0) :: gd))
      with ((if String.eqb name k0 then nth k (data t0) 0 / n else 0)
            + partial_sum n name k gd)%Qc.
    destruct (String.eqb name k0) eqn:E.
    + apply String.eqb_eq in E. subst k0.
      rewrite partial_sum_absent; [ring|].
      intros q Iq Eq. apply Notin. rewrite <- Eq. apply in_map, Iq.
    + rewrite (IH ND'). ring.
Qed.

Lemma partial_sum_concat (n : Qc) (name : string) (k : nat)
  (vals : list grads_dict) :
  partial_sum n name k (concat vals)
  = qsum (map (partial_sum n name k) vals).
Proof.
  induction vals as [|gd vals IH]; simpl; [reflexivity|].
  unfold partial_sum at 1. rewrite map_app, qsum_app.
  fold (partial_sum n name k gd). fold (partial_sum n name k (concat vals)).
  rewrite IH. reflexivity.
Qed.

Lemma partial_sum_cohort (n : Qc) (name : string) (k : nat)
  (cg : clients_grads) :
  (forall uid gd, In (uid, gd) cg -> NoDup (dict_keys gd)) ->
  partial_sum n name k (concat (dict_values cg))
  = (cohort_sum name k cg / n)%Qc.
Proof.
  intros ND. rewrite partial_sum_concat. unfold cohort_sum.
  induction cg as [|[uid gd] cg IH]; simpl.
  - unfold Qcdiv. ring.
  - rewrite IH by (intros u g I; apply (ND u g); right; exact I).
    rewrite (partial_sum_dict n name k gd)
      by (apply (ND uid gd); left; reflexivity).
    unfold Qcdiv. ring.
Qed.

Lemma accumulate_mean (shp : string -> list nat) (cg : clients_grads) :
  conforms shp cg ->
  exists agg,
    Server.accumulate (length cg) cg = Ok agg
    /\ accumulated shp (Qc_of_nat (length cg)) (concat (dict_values cg)) agg.
Proof.
  intros C. unfold Server.accumulate. rewrite foldM_concat.
  apply (add_terms_accumulated shp (length cg) (concat (dict_values cg)))
    with (done := []).
  - apply Forall_forall. intros [name t] I. apply in_concat in I.
    destruct I as (gd & Igd & It). unfold dict_values in Igd.
    apply in_map_iff in Igd. destruct Igd as ([uid gd'] & <- & Icg).
    destruct (C uid gd' Icg) as [ND Sh]. simpl in It. simpl. apply Sh.
    clear -ND It. induction gd' as [|[k0 v0] gd' IH]; simpl in *; [contradiction|].
    inversion ND as [|? ? Notin ND']; subst.
    destruct It as [E | It].
    + injection E as -> ->. rewrite String.eqb_refl. reflexivity.
    + destruct (String.eqb name k0) eqn:E0; [|auto].
      apply String.eqb_eq in E0. subst k0. exfalso. apply Notin.
      change name with (fst (name, t)). apply in_map, It.
  - intros name. simpl. intros q [].
Qed.

(** C2. For a non-empty cohort whose gradient tensors conform to the
    shapes of the model's parameters and in which every user supplies a
    gradient for every parameter that requires one, [aggregate_gradients]
    returns, and each such parameter's accumulator becomes its previous
    content (zero when it was absent) plus the arithmetic mean of the
    users' gradients, entry by entry; the other parameters are returned
    unchanged. *)
Theorem aggregate_gradients_mean
  (shp : string -> list nat) (model : list Server.param) (cg : clients_grads) :
  cg <> [] ->
  conforms shp cg ->
  (forall p, In p model -> Server.requires_grad p = true ->
     shape (Server.pdata p) = shp (Server.pname p)
     /\ (forall g, Server.grad p = Some g ->
                   wf_tensor g /\ shape g = shp (Server.pname p))
     /\ forall uid gd, In (uid, gd) cg ->
          exists t, dict_get (Server.pname p) gd = Some t) ->
  exists model',
    Server.aggregate_gradients model cg = Ok model'
    /\ Forall2 (aggregated cg) model model'.
Proof.
  intros NE C HP. unfold Server.aggregate_gradients.
  destruct (accumulate_mean shp cg C) as (agg & -> & Acc). cbn [bind].
  apply mapM_Forall2. apply Forall_forall. intros p Ip.
  unfold Server.apply_aggregate, aggregated.
  destruct (Server.requires_grad p) eqn:RG; simpl negb; cbv iota.
  2:{ exists p. rewrite RG. auto. }
  destruct (HP p Ip RG) as (Sp & Hg & Hsup).
  pose proof (Acc (Server.pname p)) as A.
  destruct (dict_get (Server.pname p) agg) as [a|].
  - destruct A as (Wa & Sa & Va).
    assert (Mean : forall k, nth k (data a) 0%Qc
                             = mean_coord (Server.pname p) k cg).
    { intros k. rewrite Va. apply partial_sum_cohort.
      intros uid gd I. apply (C uid gd I). }
    destruct (Server.grad p) as [g|] eqn:G.
    + destruct (Hg g eq_refl) as [Wg Sg].
      unfold tensor_iadd. rewrite tensor_zip_same_shape by congruence.
      cbn [bind]. eexists. split; [reflexivity|]. simpl. rewrite RG.
      repeat split; auto.
      exists {| shape := shape g; data := map2 Qcplus (data g) (data a) |}.
      assert (L : length (data g) = length (data a))
        by (unfold wf_tensor in *; congruence).
      repeat split.
      * simpl. congruence.
      * unfold wf_tensor. simpl. rewrite map2_length; auto.
      * intros k. simpl data. rewrite nth_map2 by (auto; reflexivity).
        unfold grad_coord. rewrite G, Mean. reflexivity.
    + eexists. split; [reflexivity|]. simpl. rewrite RG.
      repeat split; auto. exists a. repeat split; auto; [congruence|].
      intros k. unfold grad_coord. rewrite G, Mean. ring.
  - exfalso. destruct cg as [|[uid gd] cg']; [contradiction|].
    destruct (Hsup uid gd (or_introl eq_refl)) as [t Gt].
    apply dict_get_some_in in Gt.
    apply (A (Server.pname p, t)); [|reflexivity].
    simpl. apply in_or_app. left. exact Gt.
Qed.

Lemma fixture_cohort2_conforms : conforms Fixture.shp Fixture.cohort2.
Proof.
  intros uid gd I. simpl in I.
  destruct I as [E | [E | []]]; injection E as <- <-; (split;
    [ repeat constructor; simpl; intuition discriminate
    | intros name t; simpl; unfold Fixture.shp;
      destruct (String.eqb name "w"); [intros [= <-]; split; reflexivity|];
      destruct (String.eqb name "b"); [intros [= <-]; split; reflexivity|];
      discriminate ]).
Qed.

Lemma aggregate_gradients_mean_witness :
  exists model',
    Server.aggregate_gradients Fixture.model3 Fixture.cohort2 = Ok model'
    /\ Forall2 (aggregated Fixture.cohort2) Fixture.model3 model'.
Proof.
  apply (aggregate_gradients_mean Fixture.shp Fixture.model3 Fixture.cohort2).
  - discriminate.
  - exact fixture_cohort2_conforms.
  - intros p Ip RG. simpl in Ip.
    destruct Ip as [<- | [<- | [<- | []]]]; simpl in RG; try discriminate;
      (split; [reflexivity|]; split;
       [ intros g; simpl; intros E; try discriminate;
         injection E as <-; split; reflexivity
       | intros uid gd I; simpl in I;
         destruct I as [E | [E | []]]; injection E as <- <-;
         simpl; eauto ]).
Defined.

(** ** Communication ledger *)

Lemma Qc_of_nat_nonzero (n : nat) :
  n <> 0 -> Qc_eq_bool (Qc_of_nat n) 0%Qc = false.
Proof.
  intros N. destruct (Qc_eq_bool (Qc_of_nat n) 0%Qc) eqn:E; [|reflexivity].
  apply Qc_eq_bool_correct in E. unfold Qc_of_nat in E.
  change 0%Qc with (Q2Qc (inject_Z 0)) in E.
  apply Q2Qc_eq_iff in E. unfold Qeq in E. simpl in E. lia.
Qed.

Lemma py_div_zero (a : Qc) : py_div a 0%Qc = Raise ZeroDivisionError.
Proof. reflexivity. Qed.

Lemma py_div_by_count (a : Qc) (n : nat) :
  n <> 0 -> py_div a (Qc_of_nat n) = Ok (a / Qc_of_nat n)%Qc.
Proof. intros N. unfold py_div. rewrite (Qc_of_nat_nonzero n N). reflexivity. Qed.

(** C10. With an empty ledger [get_mean_communications_cost] does not
    raise: it returns 0, the divisor being [max(0, 1) = 1] and not the
    length 0.  With a non-empty ledger it returns the sum of the entries
    divided by their number. *)
Theorem get_mean_communications_cost_spec (RNG : Type) (c : Clients.t RNG) :
  match Clients.communication_cost c with
  | [] => Clients.get_mean_communications_cost c = Ok 0%Qc
  | x :: l =>
      Clients.get_mean_communications_cost c
      = Ok (qsum (x :: l) / Qc_of_nat (length (x :: l)))%Qc
  end.
Proof.
  unfold Clients.get_mean_communications_cost.
  destruct (Clients.communication_cost c) as [|x l].
  - simpl Nat.max. rewrite py_div_by_count by discriminate. reflexivity.
  - rewrite Nat.max_l by (simpl; lia).
    apply py_div_by_count. discriminate.
Qed.

(** The guard [max(len, 1)] is what keeps the empty ledger from raising:
    the plain mean [sum(ledger) / len(ledger)] raises there. *)
Example mean_without_guard_raises :
  py_div (qsum []) (Qc_of_nat (length (@nil Qc))) = Raise ZeroDivisionError.
Proof. reflexivity. Qed.

Lemma update_last_snoc (f : Qc -> Qc) (l : list Qc) (x : Qc) :
  Clients.update_last f (l ++ [x]) = l ++ [f x].
Proof.
  induction l as [|y l IH]; simpl; [reflexivity|].
  rewrite IH. destruct (l ++ [x]) eqn:E; [|reflexivity].
  destruct l; discriminate.
Qed.

(** With compression disabled the upload cost is the full serialized size
    of the gradients sent: every tensor counts at fraction 1. *)
Lemma count_update_communication_cost_full (get_size : sized -> Qc)
  (n_items : nat) (protect : list string) (cg : clients_grads) :
  Clients.count_update_communication_cost get_size n_items protect cg
  = Ok (full_upload_cost get_size cg).
Proof.
  unfold Clients.count_update_communication_cost, full_upload_cost, sent_tensors.
  rewrite foldM_concat.
  assert (G : forall es c,
             foldM (Clients.add_upload get_size false n_items protect) es c
             = Ok (c + qsum (map (fun t => get_size (SizedTensor t))
                                 (map snd es)))%Qc).
  { induction es as [|[name t] es IH]; intros c; simpl.
    - f_equal. ring.
    - rewrite IH. f_equal. ring. }
  rewrite G. cbn [bind]. f_equal. f_equal. ring.
Qed.

Section ClientsTrain.
Variable RNG : Type.
Variable randn : RNG -> nat -> list Qc * RNG.
Variable get_size : sized -> Qc.
Variable sample_neighbor : RNG -> nat -> nat -> result (list (list nat)) * RNG.
Variable local_gradient : grads_dict -> nat -> Qc -> RNG -> grads_dict * RNG.
Variable cat_empty_error : pyerr.

(** On the MPC path a round that the perturbation completes appends
    (download + perturbation + upload) / cohort size to the ledger. *)
Lemma train_MPC_ledger (uids : list nat) (state : grads_dict) (dropout : Qc)
  (c : Clients.t RNG) (pg : clients_grads) (pcost : Qc) (g' : RNG) :
  Clients.method c = Clients.MPC ->
  uids <> [] ->
  Clients.MPC_perturb randn get_size sample_neighbor (Clients.xi c)
    (snd (Clients.collect_grads local_gradient state dropout uids [] (Clients.rng c)))
    (fst (Clients.collect_grads local_gradient state dropout uids [] (Clients.rng c)))
  = Ok (pg, pcost, g') ->
  exists c',
    Clients.train randn get_size sample_neighbor local_gradient
      cat_empty_error uids state dropout c = (c', Ok pg)
    /\ Clients.communication_cost c'
       = Clients.communication_cost c
         ++ [((download_cost get_size state (length uids) + pcost
               + full_upload_cost get_size pg)
              / Qc_of_nat (length uids))%Qc].
Proof.
  intros M NE P. unfold Clients.train.
  destruct uids as [|u us]; [contradiction|].
  destruct (Clients.collect_grads local_gradient state dropout (u :: us) []
              (Clients.rng c)) as [cg g] eqn:CG.
  simpl Clients.rng. rewrite CG. simpl in P.
  unfold Clients.perturb_fuc. simpl Clients.method. rewrite M.
  simpl Clients.xi. simpl Clients.rng. rewrite P.
  simpl Clients.communication_cost. simpl Clients.n_items.
  simpl Clients.protect_module_name.
  rewrite count_update_communication_cost_full.
  eexists. split; [reflexivity|]. simpl Clients.communication_cost.
  rewrite !update_last_snoc. reflexivity.
Qed.
End ClientsTrain.

(** C8, the path without perturbation.  The strategy is [lambda g: g], so
    unpacking its result into two names iterates the keys of the
    dictionary: with a cohort of one user the call raises [ValueError], and
    the entry appended to the ledger stays at the download cost, neither
    completed by the upload cost nor divided by the cohort size. *)
Theorem train_without_perturbation_raises :
  exists c',
    Clients.train Fixture.randn Fixture.get_size Fixture.swap_neighbor
      Fixture.local_gradient RuntimeError [7] Fixture.state1 0%Qc
      Fixture.plain_clients
    = (c', Raise ValueError)
    /\ Clients.communication_cost c'
       = [download_cost Fixture.get_size Fixture.state1 1].
Proof. eexists. split; reflexivity. Qed.

(** ** The restoration attack *)

Lemma nonzero_rows_lt (rows : list (list Qc)) :
  Forall (fun i => i < length rows) (Server.nonzero_rows rows).
Proof.
  apply Forall_forall. intros i I. unfold Server.nonzero_rows in I.
  apply in_map_iff in I. destruct I as ([j r] & <- & I).
  apply filter_In in I. destruct I as [I _].
  apply in_combine_l, in_seq in I. simpl. lia.
Qed.

Lemma select_In (mask : list bool) (idx : list nat) (i : nat) :
  In i (Server.select mask idx)
  <-> exists p, nth_error idx p = Some i /\ nth_error mask p = Some true.
Proof.
  unfold Server.select. revert idx.
  induction mask as [|b mask IH]; intros idx.
  - simpl. split; [contradiction|]. intros (p & _ & H). destruct p; discriminate.
  - destruct idx as [|j idx].
    + simpl. split; [contradiction|]. intros (p & H & _). destruct p; discriminate.
    + simpl. destruct b; simpl.
      * split.
        -- intros [<- | I]; [exists 0; auto|].
           apply IH in I. destruct I as (p & H1 & H2). exists (S p). auto.
        -- intros ([|p] & H1 & H2); simpl in *.
           ++ left. congruence.
           ++ right. apply IH. eauto.
      * split.
        -- intros I. apply IH in I. destruct I as (p & H1 & H2). exists (S p). auto.
        -- intros ([|p] & H1 & H2); simpl in *; [discriminate|].
           apply IH. eauto.
Qed.

Lemma select_cluster_true (labels : list bool) (rows : list (list Qc)) :
  Server.select labels rows = cluster_rows true labels rows.
Proof.
  unfold Server.select, cluster_rows. f_equal. apply filter_ext.
  intros [[] r]; reflexivity.
Qed.

Lemma select_cluster_false (labels : list bool) (rows : list (list Qc)) :
  Server.select (map negb labels) rows = cluster_rows false labels rows.
Proof.
  unfold Server.select, cluster_rows. revert rows.
  induction labels as [|b labels IH]; intros [|r rows]; simpl; auto.
  destruct b; simpl; rewrite IH; reflexivity.
Qed.

Lemma cluster_rows_length (labels : list bool) (rows : list (list Qc)) :
  length (cluster_rows true labels rows) + length (cluster_rows false labels rows)
  <= length rows.
Proof.
  unfold cluster_rows. revert rows.
  induction labels as [|b labels IH]; intros [|r rows]; simpl; try lia.
  specialize (IH rows). destruct b; simpl; lia.
Qed.

Lemma set_one_length (i : nat) (x : list Qc) :
  length (Server.set_one i x) = length x.
Proof.
  revert i. induction x as [|y x IH]; intros [|i]; simpl; auto.
Qed.

Lemma set_one_nth (i j : nat) (x : list Qc) :
  i < length x ->
  nth j (Server.set_one i x) 0%Qc = if Nat.eqb j i then 1%Qc else nth j x 0%Qc.
Proof.
  revert i j. induction x as [|y x IH]; intros i j L; simpl in L; [lia|].
  destruct i as [|i], j as [|j]; simpl; auto.
  apply IH. lia.
Qed.

Lemma scatter_ones_spec (idx : list nat) :
  forall x,
    Forall (fun i => i < length x) idx ->
    exists x', Server.scatter_ones idx x = Ok x'
               /\ length x' = length x
               /\ forall j, (In j idx -> nth j x' 0%Qc = 1%Qc)
                            /\ (~ In j idx -> nth j x' 0%Qc = nth j x 0%Qc).
Proof.
  unfold Server.scatter_ones.
  induction idx as [|i idx IH]; intros x F.
  - exists x. simpl. repeat split; auto. contradiction.
  - inversion F as [|? ? Hi F']; subst. simpl.
    destruct (Nat.ltb_spec i (length x)); [|lia]. cbn [bind].
    destruct (IH (Server.set_one i x)) as (x' & E & L & V).
    { rewrite set_one_length. exact F'. }
    exists x'. split; [exact E|]. split.
    { rewrite L. apply set_one_length. }
    intros j. destruct (V j) as [V1 V0]. split.
    + intros [-> | I]; [|auto].
      destruct (in_dec Nat.eq_dec j idx) as [I | NI]; [auto|].
      rewrite (V0 NI), set_one_nth by assumption.
      rewrite Nat.eqb_refl. reflexivity.
    + intros NI. rewrite V0 by tauto. rewrite set_one_nth by assumption.
      destruct (Nat.eqb_spec j i); [|reflexivity]. subst. tauto.
Qed.

Lemma nth_repeat_zero (n j : nat) : nth j (repeat 0%Qc n) 0%Qc = 0%Qc.
Proof. revert j. induction n; intros [|j]; simpl; auto. Qed.

Lemma np_mean_cons (l : list Qc) :
  l <> [] -> Server.np_mean l = Server.Fin (qsum l / Qc_of_nat (length l))%Qc.
Proof. destruct l; [contradiction | reflexivity]. Qed.

Lemma Qclt_bool_true (a b : Qc) : (a < b)%Qc -> Server.Qclt_bool a b = true.
Proof.
  intros L. unfold Server.Qclt_bool.
  destruct (Qle_bool b a) eqn:E; [|reflexivity].
  apply Qle_bool_iff in E. exfalso. apply (Qlt_not_le _ _ L E).
Qed.

Lemma Qclt_bool_false (a b : Qc) : (b < a)%Qc -> Server.Qclt_bool a b = false.
Proof.
  intros L. unfold Server.Qclt_bool.
  destruct (Qle_bool b a) eqn:E; [reflexivity|].
  assert (Qle b a) as H by (apply Qlt_le_weak; exact L).
  apply Qle_bool_iff in H. congruence.
Qed.

Lemma select_in_cluster (big : bool) (labels : list bool) (idx : list nat)
  (i : nat) :
  In i (Server.select (if big then labels else map (xorb true) labels) idx)
  <-> in_cluster big labels idx i.
Proof.
  rewrite select_In. unfold in_cluster. destruct big.
  - reflexivity.
  - split; intros (p & H1 & H2); exists p; split; auto.
    + rewrite nth_error_map in H2.
      destruct (nth_error labels p) as [[]|]; simpl in H2; congruence.
    + rewrite nth_error_map, H2. reflexivity.
Qed.

Lemma select_nonzero_lt (mask : list bool) (rows : list (list Qc)) :
  Forall (fun i => i < length rows)
         (Server.select mask (Server.nonzero_rows rows)).
Proof.
  apply Forall_forall. intros i I. apply select_In in I.
  destruct I as (p & H & _). apply nth_error_In in H.
  pose proof (nonzero_rows_lt rows) as F. rewrite Forall_forall in F. auto.
Qed.

(** The prediction from the decoder gradient alone.  When 2-means splits
    the selected rows into two non-empty clusters and the cluster labelled
    [big] has the strictly larger mean row norm, the vector built at lines
    199 to 210 is 1 exactly on the items of that cluster and 0 on every
    other item, whichever of the two labels [big] is. *)
Lemma decoder_prediction_larger_norm_cluster
  (kmeans_labels : nat -> list (list Qc) -> list bool)
  (l2norm : list Qc -> Qc) (srv : Server.t) (dec_grads : list (list Qc))
  (big : bool) :
  let idx := Server.nonzero_rows dec_grads in
  let nz := Server.take_rows idx dec_grads in
  let labels := kmeans_labels (Server.seed srv) nz in
  length dec_grads = Server.n_items srv ->
  length labels = length nz ->
  cluster_rows true labels nz <> [] ->
  cluster_rows false labels nz <> [] ->
  (mean_norm l2norm (cluster_rows (negb big) labels nz)
   < mean_norm l2norm (cluster_rows big labels nz))%Qc ->
  exists x_pred,
    Server.decoder_prediction kmeans_labels l2norm srv dec_grads = Ok x_pred
    /\ length x_pred = Server.n_items srv
    /\ forall i, i < Server.n_items srv ->
         (in_cluster big labels idx i /\ nth i x_pred 0%Qc = 1%Qc)
         \/ (~ in_cluster big labels idx i /\ nth i x_pred 0%Qc = 0%Qc).
Proof.
  intros idx nz labels HL Hlab NE1 NE0 Hbig.
  unfold Server.decoder_prediction, Server.fit_predict.
  fold idx. fold nz.
  assert (L2 : 2 <= length nz).
  { pose proof (cluster_rows_length labels nz).
    destruct (cluster_rows true labels nz); [contradiction|].
    destruct (cluster_rows false labels nz); [contradiction|].
    simpl in *. lia. }
  destruct (Nat.ltb_spec (length nz) 2); [lia|]. cbn [bind]. fold labels.
  unfold Server.g_norm.
  rewrite select_cluster_true, select_cluster_false.
  rewrite !np_mean_cons
    by (intros E; apply map_eq_nil in E; contradiction).
  rewrite !length_map. cbn [Server.np_lt].
  fold (mean_norm l2norm (cluster_rows true labels nz)).
  fold (mean_norm l2norm (cluster_rows false labels nz)).
  assert (Flip : Server.Qclt_bool (mean_norm l2norm (cluster_rows true labels nz))
                   (mean_norm l2norm (cluster_rows false labels nz))
                 = negb big).
  { destruct big; simpl in Hbig |- *.
    - apply Qclt_bool_false, Hbig.
    - apply Qclt_bool_true, Hbig. }
  rewrite Flip.
  assert (Sel : (if negb big then map (xorb true) labels else labels)
                = (if big then labels else map (xorb true) labels))
    by (destruct big; reflexivity).
  rewrite Sel.
  destruct (scatter_ones_spec
              (Server.select (if big then labels else map (xorb true) labels) idx)
              (repeat 0%Qc (Server.n_items srv)))
    as (x_pred & E & Lx & V).
  { rewrite repeat_length, <- HL. apply select_nonzero_lt. }
  exists x_pred. split; [exact E|]. split.
  { rewrite Lx. apply repeat_length. }
  intros i Hi. destruct (V i) as [V1 V0].
  destruct (in_dec Nat.eq_dec i
              (Server.select (if big then labels else map (xorb true) labels) idx))
    as [I | NI].
  - left. split; [apply select_in_cluster, I | auto].
  - right. split.
    + intros C. apply NI, select_in_cluster, C.
    + rewrite (V0 NI). apply nth_repeat_zero.
Qed.





(** When the encoder and decoder names coincide, [euc_grads] is [None] and
    its [shape] is read unguarded: the attack raises on the first user of
    any non-empty round. *)
Lemma restore_same_name_never_returns
  (kmeans_labels : nat -> list (list Qc) -> list bool)
  (l2norm : list Qc -> Qc) (srv : Server.t) (cg : clients_grads) :
  Server.enc_name srv = Server.dec_name srv -> cg <> [] ->
  exists e, Server.restore_from_gradient kmeans_labels l2norm srv cg = Raise e.
Proof.
  intros E NE. destruct cg as [|[uid gd] cg]; [contradiction|].
  unfold Server.restore_from_gradient. simpl mapM.
  unfold Server.restore_user. rewrite E, String.eqb_refl.
  destruct (dict_get (Server.dec_name srv) gd) as [d|]; simpl; [|eauto].
  destruct (Server.orient (Server.n_items srv) d); simpl; eauto.
Qed.

(** C3, evaluated: with the decoder name configured for both modules and a
    round of one user holding a 4 x 2 decoder gradient, the attack raises
    [AttributeError] (the [shape] of [None]) and produces no prediction,
    whatever the clustering and the norm are. *)
Theorem restore_same_name_raises
  (kmeans_labels : nat -> list (list Qc) -> list bool)
  (l2norm : list Qc -> Qc) :
  Server.restore_from_gradient kmeans_labels l2norm
    (Fixture.server4 "decoder.w" "decoder.w") Fixture.cohort_dec
  = Raise AttributeError.
Proof. reflexivity. Qed.

(** With distinct names and the refinement switched off, the prediction
    for a user is that of lines 199 to 210 on the oriented decoder
    gradient. *)
Lemma restore_user_decoder_only
  (kmeans_labels : nat -> list (list Qc) -> list bool)
  (l2norm : list Qc -> Qc) (srv : Server.t) (gd : grads_dict)
  (d e d' e' : tensor) (rows : list (list Qc)) :
  String.eqb (Server.enc_name srv) (Server.dec_name srv) = false ->
  Server.use_enc_grad srv = false ->
  dict_get (Server.dec_name srv) gd = Some d ->
  dict_get (Server.enc_name srv) gd = Some e ->
  Server.orient (Server.n_items srv) d = Ok d' ->
  Server.orient (Server.n_items srv) e = Ok e' ->
  Server.rows2 d' = Ok rows ->
  Server.restore_user kmeans_labels l2norm srv gd
  = Server.decoder_prediction kmeans_labels l2norm srv rows.
Proof.
  intros N U Gd Ge Od Oe R. unfold Server.restore_user.
  rewrite Gd, N, Ge. cbn [of_option bind]. rewrite Od. cbn [bind].
  rewrite Oe. cbn [bind]. rewrite R. cbn [bind].
  destruct (Server.decoder_prediction kmeans_labels l2norm srv rows);
    cbn [bind]; [|reflexivity].
  unfold Server.encoder_refinement. rewrite U. reflexivity.
Qed.

(** With distinct names the same round goes through the five steps. *)
Example restore_distinct_names :
  Server.restore_from_gradient Fixture.kmeans_large_is_0 Fixture.l2norm
    (Fixture.server4 "encoder.w" "decoder.w")
    [(7, [("decoder.w"%string, Fixture.mat 4 2 [0; 0; 3; 4; 0; 0; 1; 0]);
          ("encoder.w"%string, Fixture.mat 2 4 [0; 1; 0; 1; 0; 1; 0; 1])])]
  = Ok [(7, map Qc_of_nat [0; 1; 0; 0])].
Proof. reflexivity. Qed.

(** Without perturbation [Clients.train] raises for every cohort. *)
Lemma train_without_perturbation_never_returns
  (RNG : Type) (randn : RNG -> nat -> list Qc * RNG) (get_size : sized -> Qc)
  (sample_neighbor : RNG -> nat -> nat -> result (list (list nat)) * RNG)
  (local_gradient : grads_dict -> nat -> Qc -> RNG -> grads_dict * RNG)
  (cat_empty_error : pyerr)
  (uids : list nat) (state : grads_dict) (dropout : Qc) (c : Clients.t RNG) :
  Clients.method c = Clients.NoPerturb ->
  exists c' e,
    Clients.train randn get_size sample_neighbor local_gradient
      cat_empty_error uids state dropout c = (c', Raise e).
Proof.
  intros M. unfold Clients.train. destruct uids as [|u us]; [eauto|].
  destruct (Clients.collect_grads local_gradient state dropout (u :: us) [] _)
    as [cg g].
  unfold Clients.perturb_fuc. simpl Clients.method. rewrite M.
  destruct (dict_keys cg) as [|k1 [|k2 [|k3 ks]]]; eauto.
Qed.

(** ** Server.run: the restoration flag *)

Section Run.
Variable RNG : Type.
Variable shuffle : RNG -> list (list nat) * RNG.
Variable opts : list Server.optimizer.
Variable dropout_prob : Qc.

Lemma round_calls_no_restore (uids : list nat) :
  Forall (fun c => is_restore c = false) (round_calls opts dropout_prob uids).
Proof.
  unfold round_calls. rewrite !Forall_app. repeat split.
  - apply Forall_forall. intros c I. apply in_map_iff in I.
    destruct I as (o & <- & _). reflexivity.
  - repeat constructor.
  - apply Forall_forall. intros c I. apply in_map_iff in I.
    destruct I as (o & <- & _). reflexivity.
Qed.

Lemma run_batches_unflagged (batches : list (list nat)) :
  exists cs,
    Server.run_batches opts dropout_prob batches false = (cs, false)
    /\ Forall (fun c => is_restore c = false) cs.
Proof.
  induction batches as [|uids rest (cs & E & F)]; simpl.
  - exists []. split; [reflexivity | constructor].
  - rewrite E. eexists. split; [reflexivity|].
    apply Forall_app. split; [apply round_calls_no_restore | exact F].
Qed.

Lemma run_epochs_unflagged (n : nat) :
  forall g, exists cs g',
    Server.run_epochs shuffle opts n dropout_prob false g = (cs, false, g')
    /\ Forall (fun c => is_restore c = false) cs.
Proof.
  induction n as [|n IH]; intros g; simpl.
  - exists [], g. split; [reflexivity | constructor].
  - destruct (shuffle g) as [batches g1].
    destruct (run_batches_unflagged batches) as (cs & -> & F).
    destruct (IH g1) as (cs' & g' & -> & F').
    eexists. eexists. split; [reflexivity|].
    constructor; [reflexivity|]. apply Forall_app. split; assumption.
Qed.

Lemma run_batches_flagged (uids : list nat) (rest : list (list nat)) :
  exists post,
    Server.run_batches opts dropout_prob (uids :: rest) true
    = (round_calls opts dropout_prob uids
       ++ Server.RestoreFromGradient uids :: post, false)
    /\ Forall (fun c => is_restore c = false) post.
Proof.
  simpl. destruct (run_batches_unflagged rest) as (cs & -> & F).
  exists cs. split; [|exact F].
  unfold round_calls. rewrite <- !app_assoc. reflexivity.
Qed.

Lemma run_epochs_flagged (n : nat) :
  forall g c0 rest,
    cohorts_processed shuffle n g = c0 :: rest ->
    exists pre post g',
      Server.run_epochs shuffle opts n dropout_prob true g
      = (pre ++ round_calls opts dropout_prob c0
             ++ Server.RestoreFromGradient c0 :: post, false, g')
      /\ Forall (fun c => is_iter c = true) pre
      /\ Forall (fun c => is_restore c = false) post.
Proof.
  induction n as [|n IH]; intros g c0 rest; simpl; [discriminate|].
  destruct (shuffle g) as [batches g1]. destruct batches as [|uids more].
  - simpl. intros C. destruct (IH g1 c0 rest C) as (pre & post & g' & -> & Fp & Fq).
    exists (Server.IterLoader :: pre), post, g'.
    split; [reflexivity|]. split; [constructor; auto | exact Fq].
  - simpl app. intros [= -> _].
    destruct (run_batches_flagged c0 more) as (post & -> & Fq).
    destruct (run_epochs_unflagged n g1) as (cs' & g' & -> & F').
    exists [Server.IterLoader], (post ++ cs'), g'. split.
    + simpl. rewrite <- !app_assoc. reflexivity.
    + split; [repeat constructor|]. apply Forall_app. split; assumption.
Qed.
End Run.

Lemma filter_none {A : Type} (f : A -> bool) (l : list A) :
  Forall (fun a => f a = false) l -> filter f l = [].
Proof.
  induction 1 as [|a l E _ IH]; simpl; [reflexivity|]. rewrite E. exact IH.
Qed.

(** C5. A call of [run] with the flag set that processes at least one
    cohort performs the attack exactly once: on the first cohort [c0], right
    after that cohort's zero-grad, training, aggregation and optimizer
    steps; only loader traversals that yield no cohort come before, and no
    attack comes after.  A call without the flag never performs it. *)
Theorem run_restores_exactly_once
  (RNG : Type) (shuffle : RNG -> list (list nat) * RNG)
  (opts : list Server.optimizer) (n_epochs : nat) (dropout_prob : Qc) (g : RNG)
  (c0 : list nat) (rest : list (list nat)) :
  cohorts_processed shuffle n_epochs g = c0 :: rest ->
  (exists pre post,
     fst (Server.run shuffle opts n_epochs dropout_prob true g)
     = pre ++ round_calls opts dropout_prob c0
           ++ Server.RestoreFromGradient c0 :: post
     /\ Forall (fun c => is_iter c = true) pre
     /\ Forall (fun c => is_restore c = false) post)
  /\ filter is_restore (fst (Server.run shuffle opts n_epochs dropout_prob true g))
     = [Server.RestoreFromGradient c0]
  /\ filter is_restore (fst (Server.run shuffle opts n_epochs dropout_prob false g))
     = [].
Proof.
  intros C. unfold Server.run.
  destruct (run_epochs_flagged RNG shuffle opts dropout_prob n_epochs g c0 rest C)
    as (pre & post & g' & -> & Fp & Fq).
  destruct (run_epochs_unflagged RNG shuffle opts dropout_prob n_epochs g)
    as (cs & g'' & -> & F).
  simpl fst. split; [|split].
  - exists pre, post. auto.
  - rewrite !filter_app. simpl.
    rewrite (filter_none is_restore pre).
    + rewrite (filter_none is_restore _ (round_calls_no_restore opts dropout_prob c0)).
      rewrite (filter_none is_restore post Fq). reflexivity.
    + eapply Forall_impl; [|exact Fp]. intros [] E; simpl in *; congruence.
  - apply filter_none, F.
Qed.

Lemma run_restores_exactly_once_witness :
  (exists pre post,
     fst (Server.run Fixture.shuffle [Server.optimizer_decoder] 3 0%Qc true 0)
     = pre ++ round_calls [Server.optimizer_decoder] 0%Qc [1; 0]
           ++ Server.RestoreFromGradient [1; 0] :: post
     /\ Forall (fun c => is_iter c = true) pre
     /\ Forall (fun c => is_restore c = false) post)
  /\ filter is_restore
       (fst (Server.run Fixture.shuffle [Server.optimizer_decoder] 3 0%Qc true 0))
     = [Server.RestoreFromGradient [1; 0]]
  /\ filter is_restore
       (fst (Server.run Fixture.shuffle [Server.optimizer_decoder] 3 0%Qc false 0))
     = [].
Proof.
  apply (run_restores_exactly_once nat Fixture.shuffle [Server.optimizer_decoder]
           3 0%Qc 0 [1; 0] [[1]; [2; 0]; [1]]).
  reflexivity.
Defined.

(** ** Server.train: the alternating schedule *)

Section RunCalls.
Variable RNG : Type.
Variable shuffle : RNG -> list (list nat) * RNG.
Variable opts : list Server.optimizer.
Variable dropout_prob : Qc.
Variable P : Server.call -> Prop.
Hypothesis P_zero : forall o, In o opts -> P (Server.ZeroGrad o).
Hypothesis P_step : forall o, In o opts -> P (Server.OptStep o).
Hypothesis P_train : forall uids, P (Server.ClientsTrain uids dropout_prob).
Hypothesis P_aggregate : forall uids, P (Server.AggregateGradients uids).

Lemma round_calls_Forall (uids : list nat) :
  Forall P (round_calls opts dropout_prob uids).
Proof.
  unfold round_calls. rewrite !Forall_app. repeat split.
  - apply Forall_forall. intros c I. apply in_map_iff in I.
    destruct I as (o & <- & Io). auto.
  - repeat constructor; auto.
  - apply Forall_forall. intros c I. apply in_map_iff in I.
    destruct I as (o & <- & Io). auto.
Qed.

Lemma run_batches_Forall (batches : list (list nat)) :
  forall flag,
    (flag = true -> forall uids, P (Server.RestoreFromGradient uids)) ->
    Forall P (fst (Server.run_batches opts dropout_prob batches flag)).
Proof.
  induction batches as [|uids rest IH]; intros flag R; simpl; [constructor|].
  unfold Server.round. fold (round_calls opts dropout_prob uids).
  destruct flag.
  - specialize (IH false (fun E => ltac:(discriminate))).
    destruct (Server.run_batches opts dropout_prob rest false) as [cs f].
    simpl in *. rewrite !Forall_app. repeat split; auto.
    apply round_calls_Forall.
  - specialize (IH false R).
    destruct (Server.run_batches opts dropout_prob rest false) as [cs f].
    simpl in *. rewrite Forall_app. split; auto. apply round_calls_Forall.
Qed.

Lemma run_batches_no_iter (batches : list (list nat)) :
  forall flag,
    filter is_iter (fst (Server.run_batches opts dropout_prob batches flag)) = [].
Proof.
  induction batches as [|uids rest IH]; intros flag; simpl; [reflexivity|].
  assert (N : filter is_iter (round_calls opts dropout_prob uids) = []).
  { apply filter_none. unfold round_calls. rewrite !Forall_app. repeat split.
    - apply Forall_forall. intros c I. apply in_map_iff in I.
      destruct I as (o & <- & _). reflexivity.
    - repeat constructor.
    - apply Forall_forall. intros c I. apply in_map_iff in I.
      destruct I as (o & <- & _). reflexivity. }
  unfold Server.round. fold (round_calls opts dropout_prob uids).
  destruct flag.
  - specialize (IH false).
    destruct (Server.run_batches opts dropout_prob rest false) as [cs f].
    simpl in *. rewrite !filter_app, N, IH. reflexivity.
  - specialize (IH false).
    destruct (Server.run_batches opts dropout_prob rest false) as [cs f].
    simpl in *. rewrite !filter_app, N, IH. reflexivity.
Qed.

Hypothesis P_iter : P Server.IterLoader.

Lemma run_epochs_Forall (n : nat) :
  forall flag g,
    (flag = true -> forall uids, P (Server.RestoreFromGradient uids)) ->
    Forall P (fst (fst (Server.run_epochs shuffle opts n dropout_prob flag g)))
    /\ length (filter is_iter
                 (fst (fst (Server.run_epochs shuffle opts n dropout_prob flag g))))
       = n.
Proof.
  induction n as [|n IH]; intros flag g R; simpl.
  - split; [constructor | reflexivity].
  - destruct (shuffle g) as [batches g1].
    pose proof (run_batches_Forall batches flag R) as FB.
    pose proof (run_batches_no_iter batches flag) as NB.
    assert (R' : snd (Server.run_batches opts dropout_prob batches flag) = true ->
                 forall uids, P (Server.RestoreFromGradient uids)).
    { clear -R. revert flag R.
      induction batches as [|uids rest IHb]; intros flag R; simpl; [exact R|].
      unfold Server.round. destruct flag.
      - specialize (IHb false (fun E => ltac:(discriminate))).
        destruct (Server.run_batches opts dropout_prob rest false); exact IHb.
      - specialize (IHb false R).
        destruct (Server.run_batches opts dropout_prob rest false); exact IHb. }
    destruct (Server.run_batches opts dropout_prob batches flag) as [cs flag'].
    simpl in FB, NB, R'.
    destruct (IH flag' g1 R') as [F L].
    destruct (Server.run_epochs shuffle opts n dropout_prob flag' g1)
      as [[cs' f''] g'].
    simpl in *. split.
    + constructor; [exact P_iter|]. apply Forall_app. split; assumption.
    + rewrite filter_app, NB. simpl. rewrite L. reflexivity.
Qed.
End RunCalls.

(** ** Server.train: early stopping *)

Lemma Qclt_bool_iff (a b : Qc) : Server.Qclt_bool a b = true <-> (a < b)%Qc.
Proof.
  split.
  - unfold Server.Qclt_bool. intros E. apply negb_true_iff in E.
    apply Qnot_le_lt. intros L. apply Qle_bool_iff in L. congruence.
  - apply Qclt_bool_true.
Qed.

Lemma forallb_false_witness {A : Type} (f : A -> bool) (l : list A) :
  forallb f l = false -> exists x, In x l /\ f x = false.
Proof.
  induction l as [|a l IH]; simpl; [discriminate|].
  destruct (f a) eqn:E; simpl.
  - intros H. destruct (IH H) as (x & I & F). eauto.
  - eauto.
Qed.

Lemma forallb_seq_S (f : nat -> bool) (i : nat) :
  forallb f (seq 0 (S i)) = forallb f (seq 0 i) && f i.
Proof. rewrite seq_S, forallb_app. simpl. rewrite andb_true_r. reflexivity. Qed.

Lemma last_improving_le (ndcg : nat -> Qc) (t : nat) : last_improving ndcg t <= t.
Proof.
  induction t as [|t IH]; simpl; [lia|]. destruct (improves ndcg t); lia.
Qed.

Lemma below_best_improving (ndcg : nat -> Qc) (i : nat) (v : Qc) :
  improves ndcg i = true ->
  Server.Qclt_bool (ndcg i) v
  = forallb (fun j => Server.Qclt_bool (ndcg j) v) (seq 0 (S i)).
Proof.
  intros I. rewrite forallb_seq_S.
  destruct (Server.Qclt_bool (ndcg i) v) eqn:E; [|rewrite andb_false_r; reflexivity].
  rewrite andb_true_r. symmetry. apply forallb_forall. intros j Ij.
  unfold improves in I. rewrite forallb_forall in I. specialize (I j Ij).
  apply Qclt_bool_iff. apply Qclt_bool_iff in I, E.
  eapply Qclt_trans; eassumption.
Qed.

Lemma below_best_not_improving (ndcg : nat -> Qc) (i : nat) (v : Qc) :
  improves ndcg i = false ->
  forallb (fun j => Server.Qclt_bool (ndcg j) v) (seq 0 i)
  = forallb (fun j => Server.Qclt_bool (ndcg j) v) (seq 0 (S i)).
Proof.
  intros I. rewrite forallb_seq_S.
  destruct (forallb (fun j => Server.Qclt_bool (ndcg j) v) (seq 0 i)) eqn:F;
    [|reflexivity].
  simpl. symmetry. apply Qclt_bool_iff.
  apply forallb_false_witness in I. destruct I as (j & Ij & Fj).
  rewrite forallb_forall in F. specialize (F j Ij). apply Qclt_bool_iff in F.
  eapply Qcle_lt_trans; [|exact F].
  apply Qcnot_lt_le. intros L. apply Qclt_bool_iff in L. congruence.
Qed.

Section EarlyStopping.
Variable RNG : Type.
Variable shuffle : RNG -> list (list nat) * RNG.
Variable ndcg : nat -> Qc.
Variable srv : Server.t.
Hypothesis patience_positive : (1 <= Server.early_stop srv)%Z.

Lemma run_no_save (opts : list Server.optimizer) (n : nat) (d : Qc)
  (flag : bool) (g : RNG) (e : nat) :
  ~ In (Server.SaveCheckpoint e) (fst (Server.run shuffle opts n d flag g)).
Proof.
  unfold Server.run.
  destruct (run_epochs_Forall RNG shuffle opts d
              (fun c => match c with
                        | Server.SaveCheckpoint _ => False
                        | _ => True
                        end))
    with (n := n) (flag := flag) (g := g) as [F _]; simpl; auto.
  destruct (Server.run_epochs shuffle opts n d flag g) as [[cs f] g'].
  simpl in *. intros I. rewrite Forall_forall in F. apply (F _ I).
Qed.

Lemma train_phase_no_save (epoch : nat) (g : RNG) (e : nat) :
  ~ In (Server.SaveCheckpoint e) (fst (Server.train_phase shuffle srv epoch g)).
Proof.
  unfold Server.train_phase. destruct (Server.alternating srv).
  - pose proof (run_no_save [Server.optimizer_encoder]
                  (Server.n_enc_epochs srv) (Server.dropout_prob srv) false g e)
      as N1.
    destruct (Server.run shuffle [Server.optimizer_encoder] _ _ false g)
      as [cs1 g1].
    pose proof (run_no_save [Server.optimizer_decoder]
                  (Server.n_dec_epochs srv) 0%Qc
                  (existsb (Nat.eqb (epoch + 1)) (Server.restore_epochs srv))
                  g1 e) as N2.
    destruct (Server.run shuffle [Server.optimizer_decoder] _ _ _ g1)
      as [cs2 g2].
    simpl in *. intros [E | I]; [discriminate|].
    apply in_app_or in I. destruct I as [I | [E | I]]; auto; discriminate.
  - pose proof (run_no_save [Server.optimizer_encoder; Server.optimizer_decoder]
                  1 (Server.dropout_prob srv)
                  (existsb (Nat.eqb (epoch + 1)) (Server.restore_epochs srv))
                  g e) as N.
    destruct (Server.run shuffle _ 1 _ _ g) as [cs g1].
    simpl in *. intros [E | I]; [discriminate | auto].
Qed.

Lemma epoch_calls_save (old cs : list Server.call) (tb : bool) (i e : nat) :
  ~ In (Server.SaveCheckpoint e) cs ->
  In (Server.SaveCheckpoint e)
     (old ++ cs ++ (if tb then [Server.LogInTensorboard i] else [])
          ++ [Server.Evaluate i])
  <-> In (Server.SaveCheckpoint e) old.
Proof.
  intros N. rewrite !in_app_iff. split; [|auto].
  intros [I | [I | [I | I]]]; auto; try contradiction.
  - destruct tb; simpl in I; intuition discriminate.
  - simpl in I. destruct I as [E | []]. discriminate.
Qed.

Lemma train_epoch_step (i : nat) (st : Server.train_state RNG) :
  train_invariant ndcg (Server.early_stop srv) i st ->
  (snd (Server.train_epoch shuffle ndcg srv i st) = false
   /\ train_invariant ndcg (Server.early_stop srv) (S i)
        (fst (Server.train_epoch shuffle ndcg srv i st)))
  \/ (snd (Server.train_epoch shuffle ndcg srv i st) = true
      /\ forall n, S i <= n ->
           train_outcome ndcg (Server.early_stop srv) n
             (fst (Server.train_epoch shuffle ndcg srv i st))).
Proof.
  intros (He & Hb & Hl & Hp & Ht & Hs).
  pose proof (last_improving_le ndcg i) as Li.
  unfold Server.train_epoch.
  pose proof (train_phase_no_save i (Server.loader st)) as NS.
  destruct (Server.train_phase shuffle srv i (Server.loader st)) as [cs g].
  simpl in NS. rewrite (Hb (ndcg i)). fold (improves ndcg i).
  destruct (improves ndcg i) eqn:I.
  - left. split; [reflexivity|]. unfold train_invariant. simpl.
    rewrite I. split; [|split; [|split; [|split; [|split]]]].
    + lia.
    + intros v. apply below_best_improving, I.
    + lia.
    + rewrite Nat.sub_diag. lia.
    + intros t [H1 H2]. destruct (Nat.eq_dec t (S i)) as [-> | N].
      * simpl. rewrite I. lia.
      * apply Ht. lia.
    + intros e. rewrite in_app_iff, epoch_calls_save by apply NS.
      rewrite Hs. simpl. split.
      * intros [[H1 H2] | [E | []]]; [split; [lia | exact H2]|].
        injection E as <-. split; [lia|].
        replace (i + 1 - 1) with i by lia. exact I.
      * intros [H1 H2]. destruct (Nat.eq_dec e (S i)) as [-> | N].
        -- right. left. f_equal. lia.
        -- left. split; [lia | exact H2].
  - assert (Ipos : 1 <= i).
    { destruct i; [|lia]. discriminate I. }
    assert (Lt : i < last_improving ndcg i + Z.to_nat (Server.early_stop srv))
      by (apply Ht; lia).
    assert (LS : last_improving ndcg (S i) = last_improving ndcg i)
      by (simpl; rewrite I; reflexivity).
    assert (Saves : forall e,
               In (Server.SaveCheckpoint e)
                  (Server.calls st ++ cs
                     ++ (if Server.use_tensorboard srv
                         then [Server.LogInTensorboard i] else [])
                     ++ [Server.Evaluate i])
               <-> 1 <= e <= S i /\ improves ndcg (e - 1) = true).
    { intros e. rewrite epoch_calls_save by apply NS. rewrite Hs.
      split; intros [H1 H2]; (split; [|exact H2]); [lia|].
      destruct (Nat.eq_dec e (S i)) as [-> | N]; [|lia].
      replace (S i - 1) with i in H2 by lia. congruence. }
    destruct (Z.eqb_spec (Server.patience st - 1) 0) as [Z0 | NZ].
    + right. split; [reflexivity|]. intros n Hn.
      unfold train_outcome.
      cbn [fst Server.epochs_run Server.best_epoch Server.patience Server.calls].
      replace (i + 1) with (S i) by lia. rewrite LS.
      split; [|split; [|split; [|split]]].
      * lia.
      * intros t' H. apply Ht. lia.
      * exact Hl.
      * lia.
      * exact Saves.
    + left. split; [reflexivity|]. unfold train_invariant.
      cbn [fst Server.epochs_run Server.best_epoch Server.patience
           Server.calls Server.best_ndcg].
      rewrite LS. split; [|split; [|split; [|split; [|split]]]].
      * lia.
      * intros v. rewrite (Hb v). apply below_best_not_improving, I.
      * exact Hl.
      * lia.
      * intros t [H1 H2]. destruct (Nat.eq_dec t (S i)) as [-> | N].
        -- rewrite LS. lia.
        -- apply Ht. lia.
      * exact Saves.
Qed.
Lemma train_invariant_outcome (n : nat) (st : Server.train_state RNG) :
  train_invariant ndcg (Server.early_stop srv) n st ->
  train_outcome ndcg (Server.early_stop srv) n st.
Proof.
  intros (He & Hb & Hl & Hp & Ht & Hs). unfold train_outcome. rewrite He.
  split; [|split; [|split; [|split]]]; auto.
  - destruct n; [reflexivity|]. specialize (Ht (S n)). lia.
  - intros t' H. apply Ht. lia.
Qed.

Lemma train_loop_outcome (k : nat) :
  forall i st,
    train_invariant ndcg (Server.early_stop srv) i st ->
    train_outcome ndcg (Server.early_stop srv) (i + k)
      (Server.train_loop shuffle ndcg srv (seq i k) st).
Proof.
  induction k as [|k IH]; intros i st Inv; simpl.
  - rewrite Nat.add_0_r. apply train_invariant_outcome, Inv.
  - destruct (train_epoch_step i st Inv) as [[E Inv'] | [E Out]];
      destruct (Server.train_epoch shuffle ndcg srv i st) as [st' stop];
      simpl in *; subst stop.
    + replace (i + S k) with (S i + k) by lia. apply IH, Inv'.
    + apply Out. lia.
Qed.

Lemma train_outcome_holds (g : RNG) :
  train_outcome ndcg (Server.early_stop srv) (Server.epochs srv)
    (Server.train shuffle ndcg srv g).
Proof.
  apply (train_loop_outcome (Server.epochs srv) 0).
  unfold train_invariant. simpl.
  split; [|split; [|split; [|split; [|split]]]]; auto; lia.
Qed.
End EarlyStopping.

(** C7, as the code has it.  With a patience [early_stop >= 1],
    [Server.train] runs until [early_stop] epochs after the last improving
    epoch, or until the maximum number of epochs, whichever comes first:
    it never breaks earlier and never runs past a point where [early_stop]
    epochs have gone by without improvement.  [best_epoch] is the last
    improving epoch, the patience left is [early_stop] minus the number of
    epochs since then (so every improvement resets it), and a checkpoint is
    saved at exactly the improving epochs. *)
Theorem train_early_stopping
  (RNG : Type) (shuffle : RNG -> list (list nat) * RNG) (ndcg : nat -> Qc)
  (srv : Server.t) (g : RNG) :
  (1 <= Server.early_stop srv)%Z ->
  halts_as_claimed shuffle ndcg srv g
  /\ train_outcome ndcg (Server.early_stop srv) (Server.epochs srv)
       (Server.train shuffle ndcg srv g).
Proof.
  intros P. pose proof (train_outcome_holds RNG shuffle ndcg srv P g) as O.
  split; [|exact O]. destruct O as [H _]. exact H.
Qed.

Lemma train_early_stopping_witness :
  halts_as_claimed Fixture.shuffle Fixture.ndcg_once Fixture.server_patient 0
  /\ train_outcome Fixture.ndcg_once 2 10
       (Server.train Fixture.shuffle Fixture.ndcg_once Fixture.server_patient 0).
Proof.
  apply (train_early_stopping nat Fixture.shuffle Fixture.ndcg_once
           Fixture.server_patient 0).
  simpl. lia.
Defined.

(** With a patience of two, the run above stops after its third epoch. *)
Example train_patient_stops_at_3 :
  Server.epochs_run
    (Server.train Fixture.shuffle Fixture.ndcg_once Fixture.server_patient 0)
  = 3.
Proof. reflexivity. Qed.

(** C7 as stated fails for [early_stop = 0]: the patience starts at 0, the
    first epoch without improvement takes it to -1, and the test
    [patience == 0] never holds, so all three epochs run although the last
    improvement is at epoch 1. *)
Lemma train_zero_patience_never_stops :
  ~ halts_as_claimed Fixture.shuffle Fixture.ndcg_once
      (Fixture.server4 "encoder.w" "decoder.w") 0.
Proof. unfold halts_as_claimed. vm_compute. discriminate. Qed.

(** With a patience that is zero or negative the test [patience == 0] is
    never met after a decrement, and every one of the [epochs] epochs
    runs. *)
Lemma train_nonpositive_patience_runs_all
  (RNG : Type) (shuffle : RNG -> list (list nat) * RNG) (ndcg : nat -> Qc)
  (srv : Server.t) (g : RNG) :
  (Server.early_stop srv <= 0)%Z ->
  Server.epochs_run (Server.train shuffle ndcg srv g) = Server.epochs srv.
Proof.
  intros E. unfold Server.train.
  assert (L : forall k i st,
             (Server.patience st <= 0)%Z -> Server.epochs_run st = i ->
             Server.epochs_run (Server.train_loop shuffle ndcg srv (seq i k) st)
             = i + k).
  { induction k as [|k IH]; intros i st P R; simpl; [lia|].
    unfold Server.train_epoch.
    destruct (Server.train_phase shuffle srv i (Server.loader st)) as [cs g1].
    destruct (Server.improves_on (ndcg i) (Server.best_ndcg st)).
    - rewrite IH; simpl; lia.
    - destruct (Z.eqb_spec (Server.patience st - 1) 0); [lia|].
      rewrite IH; simpl; lia. }
  apply (L (Server.epochs srv) 0); simpl; [exact E | reflexivity].
Qed.

(** * Further properties of the code *)

(** ** Pairwise masking: edge cases *)

Lemma mapM_raise {A B : Type} (f : A -> result B) (e : pyerr) (l : list A) :
  (forall a, In a l -> (exists b, f a = Ok b) \/ f a = Raise e) ->
  Exists (fun a => f a = Raise e) l ->
  mapM f l = Raise e.
Proof.
  induction l as [|a l IH]; intros H X; [inversion X|].
  simpl. destruct (H a (or_introl eq_refl)) as [[b Eb] | Er].
  - rewrite Eb. cbn [bind]. rewrite IH; [reflexivity | |].
    + intros a' I. apply H. right. exact I.
    + inversion X as [? ? Ha | ? ? Hl]; subst; [congruence | exact Hl].
  - rewrite Er. reflexivity.
Qed.

Lemma mapM_ok_or_raise {A B : Type} (f : A -> result B) (e : pyerr)
  (l : list A) :
  (forall a, In a l -> (exists b, f a = Ok b) \/ f a = Raise e) ->
  (exists bs, mapM f l = Ok bs) \/ mapM f l = Raise e.
Proof.
  induction l as [|a l IH]; intros H; simpl; [eauto|].
  destruct (H a (or_introl eq_refl)) as [[b Eb] | Er].
  - rewrite Eb. cbn [bind].
    destruct IH as [[bs Ebs] | Er]; [intros a' I; apply H; right; exact I | |].
    + rewrite Ebs. cbn [bind]. eauto.
    + rewrite Er. auto.
  - rewrite Er. auto.
Qed.

Lemma take_ids_empty_rows (uids : list nat) (idx : list (list nat)) :
  Forall (fun row => row = []) idx -> Clients.take_ids uids idx = Ok idx.
Proof.
  unfold Clients.take_ids. induction 1 as [|row idx -> _ IH]; simpl.
  - reflexivity.
  - rewrite IH. reflexivity.
Qed.

(** X1. With a fan-out of zero (every row of neighbours empty)
    [MPC_perturb] is a no-op: it returns the gradients it was given, a cost
    of 0, and draws nothing from the generator. *)
Theorem MPC_perturb_no_neighbours
  (RNG : Type) (randn : RNG -> nat -> list Qc * RNG)
  (get_size : sized -> Qc)
  (sample_neighbor : RNG -> nat -> nat -> result (list (list nat)) * RNG)
  (xi : nat) (g g1 : RNG) (cg : clients_grads) (clients_idx : list (list nat)) :
  sample_neighbor g (length (dict_keys cg)) xi = (Ok clients_idx, g1) ->
  length clients_idx = length (dict_keys cg) ->
  Forall (fun row => row = []) clients_idx ->
  Clients.MPC_perturb randn get_size sample_neighbor xi g cg
  = Ok (cg, 0%Qc, g1).
Proof.
  intros Hs Hl He. unfold Clients.MPC_perturb. rewrite Hs. cbn [bind].
  unfold Clients.MPC_exchange. rewrite (take_ids_empty_rows _ _ He).
  cbn [bind].
  set (st0 := {| Clients.store := cg; Clients.gen := g1; Clients.cost := 0%Qc |}).
  destruct (foldM_invariant (fun st => st = st0)
              (fun p : nat * nat => fst p < length clients_idx)
              (fun '(i, uid) st =>
                 row <- of_option IndexError (nth_error clients_idx i) ;;
                 foldM (Clients.send_to randn get_size uid) row st)
              (combine (seq 0 (length (dict_keys cg))) (dict_keys cg)))
    with (s := st0) as (st & -> & ->).
  - intros [i uid] s Hi ->. simpl in Hi.
    destruct (nth_error clients_idx i) as [row|] eqn:N;
      [|apply nth_error_None in N; lia].
    rewrite Forall_forall in He. rewrite (He row (nth_error_In _ _ N)).
    exists st0. split; reflexivity.
  - apply Forall_forall. intros [i uid] I. simpl.
    apply in_combine_l, in_seq in I. lia.
  - reflexivity.
  - cbn [bind]. unfold st0. simpl. f_equal. f_equal. f_equal.
    unfold Qcdiv. ring.
Qed.

Lemma MPC_perturb_no_neighbours_witness :
  Clients.MPC_perturb Fixture.randn Fixture.get_size
    (fun g n xi => (Ok [[]; []], g)) 0 0 Fixture.cohort2
  = Ok (Fixture.cohort2, 0%Qc, 0).
Proof.
  apply (MPC_perturb_no_neighbours nat Fixture.randn Fixture.get_size
           (fun g n xi => (Ok [[]; []], g)) 0 0 0 Fixture.cohort2 [[]; []]).
  - reflexivity.
  - reflexivity.
  - repeat constructor.
Defined.

(** X2. A neighbour index that is not below the cohort size makes
    [MPC_perturb] raise [IndexError], wherever in the index matrix it
    stands and whatever the other indices are. *)
Theorem MPC_perturb_index_out_of_range
  (RNG : Type) (randn : RNG -> nat -> list Qc * RNG)
  (get_size : sized -> Qc)
  (sample_neighbor : RNG -> nat -> nat -> result (list (list nat)) * RNG)
  (xi : nat) (g g1 : RNG) (cg : clients_grads) (clients_idx : list (list nat)) :
  sample_neighbor g (length (dict_keys cg)) xi = (Ok clients_idx, g1) ->
  Exists (Exists (fun j => length (dict_keys cg) <= j)) clients_idx ->
  Clients.MPC_perturb randn get_size sample_neighbor xi g cg
  = Raise IndexError.
Proof.
  intros Hs X. unfold Clients.MPC_perturb. rewrite Hs. cbn [bind].
  unfold Clients.MPC_exchange, Clients.take_ids.
  assert (Inner : forall j,
             (exists u, of_option IndexError (nth_error (dict_keys cg) j) = Ok u)
             \/ of_option IndexError (nth_error (dict_keys cg) j)
                = Raise IndexError).
  { intros j. destruct (nth_error (dict_keys cg) j); simpl; eauto. }
  rewrite (mapM_raise
             (mapM (fun j => of_option IndexError (nth_error (dict_keys cg) j)))
             IndexError clients_idx); [reflexivity | |].
  - intros row _. apply mapM_ok_or_raise. intros j _. apply Inner.
  - eapply Exists_impl; [|exact X]. intros row Xr.
    apply mapM_raise; [intros j _; apply Inner|].
    eapply Exists_impl; [|exact Xr]. intros j Hj. cbv beta in Hj.
    destruct (nth_error (dict_keys cg) j) eqn:N; [|reflexivity].
    assert (nth_error (dict_keys cg) j <> None) as NN by congruence.
    apply nth_error_Some in NN. lia.
Qed.

Lemma MPC_perturb_index_out_of_range_witness :
  Clients.MPC_perturb Fixture.randn Fixture.get_size
    (fun g n xi => (Ok [[1]; [2]], g)) 1 0 Fixture.cohort2
  = Raise IndexError.
Proof.
  apply (MPC_perturb_index_out_of_range nat Fixture.randn Fixture.get_size
           (fun g n xi => (Ok [[1]; [2]], g)) 1 0 0 Fixture.cohort2
           [[1]; [2]]).
  - reflexivity.
  - right. left. left. simpl. lia.
Defined.

Section DictIdempotence.
Context {K V : Type} `{Key K}.

Lemma dict_set_same (k : K) (v : V) (d : dict K V) :
  dict_get k d = Some v -> dict_set k v d = d.
Proof.
  induction d as [|[k0 v0] d IH]; simpl; [discriminate|].
  destruct (keqb k k0) eqn:E.
  - intros [= ->]. reflexivity.
  - intros G. rewrite (IH G). reflexivity.
Qed.

Lemma dict_set_twice (k : K) (v v' : V) (d : dict K V) :
  dict_set k v (dict_set k v' d) = dict_set k v d.
Proof.
  induction d as [|[k0 v0] d IH]; simpl.
  - rewrite keqb_refl. assert (E : k = k) by reflexivity.
    reflexivity.
  - destruct (keqb k k0) eqn:E; simpl; rewrite E; [reflexivity|].
    rewrite IH. reflexivity.
Qed.
End DictIdempotence.

Lemma slot_set_restore (uid : nat) (name : string) (gd : grads_dict)
  (t t' : tensor) (cg : clients_grads) :
  dict_get uid cg = Some gd -> dict_get name gd = Some t ->
  slot_set uid name t (slot_set uid name t' cg) = cg.
Proof.
  intros Gu Gn. unfold slot_set at 2. rewrite Gu. unfold slot_set.
  rewrite dict_get_set_same with (v0 := gd) by exact Gu.
  rewrite !dict_set_twice.
  rewrite (dict_set_same name t gd Gn). apply dict_set_same, Gu.
Qed.

Lemma map2_sub_add (a b : list Qc) :
  length a = length b -> map2 Qcplus (map2 Qcminus a b) b = a.
Proof.
  revert b. induction a as [|x a IH]; destruct b as [|y b]; simpl;
    try discriminate; [reflexivity|].
  intros [= L]. rewrite (IH b L). f_equal. ring.
Qed.

(** X3. In exact arithmetic (rounding set aside), a user that is its own
    recipient gets its gradient back: the share is subtracted from and
    added to the same tensor, so the gradients are unchanged up to
    rounding, while the generator advances and the share is still counted
    in the cost. *)
Theorem share_with_self_keeps_gradients
  (RNG : Type) (randn : RNG -> nat -> list Qc * RNG)
  (get_size : sized -> Qc) (uid : nat) (name : string) (grads : tensor)
  (st : Clients.mpc_state RNG) :
  (forall g n, length (fst (randn g n)) = n) ->
  slot_get uid name (Clients.store st) = Ok grads ->
  wf_tensor grads ->
  Clients.share_step randn get_size uid uid name st
  = Ok {| Clients.store := Clients.store st;
          Clients.gen := snd (Clients.randn_like randn (Clients.gen st) grads);
          Clients.cost :=
            (Clients.cost st
             + get_size (SizedTensor
                           (fst (Clients.randn_like randn (Clients.gen st) grads))))%Qc |}.
Proof.
  intros Hlen Hget Wg. unfold Clients.share_step. rewrite Hget. cbn [bind].
  assert (Slot : exists gd, dict_get uid (Clients.store st) = Some gd
                            /\ dict_get name gd = Some grads).
  { unfold slot_get in Hget.
    destruct (dict_get uid (Clients.store st)) as [gd|]; [|discriminate].
    simpl in Hget. destruct (dict_get name gd) as [t|] eqn:G; [|discriminate].
    injection Hget as ->. eauto. }
  destruct Slot as (gd & Gu & Gn).
  unfold Clients.randn_like.
  pose proof (Hlen (Clients.gen st) (numel (shape grads))) as Lx.
  destruct (randn (Clients.gen st) (numel (shape grads))) as [xs g'].
  simpl in Lx. simpl fst. simpl snd.
  unfold tensor_isub. rewrite tensor_zip_same_shape by reflexivity.
  cbn [bind]. cbn [data shape].
  assert (Get1 : slot_get uid name
                   (slot_set uid name
                      {| shape := shape grads;
                         data := map2 Qcminus (data grads) xs |}
                      (Clients.store st))
                 = Ok {| shape := shape grads;
                         data := map2 Qcminus (data grads) xs |}).
  { unfold slot_get, slot_set. rewrite Gu.
    rewrite dict_get_set_same with (v0 := gd) by exact Gu.
    cbn [of_option bind].
    rewrite dict_get_set_same with (v0 := grads) by exact Gn. reflexivity. }
  rewrite Get1. cbn [bind].
  unfold tensor_iadd. rewrite tensor_zip_same_shape by reflexivity.
  cbn [bind]. cbn [data shape].
  rewrite map2_sub_add by (unfold wf_tensor in Wg; congruence).
  replace {| shape := shape grads; data := data grads |} with grads
    by (destruct grads; reflexivity).
  rewrite slot_set_restore with (gd := gd) by assumption. reflexivity.
Qed.

Lemma share_with_self_keeps_gradients_witness :
  Clients.share_step Fixture.randn Fixture.get_size 7 7 "w"
    {| Clients.store := Fixture.cohort2; Clients.gen := 3; Clients.cost := 0%Qc |}
  = Ok {| Clients.store := Fixture.cohort2; Clients.gen := 5;
          Clients.cost := (0 + Qc_of_nat 8)%Qc |}.
Proof.
  apply (share_with_self_keeps_gradients nat Fixture.randn Fixture.get_size
           7 "w" (Fixture.vec [1; 2])
           {| Clients.store := Fixture.cohort2; Clients.gen := 3;
              Clients.cost := 0%Qc |}).
  - exact fixture_randn_length.
  - reflexivity.
  - reflexivity.
Defined.

(** ** Mean aggregation in closed form *)

Lemma mapM_map {A B : Type} (f : A -> result B) (h : A -> B) (l : list A) :
  (forall a, In a l -> f a = Ok (h a)) -> mapM f l = Ok (map h l).
Proof.
  induction l as [|a l IH]; intros H; simpl; [reflexivity|].
  rewrite (H a (or_introl eq_refl)). cbn [bind].
  rewrite IH by (intros a' I; apply H; right; exact I). reflexivity.
Qed.

Lemma tensor_by_entries (t : tensor) (sh : list nat) (f : nat -> Qc) :
  shape t = sh -> wf_tensor t ->
  (forall k, nth k (data t) 0%Qc = f k) ->
  t = {| shape := sh; data := map f (seq 0 (numel sh)) |}.
Proof.
  destruct t as [s d]. unfold wf_tensor. simpl. intros -> L E. f_equal.
  apply nth_ext with (d := 0%Qc) (d' := f 0).
  - rewrite length_map, length_seq. exact L.
  - intros k Hk. rewrite E, map_nth, seq_nth by lia. reflexivity.
Qed.

Lemma aggregate_gradients_closed_form
  (shp : string -> list nat) (model : list Server.param) (cg : clients_grads) :
  cg <> [] -> conforms shp cg -> supplied shp model cg ->
  Server.aggregate_gradients model cg = Ok (map (mean_update shp cg) model).
Proof.
  intros NE C S. unfold Server.aggregate_gradients.
  destruct (accumulate_mean shp cg C) as (agg & -> & Acc). cbn [bind].
  apply mapM_map. intros p Ip.
  unfold Server.apply_aggregate, mean_update.
  destruct (Server.requires_grad p) eqn:RG; simpl negb; cbv iota;
    [|reflexivity].
  destruct (S p Ip RG) as (Hg & Hsup).
  pose proof (Acc (Server.pname p)) as A.
  destruct (dict_get (Server.pname p) agg) as [a|].
  - destruct A as (Wa & Sa & Va).
    assert (Mean : forall k, nth k (data a) 0%Qc
                             = mean_coord (Server.pname p) k cg).
    { intros k. rewrite Va. apply partial_sum_cohort.
      intros uid gd I. apply (C uid gd I). }
    destruct (Server.grad p) as [g|] eqn:G.
    + destruct (Hg g eq_refl) as [Wg Sg].
      unfold tensor_iadd. rewrite tensor_zip_same_shape by congruence.
      cbn [bind]. f_equal. f_equal. apply tensor_by_entries.
      * exact Sg.
      * unfold wf_tensor in *. simpl. rewrite map2_length; congruence.
      * intros k. simpl data.
        rewrite nth_map2 by (unfold wf_tensor in *; congruence || reflexivity).
        unfold grad_coord. rewrite G, Mean. reflexivity.
    + f_equal. f_equal. apply tensor_by_entries; auto.
      intros k. unfold grad_coord. rewrite G, Mean. ring.
  - exfalso. destruct cg as [|[uid gd] cg']; [contradiction|].
    destruct (Hsup uid gd (or_introl eq_refl)) as [t Gt].
    apply dict_get_some_in in Gt.
    apply (A (Server.pname p, t)); [|reflexivity].
    simpl. apply in_or_app. left. exact Gt.
Qed.

Lemma mean_update_ext (shp : string -> list nat) (cg cg' : clients_grads)
  (p : Server.param) :
  length cg' = length cg ->
  (forall name k, cohort_sum name k cg' = cohort_sum name k cg) ->
  mean_update shp cg' p = mean_update shp cg p.
Proof.
  intros L E. unfold mean_update. destruct (Server.requires_grad p); auto.
  f_equal. f_equal. apply map_ext. intros k. unfold mean_coord.
  rewrite L, E. reflexivity.
Qed.

Lemma In_dict_get_NoDup {V : Type} (name : string) (v : V)
  (d : dict string V) :
  NoDup (dict_keys d) -> In (name, v) d -> dict_get name d = Some v.
Proof.
  induction d as [|[k0 v0] d IH]; simpl; [contradiction|].
  intros ND I. inversion ND as [|? ? Notin ND']; subst.
  destruct I as [E | I].
  - injection E as -> ->. rewrite String.eqb_refl. reflexivity.
  - destruct (String.eqb name k0) eqn:E0; [|auto].
    apply String.eqb_eq in E0. subst k0. exfalso. apply Notin.
    change name with (fst (name, v)). apply in_map, I.
Qed.

Lemma conforms_all_wf (shp : string -> list nat) (cg : clients_grads) :
  conforms shp cg -> all_wf cg.
Proof.
  intros C. apply Forall_forall. intros [uid gd] I. simpl.
  destruct (C uid gd I) as [ND Sh].
  apply Forall_forall. intros [name t] It. simpl.
  apply (Sh name t). apply In_dict_get_NoDup; assumption.
Qed.

Lemma skeleton_entry (cg cg' : clients_grads) (uid : nat) (gd' : grads_dict) :
  skeleton cg' = skeleton cg -> In (uid, gd') cg' ->
  exists gd, In (uid, gd) cg
             /\ map (fun q => (fst q, shape (snd q))) gd'
                = map (fun q => (fst q, shape (snd q))) gd.
Proof.
  intros E I.
  assert (I2 : In (uid, map (fun q => (fst q, shape (snd q))) gd')
                  (skeleton cg')).
  { unfold skeleton. apply in_map_iff. exists (uid, gd').
    split; [reflexivity | exact I]. }
  rewrite E in I2. unfold skeleton in I2. apply in_map_iff in I2.
  destruct I2 as ([u gd] & Eq & Ig).
  simpl in Eq. injection Eq as -> Eg. exists gd. auto.
Qed.

Lemma conforms_skeleton (shp : string -> list nat) (cg cg' : clients_grads) :
  conforms shp cg -> skeleton cg' = skeleton cg -> all_wf cg' ->
  conforms shp cg'.
Proof.
  intros C E W uid gd' I.
  destruct (skeleton_entry cg cg' uid gd' E I) as (gd & Ig & Eg).
  destruct (C uid gd Ig) as [ND Sh]. split.
  - unfold dict_keys in *.
    replace (map fst gd')
      with (map fst (map (fun q : string * tensor => (fst q, shape (snd q))) gd'))
      by (rewrite map_map; reflexivity).
    rewrite Eg, map_map. exact ND.
  - intros name t' G'. split.
    + unfold all_wf in W. rewrite Forall_forall in W.
      specialize (W _ I). simpl in W. rewrite Forall_forall in W.
      apply (W (name, t')). apply dict_get_some_in, G'.
    + pose proof (gd_shape_lookup name gd' gd Eg) as L. rewrite G' in L.
      destruct (dict_get name gd) as [t|] eqn:G; simpl in L; [|discriminate].
      injection L as L. rewrite L. apply (Sh name t G).
Qed.

Lemma supplied_skeleton (shp : string -> list nat) (model : list Server.param)
  (cg cg' : clients_grads) :
  supplied shp model cg -> skeleton cg' = skeleton cg ->
  supplied shp model cg'.
Proof.
  intros S E p Ip RG. destruct (S p Ip RG) as [Hg Hsup]. split; [exact Hg|].
  intros uid gd' I.
  destruct (skeleton_entry cg cg' uid gd' E I) as (gd & Ig & Eg).
  destruct (Hsup uid gd Ig) as [t G].
  pose proof (gd_shape_lookup (Server.pname p) gd' gd Eg) as L.
  rewrite G in L. destruct (dict_get (Server.pname p) gd'); [eauto|discriminate].
Qed.

Lemma MPC_exchange_conserved_state
  (RNG : Type) (randn : RNG -> nat -> list Qc * RNG)
  (randn_length : forall g n, length (fst (randn g n)) = n)
  (get_size : sized -> Qc) (cg0 : clients_grads)
  (clients_idx : list (list nat)) (g : RNG) :
  uniform cg0 -> all_wf cg0 ->
  closed_exchange (length (dict_keys cg0)) clients_idx ->
  exists st,
    Clients.MPC_exchange randn get_size clients_idx g cg0
    = Ok (Clients.store st, (Clients.cost st / MiB)%Qc, Clients.gen st)
    /\ conserved cg0 st.
Proof.
  intros U W [Len In_range]. unfold Clients.MPC_exchange.
  destruct (take_ids_ok (dict_keys cg0) clients_idx In_range)
    as (cts & -> & Lc & Fc).
  cbn [bind].
  destruct (foldM_invariant (conserved cg0)
              (fun p : nat * nat =>
                 fst p < length cts /\ In (snd p) (dict_keys cg0))
              (fun '(i, uid) st =>
                 row <- of_option IndexError (nth_error cts i) ;;
                 foldM (Clients.send_to randn get_size uid) row st)
              (combine (seq 0 (length (dict_keys cg0))) (dict_keys cg0)))
    with (s := {| Clients.store := cg0; Clients.gen := g;
                  Clients.cost := 0%Qc |})
    as (st & -> & C).
  - intros [i uid] s [Hi Hu] C. simpl in Hi, Hu.
    destruct (nth_error cts i) as [row|] eqn:N;
      [|apply nth_error_None in N; lia].
    cbn [of_option bind].
    apply foldM_invariant with (Q := fun suid => In suid (dict_keys cg0));
      [| |exact C].
    + intros suid s' Hs C'.
      apply (send_to_conserved RNG randn randn_length get_size cg0 U);
        assumption.
    + rewrite Forall_forall in Fc. apply Fc. eapply nth_error_In, N.
  - apply Forall_forall. intros [i uid] I. simpl. split.
    + apply in_combine_l, in_seq in I. lia.
    + eapply in_combine_r, I.
  - repeat split. exact W.
  - cbn [bind]. exists st. split; [reflexivity | exact C].
Qed.

(** X4. In exact arithmetic (rounding set aside), masking is invisible to
    the server: under the conditions of share conservation, aggregating
    the gradients that [MPC_perturb] returns gives the model the gradient
    accumulators that aggregating the unmasked gradients gives. *)
Theorem aggregate_unchanged_by_masking
  (RNG : Type) (randn : RNG -> nat -> list Qc * RNG)
  (get_size : sized -> Qc)
  (sample_neighbor : RNG -> nat -> nat -> result (list (list nat)) * RNG)
  (xi : nat) (g g1 : RNG) (cg : clients_grads) (clients_idx : list (list nat))
  (shp : string -> list nat) (model : list Server.param) :
  (forall g n, length (fst (randn g n)) = n) ->
  cg <> [] -> uniform cg -> conforms shp cg -> supplied shp model cg ->
  sample_neighbor g (length (dict_keys cg)) xi = (Ok clients_idx, g1) ->
  closed_exchange (length (dict_keys cg)) clients_idx ->
  exists cg' c g',
    Clients.MPC_perturb randn get_size sample_neighbor xi g cg = Ok (cg', c, g')
    /\ Server.aggregate_gradients model cg'
       = Server.aggregate_gradients model cg
    /\ exists model', Server.aggregate_gradients model cg = Ok model'.
Proof.
  intros Hlen NE U C S Hs Hc. unfold Clients.MPC_perturb. rewrite Hs.
  cbn [bind].
  destruct (MPC_exchange_conserved_state RNG randn Hlen get_size cg
              clients_idx g1 U (conforms_all_wf shp cg C) Hc)
    as (st & -> & Sk & W & Sum).
  exists (Clients.store st), (Clients.cost st / MiB)%Qc, (Clients.gen st).
  split; [reflexivity|].
  assert (L : length (Clients.store st) = length cg).
  { apply (f_equal (@length _)) in Sk. unfold skeleton in Sk.
    rewrite !length_map in Sk. exact Sk. }
  rewrite (aggregate_gradients_closed_form shp model cg NE C S).
  rewrite (aggregate_gradients_closed_form shp model (Clients.store st)).
  - split; [|eauto]. f_equal. apply map_ext. intros p.
    apply mean_update_ext; assumption.
  - intros E. rewrite E in L. destruct cg; [contradiction | discriminate].
  - apply (conforms_skeleton shp cg); assumption.
  - apply (supplied_skeleton shp model cg); assumption.
Qed.

Lemma fixture_model3_supplied :
  supplied Fixture.shp Fixture.model3 Fixture.cohort2.
Proof.
  intros p Ip RG. simpl in Ip.
  destruct Ip as [<- | [<- | [<- | []]]]; simpl in RG; try discriminate;
    (split;
     [ intros g; simpl; intros E; try discriminate;
       injection E as <-; split; reflexivity
     | intros uid gd I; simpl in I;
       destruct I as [E | [E | []]]; injection E as <- <-;
       simpl; eauto ]).
Qed.

Lemma aggregate_unchanged_by_masking_witness :
  exists cg' c g',
    Clients.MPC_perturb Fixture.randn Fixture.get_size Fixture.swap_neighbor
      1 0 Fixture.cohort2 = Ok (cg', c, g')
    /\ Server.aggregate_gradients Fixture.model3 cg'
       = Server.aggregate_gradients Fixture.model3 Fixture.cohort2
    /\ exists model',
         Server.aggregate_gradients Fixture.model3 Fixture.cohort2 = Ok model'.
Proof.
  apply (aggregate_unchanged_by_masking nat Fixture.randn Fixture.get_size
           Fixture.swap_neighbor 1 0 0 Fixture.cohort2 [[1]; [0]]
           Fixture.shp Fixture.model3).
  - exact fixture_randn_length.
  - discriminate.
  - exact fixture_cohort2_uniform.
  - exact fixture_cohort2_conforms.
  - exact fixture_model3_supplied.
  - reflexivity.
  - split; [reflexivity|]. repeat constructor.
Defined.

Lemma qsum_Permutation (a b : list Qc) : Permutation a b -> qsum a = qsum b.
Proof.
  induction 1 as [| x a b _ IH | x y a | a b c _ IH1 _ IH2]; simpl.
  - reflexivity.
  - rewrite IH. reflexivity.
  - ring.
  - congruence.
Qed.

(** X5. In exact arithmetic (rounding set aside), the aggregate does not
    depend on the order in which the users' gradients arrive: for a
    permutation of the same cohort [aggregate_gradients] returns the same
    model. *)
Theorem aggregate_order_independent
  (shp : string -> list nat) (model : list Server.param)
  (cg cg' : clients_grads) :
  Permutation cg cg' ->
  cg <> [] -> conforms shp cg -> supplied shp model cg ->
  Server.aggregate_gradients model cg' = Server.aggregate_gradients model cg
  /\ exists model', Server.aggregate_gradients model cg = Ok model'.
Proof.
  intros P NE C S.
  assert (P' : Permutation cg' cg) by (apply Permutation_sym; exact P).
  rewrite (aggregate_gradients_closed_form shp model cg NE C S).
  rewrite (aggregate_gradients_closed_form shp model cg').
  - split; [|eauto]. f_equal. apply map_ext. intros p.
    apply mean_update_ext.
    + apply Permutation_length, P'.
    + intros name k. unfold cohort_sum, dict_values.
      apply qsum_Permutation. do 2 apply Permutation_map. exact P'.
  - intros E. rewrite E in P'. apply Permutation_nil in P'. contradiction.
  - intros uid gd I. apply (C uid gd).
    eapply Permutation_in; [exact P' | exact I].
  - intros p Ip RG. destruct (S p Ip RG) as [Hg Hsup]. split; [exact Hg|].
    intros uid gd I. apply (Hsup uid gd).
    eapply Permutation_in; [exact P' | exact I].
Qed.

Lemma aggregate_order_independent_witness :
  Server.aggregate_gradients Fixture.model3 (rev Fixture.cohort2)
  = Server.aggregate_gradients Fixture.model3 Fixture.cohort2
  /\ exists model',
       Server.aggregate_gradients Fixture.model3 Fixture.cohort2 = Ok model'.
Proof.
  apply (aggregate_order_independent Fixture.shp Fixture.model3
           Fixture.cohort2 (rev Fixture.cohort2)).
  - apply Permutation_rev.
  - discriminate.
  - exact fixture_cohort2_conforms.
  - exact fixture_model3_supplied.
Defined.

(** X6. For an empty cohort [aggregate_gradients] raises [AttributeError]
    as soon as some parameter that requires gradients has no accumulator:
    the default [0.0] of the [defaultdict] has no [detach]. *)
Theorem aggregate_empty_cohort_raises (model : list Server.param) :
  Exists (fun p => Server.requires_grad p = true /\ Server.grad p = None)
         model ->
  Server.aggregate_gradients model [] = Raise AttributeError.
Proof.
  intros X. unfold Server.aggregate_gradients. simpl. 
  apply mapM_raise.
  - intros p _. unfold Server.apply_aggregate.
    destruct (Server.requires_grad p); simpl; [|eauto].
    destruct (Server.grad p); eauto.
  - eapply Exists_impl; [|exact X]. intros p [RG G].
    unfold Server.apply_aggregate. rewrite RG, G. reflexivity.
Qed.

Lemma aggregate_empty_cohort_raises_witness :
  Server.aggregate_gradients Fixture.model3 [] = Raise AttributeError.
Proof.
  apply (aggregate_empty_cohort_raises Fixture.model3).
  left. split; reflexivity.
Defined.

(** ** Clients.train and the communication ledger *)

(** X7. [count_update_communication_cost] never raises and returns the
    full serialized size of the gradients in megabytes: since its local
    flag [compressed] is false, neither [n_items] nor the protected module
    names have any influence on the upload cost. *)
Theorem upload_cost_ignores_compression_settings
  (get_size : sized -> Qc) (n_items n_items' : nat)
  (protect protect' : list string) (cg : clients_grads) :
  Clients.count_update_communication_cost get_size n_items protect cg
  = Ok (full_upload_cost get_size cg)
  /\ Clients.count_update_communication_cost get_size n_items protect cg
     = Clients.count_update_communication_cost get_size n_items' protect' cg.
Proof.
  rewrite !count_update_communication_cost_full. split; reflexivity.
Qed.

(** X8. With the pairwise masking configured and a non-empty cohort, the
    outcome of [Clients.train] follows that of [MPC_perturb] on the
    collected gradients.  If the perturbation returns, the perturbed
    gradients are returned and exactly one entry is appended to the ledger,
    (download + perturbation + upload) / cohort size, the earlier entries
    being untouched.  If it raises, the same exception leaves [train] and
    the appended entry stays at the download cost. *)
Theorem train_MPC_round_outcome
  (RNG : Type) (randn : RNG -> nat -> list Qc * RNG) (get_size : sized -> Qc)
  (sample_neighbor : RNG -> nat -> nat -> result (list (list nat)) * RNG)
  (local_gradient : grads_dict -> nat -> Qc -> RNG -> grads_dict * RNG)
  (cat_empty_error : pyerr)
  (uids : list nat) (state : grads_dict) (dropout : Qc) (c : Clients.t RNG) :
  Clients.method c = Clients.MPC ->
  uids <> [] ->
  Clients.train randn get_size sample_neighbor local_gradient
    cat_empty_error uids state
    dropout c
  = match Clients.MPC_perturb randn get_size sample_neighbor (Clients.xi c)
            (snd (Clients.collect_grads local_gradient state dropout uids []
                    (Clients.rng c)))
            (fst (Clients.collect_grads local_gradient state dropout uids []
                    (Clients.rng c)))
    with
    | Ok (pg, pcost, g') =>
        (Clients.set_rng g'
           (Clients.set_ledger
              (Clients.communication_cost c
               ++ [((download_cost get_size state (length uids) + pcost
                     + full_upload_cost get_size pg)
                    / Qc_of_nat (length uids))%Qc]) c),
         Ok pg)
    | Raise e =>
        (Clients.set_rng
           (snd (Clients.collect_grads local_gradient state dropout uids []
                   (Clients.rng c)))
           (Clients.set_ledger
              (Clients.communication_cost c
               ++ [download_cost get_size state (length uids)]) c),
         Raise e)
    end.
Proof.
  intros M NE. unfold Clients.train.
  destruct uids as [|u us]; [contradiction|].
  destruct (Clients.collect_grads local_gradient state dropout (u :: us) []
              (Clients.rng c)) as [cg g] eqn:CG.
  simpl Clients.rng. rewrite CG. cbn [fst snd].
  unfold Clients.perturb_fuc. simpl Clients.method. rewrite M.
  simpl Clients.xi. simpl Clients.rng.
  destruct (Clients.MPC_perturb randn get_size sample_neighbor (Clients.xi c) g cg)
    as [[[pg pcost] g']|e].
  - simpl Clients.communication_cost. simpl Clients.n_items.
    simpl Clients.protect_module_name.
    rewrite count_update_communication_cost_full.
    simpl Clients.communication_cost. rewrite !update_last_snoc. reflexivity.
  - reflexivity.
Qed.

Lemma train_MPC_round_outcome_witness :
  Clients.train Fixture.randn Fixture.get_size Fixture.swap_neighbor
    Fixture.local_gradient RuntimeError [7; 9] Fixture.state1 0%Qc
    Fixture.mpc_clients
  = match Clients.MPC_perturb Fixture.randn Fixture.get_size
            Fixture.swap_neighbor 1
            (snd (Clients.collect_grads Fixture.local_gradient Fixture.state1
                    0%Qc [7; 9] [] 0))
            (fst (Clients.collect_grads Fixture.local_gradient Fixture.state1
                    0%Qc [7; 9] [] 0))
    with
    | Ok (pg, pcost, g') =>
        (Clients.set_rng g'
           (Clients.set_ledger
              ([] ++ [((download_cost Fixture.get_size Fixture.state1 2 + pcost
                        + full_upload_cost Fixture.get_size pg)
                       / Qc_of_nat 2)%Qc]) Fixture.mpc_clients),
         Ok pg)
    | Raise e =>
        (Clients.set_rng
           (snd (Clients.collect_grads Fixture.local_gradient Fixture.state1
                   0%Qc [7; 9] [] 0))
           (Clients.set_ledger
              ([] ++ [download_cost Fixture.get_size Fixture.state1 2])
              Fixture.mpc_clients),
         Raise e)
    end.
Proof.
  apply (train_MPC_round_outcome nat Fixture.randn Fixture.get_size
           Fixture.swap_neighbor Fixture.local_gradient RuntimeError [7; 9]
           Fixture.state1 0%Qc Fixture.mpc_clients).
  - reflexivity.
  - discriminate.
Defined.

(** The round above goes through: 16 bytes down, 16 bytes exchanged and
    16 bytes up for two users, that is 24 / 2^20 megabytes per user. *)
Example train_MPC_round_ledger :
  map this
    (Clients.communication_cost
       (fst (Clients.train Fixture.randn Fixture.get_size Fixture.swap_neighbor
               Fixture.local_gradient RuntimeError [7; 9] Fixture.state1 0%Qc
               Fixture.mpc_clients)))
  = [3 # 131072]%Q.
Proof. vm_compute. reflexivity. Qed.

(** X9. For an empty cohort [Clients.train] fails with the exception
    that [torch.cat] raises for an empty list, whatever its class, but
    only after it has appended the download cost of the round, which is 0,
    to the ledger: the failed call leaves one more entry behind. *)
Theorem train_empty_cohort
  (RNG : Type) (randn : RNG -> nat -> list Qc * RNG) (get_size : sized -> Qc)
  (sample_neighbor : RNG -> nat -> nat -> result (list (list nat)) * RNG)
  (local_gradient : grads_dict -> nat -> Qc -> RNG -> grads_dict * RNG)
  (cat_empty_error : pyerr)
  (state : grads_dict) (dropout : Qc) (c : Clients.t RNG) :
  Clients.train randn get_size sample_neighbor local_gradient
    cat_empty_error [] state dropout c
  = (Clients.set_ledger (Clients.communication_cost c ++ [0%Qc]) c,
     Raise cat_empty_error).
Proof.
  unfold Clients.train. simpl. f_equal. f_equal. f_equal. f_equal.
  change (Qc_of_nat 0) with 0%Qc. unfold Qcdiv. ring.
Qed.

Lemma dict_keys_set_new {V : Type} (k : nat) (v : V) (d : dict nat V) :
  ~ In k (dict_keys d) -> dict_keys (dict_set k v d) = dict_keys d ++ [k].
Proof.
  induction d as [|[k0 v0] d IH]; simpl; [reflexivity|].
  intros N. destruct (Nat.eqb_spec k k0) as [-> | Ne]; [tauto|].
  simpl. f_equal. apply IH. tauto.
Qed.

Lemma collect_grads_keys_from
  (RNG : Type) (local_gradient : grads_dict -> nat -> Qc -> RNG -> grads_dict * RNG)
  (state : grads_dict) (dropout : Qc) (uids : list nat) :
  forall acc g,
    NoDup (dict_keys acc ++ uids) ->
    dict_keys (fst (Clients.collect_grads local_gradient state dropout uids acc g))
    = dict_keys acc ++ uids.
Proof.
  induction uids as [|uid rest IH]; intros acc g ND; simpl.
  - rewrite app_nil_r. reflexivity.
  - destruct (local_gradient state uid dropout g) as [grad_u g'].
    assert (N : ~ In uid (dict_keys acc)).
    { intros I. apply NoDup_remove_2 in ND. apply ND.
      apply in_or_app. left. exact I. }
    rewrite IH; rewrite (dict_keys_set_new uid grad_u acc N).
    + rewrite <- app_assoc. reflexivity.
    + rewrite <- app_assoc. exact ND.
Qed.

(** X10. For a cohort of distinct user ids the gradient mapping that
    [Clients.train] collects has exactly these ids as keys, in cohort
    order, so its length (the divisor of the aggregation) is the cohort
    size (the divisor of the ledger entry). *)
Theorem collect_grads_keys
  (RNG : Type) (local_gradient : grads_dict -> nat -> Qc -> RNG -> grads_dict * RNG)
  (state : grads_dict) (dropout : Qc) (uids : list nat) (g : RNG) :
  NoDup uids ->
  dict_keys (fst (Clients.collect_grads local_gradient state dropout uids [] g))
  = uids
  /\ length (fst (Clients.collect_grads local_gradient state dropout uids [] g))
     = length uids.
Proof.
  intros ND.
  pose proof (collect_grads_keys_from RNG local_gradient state dropout uids
                [] g ND) as K.
  simpl in K. split; [exact K|].
  apply (f_equal (@length _)) in K. unfold dict_keys in K.
  rewrite length_map in K. exact K.
Qed.

Lemma collect_grads_keys_witness :
  dict_keys (fst (Clients.collect_grads Fixture.local_gradient Fixture.state1
                    0%Qc [7; 9] [] 0)) = [7; 9]
  /\ length (fst (Clients.collect_grads Fixture.local_gradient Fixture.state1
                    0%Qc [7; 9] [] 0)) = length [7; 9].
Proof.
  apply (collect_grads_keys nat Fixture.local_gradient Fixture.state1 0%Qc
           [7; 9] 0).
  repeat constructor; simpl; intuition discriminate.
Defined.

(** ** The restoration attack: rows, bounds and the refinement *)

Lemma Qc_eq_bool_refl (x : Qc) : Qc_eq_bool x x = true.
Proof. unfold Qc_eq_bool. destruct (Qc_eq_dec x x); congruence. Qed.

Lemma Qc_nonzero_iff (x : Qc) : negb (Qc_eq_bool x 0%Qc) = true <-> x <> 0%Qc.
Proof.
  split.
  - intros E ->. rewrite Qc_eq_bool_refl in E. discriminate.
  - intros N. destruct (Qc_eq_bool x 0%Qc) eqn:E; [|reflexivity].
    apply Qc_eq_bool_correct in E. contradiction.
Qed.

Lemma in_combine_seq {A : Type} (d : A) (l : list A) :
  forall s i a,
    In (i, a) (combine (seq s (length l)) l)
    <-> s <= i < s + length l /\ nth (i - s) l d = a /\ True.
Proof.
  induction l as [|x l IH]; intros s i a; simpl.
  - split; [contradiction | lia].
  - rewrite IH. split.
    + intros [E | (H1 & H2 & _)].
      * injection E as <- <-. rewrite Nat.sub_diag. repeat split; lia.
      * replace (i - s) with (S (i - S s)) by lia. repeat split; auto; lia.
    + intros (H1 & H2 & _). destruct (Nat.eq_dec i s) as [-> | N].
      * left. rewrite Nat.sub_diag in H2. congruence.
      * right. replace (i - s) with (S (i - S s)) in H2 by lia.
        repeat split; auto; lia.
Qed.

Lemma nonzero_rows_In (rows : list (list Qc)) (i : nat) :
  In i (Server.nonzero_rows rows)
  <-> i < length rows /\ qsum (nth i rows []) <> 0%Qc.
Proof.
  unfold Server.nonzero_rows. rewrite in_map_iff. split.
  - intros ([j r] & E & I). simpl in E. subst j.
    apply filter_In in I. destruct I as [I N]. simpl in N.
    apply (in_combine_seq []) in I. destruct I as (H1 & H2 & _).
    rewrite Nat.sub_0_r in H2. subst r.
    split; [lia | apply Qc_nonzero_iff, N].
  - intros [L N]. exists (i, nth i rows []). split; [reflexivity|].
    apply filter_In. split.
    + apply (in_combine_seq []). rewrite Nat.sub_0_r. repeat split; lia.
    + simpl. apply Qc_nonzero_iff, N.
Qed.

Lemma nonzero_rows_count (rows : list (list Qc)) :
  length (Server.nonzero_rows rows) = count_nonzero (map qsum rows).
Proof.
  unfold Server.nonzero_rows, count_nonzero. rewrite length_map.
  generalize 0 as s. induction rows as [|r rows IH]; intros s; simpl;
    [reflexivity|].
  destruct (negb (Qc_eq_bool (qsum r) 0%Qc)); simpl; rewrite IH; reflexivity.
Qed.

(** X11. The attack needs two rows to cluster: when fewer than two rows of
    a user's decoder gradient have a non-zero sum (an all-zero gradient,
    for one), lines 199 to 210 raise [ValueError] at the KMeans fit. *)
Theorem restore_needs_two_nonzero_rows
  (kmeans_labels : nat -> list (list Qc) -> list bool)
  (l2norm : list Qc -> Qc) (srv : Server.t) (dec_grads : list (list Qc)) :
  count_nonzero (map qsum dec_grads) < 2 ->
  Server.decoder_prediction kmeans_labels l2norm srv dec_grads
  = Raise ValueError.
Proof.
  intros H. rewrite <- nonzero_rows_count in H.
  unfold Server.decoder_prediction, Server.fit_predict, Server.take_rows.
  rewrite length_map.
  destruct (Nat.ltb_spec (length (Server.nonzero_rows dec_grads)) 2);
    [reflexivity | lia].
Qed.

Lemma restore_needs_two_nonzero_rows_witness :
  Server.decoder_prediction Fixture.kmeans_single Fixture.l2norm
    (Fixture.server4 "encoder.w" "decoder.w")
    (map (map Qc_of_nat) [[0; 0]; [3; 4]; [0; 0]; [0; 0]])
  = Raise ValueError.
Proof.
  apply (restore_needs_two_nonzero_rows Fixture.kmeans_single Fixture.l2norm
           (Fixture.server4 "encoder.w" "decoder.w")
           (map (map Qc_of_nat) [[0; 0]; [3; 4]; [0; 0]; [0; 0]])).
  vm_compute. lia.
Defined.

(** X12. Whatever labels the clustering returns (one per selected row),
    for a decoder gradient with at most [n_items] rows of which at least
    two have a non-zero sum, lines 199 to 210 return a vector of length
    [n_items] whose entries are 0 or 1, and an entry is 1 only for a row
    of non-zero sum: an item without gradient is never predicted. *)
Theorem restore_predicts_only_nonzero_rows
  (kmeans_labels : nat -> list (list Qc) -> list bool)
  (l2norm : list Qc -> Qc) (srv : Server.t) (dec_grads : list (list Qc)) :
  length dec_grads <= Server.n_items srv ->
  2 <= count_nonzero (map qsum dec_grads) ->
  length (kmeans_labels (Server.seed srv)
            (Server.take_rows (Server.nonzero_rows dec_grads) dec_grads))
  = count_nonzero (map qsum dec_grads) ->
  exists x_pred,
    Server.decoder_prediction kmeans_labels l2norm srv dec_grads = Ok x_pred
    /\ length x_pred = Server.n_items srv
    /\ forall i,
         (nth i x_pred 0%Qc = 1%Qc
          /\ i < length dec_grads /\ qsum (nth i dec_grads []) <> 0%Qc)
         \/ nth i x_pred 0%Qc = 0%Qc.
Proof.
  intros HL H2 _. rewrite <- nonzero_rows_count in H2.
  unfold Server.decoder_prediction, Server.fit_predict.
  unfold Server.take_rows at 1. rewrite length_map.
  destruct (Nat.ltb_spec (length (Server.nonzero_rows dec_grads)) 2); [lia|].
  cbn [bind].
  set (mask := if Server.np_lt _ _ then _ else _).
  destruct (scatter_ones_spec
              (Server.select mask (Server.nonzero_rows dec_grads))
              (repeat 0%Qc (Server.n_items srv)))
    as (x_pred & E & Lx & V).
  { rewrite repeat_length. eapply Forall_impl; [|apply select_nonzero_lt].
    intros i Hi. simpl in Hi. lia. }
  exists x_pred. split; [exact E|]. split.
  { rewrite Lx. apply repeat_length. }
  intros i. destruct (V i) as [V1 V0].
  destruct (in_dec Nat.eq_dec i
              (Server.select mask (Server.nonzero_rows dec_grads)))
    as [I | NI].
  - left. split; [auto|]. apply nonzero_rows_In.
    apply select_In in I. destruct I as (p & Hp & _).
    eapply nth_error_In, Hp.
  - right. rewrite (V0 NI). apply nth_repeat_zero.
Qed.

Lemma restore_predicts_only_nonzero_rows_witness :
  exists x_pred,
    Server.decoder_prediction Fixture.kmeans_large_is_0 Fixture.l2norm
      (Fixture.server4 "encoder.w" "decoder.w") Fixture.dec_rows = Ok x_pred
    /\ length x_pred = 4
    /\ forall i,
         (nth i x_pred 0%Qc = 1%Qc
          /\ i < length Fixture.dec_rows
          /\ qsum (nth i Fixture.dec_rows []) <> 0%Qc)
         \/ nth i x_pred 0%Qc = 0%Qc.
Proof.
  apply (restore_predicts_only_nonzero_rows Fixture.kmeans_large_is_0
           Fixture.l2norm (Fixture.server4 "encoder.w" "decoder.w")
           Fixture.dec_rows).
  - simpl. lia.
  - vm_compute. lia.
  - reflexivity.
Defined.

Lemma chunks_length (c r : nat) (d : list Qc) : length (chunks c r d) = r.
Proof. revert d. induction r as [|r IH]; intros d; simpl; auto. Qed.

Lemma chunks_concat (m : nat) (ls : list (list Qc)) :
  Forall (fun l => length l = m) ls ->
  chunks m (length ls) (concat ls) = ls.
Proof.
  induction 1 as [|l ls Hl _ IH]; simpl; [reflexivity|].
  subst m. rewrite firstn_app, Nat.sub_diag, firstn_O, app_nil_r, firstn_all.
  rewrite skipn_app, Nat.sub_diag, skipn_all. simpl.
  rewrite IH. reflexivity.
Qed.

Lemma transpose_length (c : nat) (rows : list (list Qc)) :
  length (transpose c rows) = c.
Proof. unfold transpose. rewrite length_map, length_seq. reflexivity. Qed.

(** X13. Orientation of a gradient matrix: a matrix whose first dimension
    is [n_items] is taken as it is; any other matrix of shape (r, c) is
    transposed, so that its row [j] is column [j] of the stored matrix.
    Orientation itself never fails on a matrix, also when neither
    dimension is [n_items]. *)
Theorem orient_presents_columns_as_rows (n_items r c : nat) (d : list Qc) :
  (t' <- Server.orient n_items {| shape := [r; c]; data := d |} ;;
   Server.rows2 t')
  = Ok (if Nat.eqb r n_items then chunks c r d
        else map (fun j => map (fun row => nth j row 0%Qc) (chunks c r d))
                 (seq 0 c)).
Proof.
  unfold Server.orient, Server.shape0. simpl shape. cbn [bind].
  destruct (Nat.eqb r n_items); [reflexivity|].
  unfold Server.numpy_T, Server.rows2. simpl shape. simpl data.
  fold (transpose c (chunks c r d)).
  rewrite <- (transpose_length c (chunks c r d)) at 1.
  apply f_equal. apply chunks_concat. unfold transpose.
  apply Forall_forall. intros l I. apply in_map_iff in I.
  destruct I as (j & <- & _). rewrite length_map. apply chunks_length.
Qed.

(** A 2 x 4 encoder gradient is presented with one row per item. *)
Example orient_2_by_4 :
  (t' <- Server.orient 4 (Fixture.mat 2 4 [1; 2; 3; 4; 5; 6; 7; 8]) ;;
   Server.rows2 t')
  = Ok (map (map Qc_of_nat) [[1; 5]; [2; 6]; [3; 7]; [4; 8]]).
Proof. reflexivity. Qed.

(** X14. The encoder refinement is a union: with [use_enc_grad] set and an
    encoder gradient of r <= len(x_pred) rows, every item whose encoder
    row has a non-zero sum becomes 1 and every other entry of the
    prediction is kept, so no predicted item is ever cleared. *)
Theorem encoder_refinement_is_union
  (srv : Server.t) (r c : nat) (d : list Qc) (x_pred : list Qc) :
  Server.use_enc_grad srv = true ->
  r <= length x_pred ->
  exists x',
    Server.encoder_refinement srv (Some {| shape := [r; c]; data := d |}) x_pred
    = Ok x'
    /\ length x' = length x_pred
    /\ forall i,
         (i < r -> qsum (nth i (chunks c r d) []) <> 0%Qc ->
          nth i x' 0%Qc = 1%Qc)
         /\ (~ (i < r /\ qsum (nth i (chunks c r d) []) <> 0%Qc) ->
             nth i x' 0%Qc = nth i x_pred 0%Qc).
Proof.
  intros U L. unfold Server.encoder_refinement, Server.rows2. rewrite U.
  simpl shape. simpl data. cbn [bind].
  destruct (scatter_ones_spec (Server.nonzero_rows (chunks c r d)) x_pred)
    as (x' & E & Lx & V).
  { eapply Forall_impl; [|apply nonzero_rows_lt].
    intros i Hi. simpl in Hi. rewrite chunks_length in Hi. lia. }
  exists x'. split; [exact E|]. split; [exact Lx|].
  intros i. destruct (V i) as [V1 V0]. split.
  - intros Hi N. apply V1. apply nonzero_rows_In.
    rewrite chunks_length. auto.
  - intros N. apply V0. intros I. apply N.
    apply nonzero_rows_In in I. rewrite chunks_length in I. exact I.
Qed.

Lemma encoder_refinement_is_union_witness :
  exists x',
    Server.encoder_refinement
      {| Server.seed := 0; Server.n_items := 4; Server.epochs := 3;
         Server.early_stop := 0; Server.alternating := true;
         Server.dropout_prob := 0%Qc;
         Server.n_enc_epochs := 2; Server.n_dec_epochs := 1;
         Server.enc_name := "encoder.w"; Server.dec_name := "decoder.w";
         Server.use_enc_grad := true; Server.restore_epochs := [1];
         Server.use_tensorboard := false |}
      (Some {| shape := [4; 2]; data := map Qc_of_nat [0; 0; 0; 0; 1; 0; 0; 0] |})
      (map Qc_of_nat [0; 1; 0; 0])
    = Ok x'
    /\ length x' = length (map Qc_of_nat [0; 1; 0; 0])
    /\ forall i,
         (i < 4 ->
          qsum (nth i (chunks 2 4 (map Qc_of_nat [0; 0; 0; 0; 1; 0; 0; 0])) [])
          <> 0%Qc ->
          nth i x' 0%Qc = 1%Qc)
         /\ (~ (i < 4
                /\ qsum (nth i (chunks 2 4
                                  (map Qc_of_nat [0; 0; 0; 0; 1; 0; 0; 0])) [])
                   <> 0%Qc) ->
             nth i x' 0%Qc = nth i (map Qc_of_nat [0; 1; 0; 0]) 0%Qc).
Proof.
  apply (encoder_refinement_is_union _ 4 2
           (map Qc_of_nat [0; 0; 0; 0; 1; 0; 0; 0])
           (map Qc_of_nat [0; 1; 0; 0])).
  - reflexivity.
  - simpl. lia.
Defined.

(** The union on the example: item 1 from the decoder, item 2 from the
    encoder. *)
Example encoder_refinement_example :
  Server.encoder_refinement
    {| Server.seed := 0; Server.n_items := 4; Server.epochs := 3;
       Server.early_stop := 0; Server.alternating := true;
       Server.dropout_prob := 0%Qc;
       Server.n_enc_epochs := 2; Server.n_dec_epochs := 1;
       Server.enc_name := "encoder.w"; Server.dec_name := "decoder.w";
       Server.use_enc_grad := true; Server.restore_epochs := [1];
       Server.use_tensorboard := false |}
    (Some {| shape := [4; 2]; data := map Qc_of_nat [0; 0; 0; 0; 1; 0; 0; 0] |})
    (map Qc_of_nat [0; 1; 0; 0])
  = Ok (map Qc_of_nat [0; 1; 1; 0]).
Proof. reflexivity. Qed.

(** ** Server.run and the train phase: the schedule of calls *)

Lemma filter_all {A : Type} (f : A -> bool) (l : list A) :
  Forall (fun a => f a = true) l -> filter f l = l.
Proof.
  induction 1 as [|a l E _ IH]; simpl; [reflexivity|]. rewrite E, IH.
  reflexivity.
Qed.

Lemma round_calls_not_restore (opts : list Server.optimizer) (d : Qc)
  (uids : list nat) :
  filter not_restore (round_calls opts d uids) = round_calls opts d uids.
Proof.
  apply filter_all. eapply Forall_impl; [|apply round_calls_no_restore].
  intros c E. unfold not_restore. rewrite E. reflexivity.
Qed.

Lemma run_batches_plain (opts : list Server.optimizer) (d : Qc)
  (batches : list (list nat)) :
  forall flag,
    filter not_restore (fst (Server.run_batches opts d batches flag))
    = concat (map (round_calls opts d) batches).
Proof.
  induction batches as [|uids rest IH]; intros flag; simpl; [reflexivity|].
  unfold Server.round. fold (round_calls opts d uids).
  destruct flag.
  - specialize (IH false).
    destruct (Server.run_batches opts d rest false) as [cs f]. simpl in *.
    rewrite !filter_app, round_calls_not_restore, IH. simpl.
    rewrite app_nil_r. reflexivity.
  - specialize (IH false).
    destruct (Server.run_batches opts d rest false) as [cs f]. simpl in *.
    rewrite filter_app, round_calls_not_restore, IH. reflexivity.
Qed.

Lemma run_epochs_plain (RNG : Type) (shuffle : RNG -> list (list nat) * RNG)
  (opts : list Server.optimizer) (d : Qc) (n : nat) :
  forall flag g,
    filter not_restore (fst (fst (Server.run_epochs shuffle opts n d flag g)))
    = plain_run_calls shuffle opts d n g
    /\ snd (Server.run_epochs shuffle opts n d flag g)
       = loader_after shuffle n g.
Proof.
  induction n as [|n IH]; intros flag g; simpl; [auto|].
  destruct (shuffle g) as [batches g1]. simpl snd.
  pose proof (run_batches_plain opts d batches flag) as B.
  destruct (Server.run_batches opts d batches flag) as [cs flag'].
  destruct (IH flag' g1) as [C L].
  destruct (Server.run_epochs shuffle opts n d flag' g1) as [[cs' f''] g'].
  simpl in *. rewrite filter_app, B, C. auto.
Qed.

(** X15. The restoration flag changes nothing else in [run]: with the
    attack call left out, the calls are, for either value of the flag, one
    loader traversal per epoch and, per cohort, zero-grad of each
    optimizer, [Clients.train] with the given dropout, aggregation and a
    step of each optimizer; the loader ends in the same state. *)
Theorem run_schedule_independent_of_flag
  (RNG : Type) (shuffle : RNG -> list (list nat) * RNG)
  (opts : list Server.optimizer) (n_epochs : nat) (dropout_prob : Qc)
  (to_restore : bool) (g : RNG) :
  filter not_restore
    (fst (Server.run shuffle opts n_epochs dropout_prob to_restore g))
  = plain_run_calls shuffle opts dropout_prob n_epochs g
  /\ snd (Server.run shuffle opts n_epochs dropout_prob to_restore g)
     = loader_after shuffle n_epochs g.
Proof.
  unfold Server.run.
  pose proof (run_epochs_plain RNG shuffle opts dropout_prob n_epochs
                to_restore g) as H.
  destruct (Server.run_epochs shuffle opts n_epochs dropout_prob to_restore g)
    as [[cs f] g'].
  exact H.
Qed.

Lemma trained_cohorts_app (a b : list Server.call) :
  trained_cohorts (a ++ b) = trained_cohorts a ++ trained_cohorts b.
Proof. unfold trained_cohorts. apply flat_map_app. Qed.

Lemma aggregated_cohorts_app (a b : list Server.call) :
  aggregated_cohorts (a ++ b) = aggregated_cohorts a ++ aggregated_cohorts b.
Proof. unfold aggregated_cohorts. apply flat_map_app. Qed.

Lemma cohorts_of_filtered (cs : list Server.call) :
  trained_cohorts (filter not_restore cs) = trained_cohorts cs
  /\ aggregated_cohorts (filter not_restore cs) = aggregated_cohorts cs.
Proof.
  induction cs as [|c cs [IH1 IH2]]; simpl; [auto|].
  destruct c; simpl; rewrite ?IH1, ?IH2; auto.
Qed.

Lemma cohorts_of_round (opts : list Server.optimizer) (d : Qc)
  (uids : list nat) :
  trained_cohorts (round_calls opts d uids) = [uids]
  /\ aggregated_cohorts (round_calls opts d uids) = [uids].
Proof.
  unfold round_calls.
  rewrite !trained_cohorts_app, !aggregated_cohorts_app.
  assert (Z : trained_cohorts (map Server.ZeroGrad opts) = []
              /\ aggregated_cohorts (map Server.ZeroGrad opts) = []
              /\ trained_cohorts (map Server.OptStep opts) = []
              /\ aggregated_cohorts (map Server.OptStep opts) = []).
  { induction opts as [|o opts (A & B & C & D)]; simpl; auto. }
  destruct Z as (-> & -> & -> & ->). auto.
Qed.

Lemma cohorts_of_plain_run (RNG : Type)
  (shuffle : RNG -> list (list nat) * RNG) (opts : list Server.optimizer)
  (d : Qc) (n : nat) :
  forall g,
    trained_cohorts (plain_run_calls shuffle opts d n g)
    = cohorts_processed shuffle n g
    /\ aggregated_cohorts (plain_run_calls shuffle opts d n g)
       = cohorts_processed shuffle n g.
Proof.
  induction n as [|n IH]; intros g; simpl; [auto|].
  destruct (shuffle g) as [batches g1]. destruct (IH g1) as [T A].
  change (trained_cohorts (Server.IterLoader :: ?l)) with (trained_cohorts l).
  change (aggregated_cohorts (Server.IterLoader :: ?l))
    with (aggregated_cohorts l).
  rewrite trained_cohorts_app, aggregated_cohorts_app, T, A.
  assert (B : trained_cohorts (concat (map (round_calls opts d) batches))
              = batches
              /\ aggregated_cohorts (concat (map (round_calls opts d) batches))
                 = batches).
  { induction batches as [|uids rest [B1 B2]]; simpl; [auto|].
    rewrite trained_cohorts_app, aggregated_cohorts_app, B1, B2.
    destruct (cohorts_of_round opts d uids) as [-> ->]. auto. }
  destruct B as [-> ->]. auto.
Qed.

(** X16. Every cohort that the loader yields during a call of [run] is
    handed to [Clients.train] exactly once and to [aggregate_gradients]
    exactly once, in the order in which the loader yields them, whatever
    the flag. *)
Theorem run_trains_each_cohort_once
  (RNG : Type) (shuffle : RNG -> list (list nat) * RNG)
  (opts : list Server.optimizer) (n_epochs : nat) (dropout_prob : Qc)
  (to_restore : bool) (g : RNG) :
  trained_cohorts
    (fst (Server.run shuffle opts n_epochs dropout_prob to_restore g))
  = cohorts_processed shuffle n_epochs g
  /\ aggregated_cohorts
       (fst (Server.run shuffle opts n_epochs dropout_prob to_restore g))
     = cohorts_processed shuffle n_epochs g.
Proof.
  unfold Server.run.
  pose proof (run_epochs_plain RNG shuffle opts dropout_prob n_epochs
                to_restore g) as [H _].
  destruct (Server.run_epochs shuffle opts n_epochs dropout_prob to_restore g)
    as [[cs f] g'].
  simpl in *.
  destruct (cohorts_of_filtered cs) as [<- <-]. rewrite H.
  apply cohorts_of_plain_run.
Qed.

(** X17. In joint mode the train phase of an epoch is [model.train()] and
    exactly one traversal of the loader in which, for every cohort, both
    optimizers are zeroed, the clients train with the configured dropout
    probability, the gradients are aggregated and the encoder and then the
    decoder optimizer step; [update_prior] is not called. *)
Theorem joint_epoch_order
  (RNG : Type) (shuffle : RNG -> list (list nat) * RNG)
  (srv : Server.t) (epoch : nat) (g : RNG) :
  Server.alternating srv = false ->
  filter not_restore (fst (Server.train_phase shuffle srv epoch g))
  = Server.ModelTrain :: Server.IterLoader
      :: concat (map (round_calls
                        [Server.optimizer_encoder; Server.optimizer_decoder]
                        (Server.dropout_prob srv))
                     (fst (shuffle g)))
  /\ snd (Server.train_phase shuffle srv epoch g) = snd (shuffle g).
Proof.
  intros A. unfold Server.train_phase. rewrite A.
  pose proof (Hplain := run_epochs_plain RNG shuffle
                [Server.optimizer_encoder; Server.optimizer_decoder]
                (Server.dropout_prob srv) 1
                (existsb (Nat.eqb (epoch + 1)) (Server.restore_epochs srv)) g).
  unfold Server.run.
  destruct (Server.run_epochs shuffle
              [Server.optimizer_encoder; Server.optimizer_decoder] 1
              (Server.dropout_prob srv)
              (existsb (Nat.eqb (epoch + 1)) (Server.restore_epochs srv)) g)
    as [[cs f] g'].
  destruct Hplain as [H L]. simpl in H, L. simpl fst.
  simpl snd. destruct (shuffle g) as [batches g1]. simpl in *.
  rewrite H, L, app_nil_r. auto.
Qed.

Lemma joint_epoch_order_witness :
  filter not_restore
    (fst (Server.train_phase Fixture.shuffle Fixture.server_joint 0 1))
  = Server.ModelTrain :: Server.IterLoader
      :: concat (map (round_calls
                        [Server.optimizer_encoder; Server.optimizer_decoder]
                        (Server.dropout_prob Fixture.server_joint))
                     (fst (Fixture.shuffle 1)))
  /\ snd (Server.train_phase Fixture.shuffle Fixture.server_joint 0 1)
     = snd (Fixture.shuffle 1).
Proof.
  apply (joint_epoch_order nat Fixture.shuffle Fixture.server_joint 0 1).
  reflexivity.
Defined.

Lemma run_batches_restore_count (opts : list Server.optimizer) (d : Qc)
  (batches : list (list nat)) :
  forall flag,
    length (filter is_restore (fst (Server.run_batches opts d batches flag)))
    + (if snd (Server.run_batches opts d batches flag) then 1 else 0)
    = if flag then 1 else 0.
Proof.
  induction batches as [|uids rest IH]; intros flag; simpl.
  - destruct flag; reflexivity.
  - unfold Server.round. fold (round_calls opts d uids).
    pose proof (filter_none is_restore _ (round_calls_no_restore opts d uids))
      as N.
    destruct flag.
    + specialize (IH false).
      destruct (Server.run_batches opts d rest false) as [cs f]. simpl in *.
      rewrite !filter_app, N. simpl. lia.
    + specialize (IH false).
      destruct (Server.run_batches opts d rest false) as [cs f]. simpl in *.
      rewrite filter_app, N. simpl. exact IH.
Qed.

Lemma run_restore_count (RNG : Type) (shuffle : RNG -> list (list nat) * RNG)
  (opts : list Server.optimizer) (d : Qc) (n : nat) :
  forall flag g,
    length (filter is_restore (fst (Server.run shuffle opts n d flag g)))
    <= if flag then 1 else 0.
Proof.
  unfold Server.run.
  assert (G : forall flag g,
             length (filter is_restore
                       (fst (fst (Server.run_epochs shuffle opts n d flag g))))
             + (if snd (fst (Server.run_epochs shuffle opts n d flag g))
                then 1 else 0)
             = if flag then 1 else 0).
  { induction n as [|n IH]; intros flag g; simpl.
    - destruct flag; reflexivity.
    - destruct (shuffle g) as [batches g1].
      pose proof (run_batches_restore_count opts d batches flag) as B.
      destruct (Server.run_batches opts d batches flag) as [cs flag'].
      specialize (IH flag' g1).
      destruct (Server.run_epochs shuffle opts n d flag' g1) as [[cs' f''] g'].
      simpl in *. rewrite filter_app, length_app. lia. }
  intros flag g. specialize (G flag g).
  destruct (Server.run_epochs shuffle opts n d flag g) as [[cs f] g'].
  simpl in *. lia.
Qed.

(** X18. In either mode the train phase of an epoch performs the attack at
    most once, and not at all unless [epoch + 1] is one of the configured
    [restore_epochs]. *)
Theorem attack_at_most_once_per_epoch
  (RNG : Type) (shuffle : RNG -> list (list nat) * RNG)
  (srv : Server.t) (epoch : nat) (g : RNG) :
  length (filter is_restore (fst (Server.train_phase shuffle srv epoch g)))
  <= if attack_scheduled srv epoch then 1 else 0.
Proof.
  unfold Server.train_phase, attack_scheduled.
  set (to_restore := existsb (Nat.eqb (epoch + 1)) (Server.restore_epochs srv)).
  destruct (Server.alternating srv).
  - pose proof (run_restore_count RNG shuffle [Server.optimizer_encoder]
                  (Server.dropout_prob srv) (Server.n_enc_epochs srv) false g)
      as C1.
    destruct (Server.run shuffle [Server.optimizer_encoder]
                (Server.n_enc_epochs srv) (Server.dropout_prob srv) false g)
      as [cs1 g1].
    pose proof (run_restore_count RNG shuffle [Server.optimizer_decoder]
                  0%Qc (Server.n_dec_epochs srv) to_restore g1) as C2.
    destruct (Server.run shuffle [Server.optimizer_decoder]
                (Server.n_dec_epochs srv) 0%Qc to_restore g1) as [cs2 g2].
    simpl in *. rewrite filter_app, length_app. simpl. lia.
  - pose proof (run_restore_count RNG shuffle
                  [Server.optimizer_encoder; Server.optimizer_decoder]
                  (Server.dropout_prob srv) 1 to_restore g) as C.
    destruct (Server.run shuffle
                [Server.optimizer_encoder; Server.optimizer_decoder] 1
                (Server.dropout_prob srv) to_restore g) as [cs g1].
    simpl in *. exact C.
Qed.

(** ** Server.train: the best epoch and its checkpoint *)

Lemma train_epoch_tracks_best
  (RNG : Type) (shuffle : RNG -> list (list nat) * RNG) (ndcg : nat -> Qc)
  (srv : Server.t) (i : nat) (st : Server.train_state RNG) :
  best_tracked ndcg i st ->
  best_tracked ndcg (S i) (fst (Server.train_epoch shuffle ndcg srv i st)).
Proof.
  intros (He & H0 & H1). unfold Server.train_epoch.
  pose proof (train_phase_no_save RNG shuffle srv i (Server.loader st)) as NS.
  destruct (Server.train_phase shuffle srv i (Server.loader st)) as [cs g].
  simpl in NS.
  destruct (Server.improves_on (ndcg i) (Server.best_ndcg st)) eqn:I.
  - unfold best_tracked.
    cbn [fst Server.epochs_run Server.best_epoch Server.best_ndcg Server.calls].
    replace (i + 1 - 1) with i by lia.
    split; [lia|]. split; [lia|]. intros _.
    assert (Below : forall j, j < i -> (ndcg j < ndcg i)%Qc).
    { intros j Hj. destruct (H1 ltac:(lia)) as (_ & Eb & Le & _).
      rewrite Eb in I. simpl in I. apply Qclt_bool_iff in I.
      eapply Qcle_lt_trans; [apply Le, Hj | exact I]. }
    split; [lia|]. split; [reflexivity|]. split; [|split; [exact Below|split]].
    + intros j Hj. destruct (Nat.eq_dec j i) as [-> | N].
      * apply Qcle_refl.
      * apply Qclt_le_weak, Below. lia.
    + apply in_or_app. right. left. reflexivity.
    + intros e. rewrite in_app_iff, (epoch_calls_save ndcg) by apply NS.
      intros [Old | [E | []]]; [|injection E as <-; lia].
      destruct i as [|i'].
      * destruct (H0 eq_refl) as (_ & _ & No). exfalso. apply (No e Old).
      * destruct (H1 ltac:(lia)) as (B & _ & _ & _ & _ & Up).
        specialize (Up e Old). lia.
  - assert (Ipos : 1 <= i).
    { destruct i; [|lia]. destruct (H0 eq_refl) as (E & _).
      rewrite E in I. discriminate. }
    destruct (H1 Ipos) as (B & Eb & Le & Lt & Sv & Up).
    unfold best_tracked.
    cbn [fst Server.epochs_run Server.best_epoch Server.best_ndcg Server.calls].
    split; [lia|]. split; [lia|]. intros _.
    split; [lia|]. split; [exact Eb|]. split; [|split; [exact Lt|split]].
    + intros j Hj. destruct (Nat.eq_dec j i) as [-> | N]; [|apply Le; lia].
      rewrite Eb in I. simpl in I. apply Qcnot_lt_le. intros L.
      apply Qclt_bool_iff in L. congruence.
    + apply (epoch_calls_save ndcg); [apply NS | exact Sv].
    + intros e He'. apply (epoch_calls_save ndcg) in He'; [|apply NS].
      apply Up, He'.
Qed.

Lemma train_loop_tracks_best
  (RNG : Type) (shuffle : RNG -> list (list nat) * RNG) (ndcg : nat -> Qc)
  (srv : Server.t) (k : nat) :
  forall i st,
    best_tracked ndcg i st ->
    exists t, i <= t <= i + k /\ (1 <= k -> i < t)
              /\ best_tracked ndcg t
                   (Server.train_loop shuffle ndcg srv (seq i k) st).
Proof.
  induction k as [|k IH]; intros i st B; simpl.
  - exists i. split; [lia|]. split; [lia|]. exact B.
  - pose proof (train_epoch_tracks_best RNG shuffle ndcg srv i st B) as B'.
    destruct (Server.train_epoch shuffle ndcg srv i st) as [st' stop].
    simpl in B'. destruct stop.
    + exists (S i). split; [lia|]. split; [lia|]. exact B'.
    + destruct (IH (S i) st' B') as (t & Ht & _ & Bt).
      exists t. split; [lia|]. split; [lia|]. exact Bt.
Qed.

(** X19. Whatever the patience, a training of at least one epoch ends with
    [best_epoch] between 1 and the number of epochs run, and [best_ndcg]
    is the validation value of that epoch: it is the maximum over the
    epochs run, reached there for the first time.  The checkpoint is saved
    at that epoch and at no later one, so the file written last holds the
    model of [best_epoch]. *)
Theorem train_best_epoch_is_first_maximum
  (RNG : Type) (shuffle : RNG -> list (list nat) * RNG) (ndcg : nat -> Qc)
  (srv : Server.t) (g : RNG) :
  1 <= Server.epochs srv ->
  exists t,
    1 <= t <= Server.epochs srv
    /\ best_tracked ndcg t (Server.train shuffle ndcg srv g).
Proof.
  intros E. unfold Server.train.
  destruct (train_loop_tracks_best RNG shuffle ndcg srv (Server.epochs srv) 0
              {| Server.best_ndcg := Server.NegInf; Server.best_epoch := 0;
                 Server.patience := Server.early_stop srv;
                 Server.epochs_run := 0; Server.calls := [];
                 Server.loader := g |})
    as (t & Ht & Hpos & B).
  - unfold best_tracked. simpl. split; [reflexivity|]. split; [|lia].
    intros _. repeat split; auto.
  - exists t. split; [|exact B]. specialize (Hpos E). lia.
Qed.

Lemma train_best_epoch_is_first_maximum_witness :
  exists t,
    1 <= t <= Server.epochs Fixture.server_patient
    /\ best_tracked Fixture.ndcg_once t
         (Server.train Fixture.shuffle Fixture.ndcg_once
            Fixture.server_patient 0).
Proof.
  apply (train_best_epoch_is_first_maximum nat Fixture.shuffle
           Fixture.ndcg_once Fixture.server_patient 0).
  simpl. lia.
Defined.

(** ** Server.evaluate: the means of the metrics *)

Lemma qsum_nan_to_zero (l : list Server.npfloat) :
  qsum (map Server.nan_to_zero l) = qsum (finite_values l).
Proof.
  induction l as [|v l IH]; simpl; [reflexivity|].
  unfold finite_values in *. destruct v; simpl; rewrite IH; ring.
Qed.

Lemma mean_metric_zero_filled (batches : list (list Server.npfloat)) :
  concat batches <> [] ->
  Server.mean_metric batches = Ok (Server.Fin (zero_filled_mean batches)).
Proof.
  intros NE. unfold Server.mean_metric, zero_filled_mean.
  destruct batches as [|b bs]; [contradiction|].
  rewrite np_mean_cons.
  - rewrite qsum_nan_to_zero, length_map. reflexivity.
  - intros E. apply map_eq_nil in E. contradiction.
Qed.

(** X20. When every metric has at least one per-user value, [evaluate]
    returns six numbers, never not-a-number: each is the sum of the
    metric's numeric values divided by the number of all its values, so a
    not-a-number entry (a user without held-out items) counts as 0 in the
    mean.  The tuple is ordered precision, recall, F1, NDCG, one-call,
    AUC. *)
Theorem evaluate_counts_nan_as_zero (m : Server.metric_lists) :
  Forall (fun batches => concat batches <> [])
         [Server.ndcg5_list m; Server.recall5_list m;
          Server.precision5_list m; Server.f1_list m;
          Server.oneCall_list m; Server.auc_list m] ->
  Server.evaluate_means m
  = Ok (Server.Fin (zero_filled_mean (Server.precision5_list m)),
        Server.Fin (zero_filled_mean (Server.recall5_list m)),
        Server.Fin (zero_filled_mean (Server.f1_list m)),
        Server.Fin (zero_filled_mean (Server.ndcg5_list m)),
        Server.Fin (zero_filled_mean (Server.oneCall_list m)),
        Server.Fin (zero_filled_mean (Server.auc_list m))).
Proof.
  intros F.
  inversion F as [|? ? H1 F1]; subst. inversion F1 as [|? ? H2 F2]; subst.
  inversion F2 as [|? ? H3 F3]; subst. inversion F3 as [|? ? H4 F4]; subst.
  inversion F4 as [|? ? H5 F5]; subst. inversion F5 as [|? ? H6 _]; subst.
  unfold Server.evaluate_means.
  rewrite !mean_metric_zero_filled by assumption. reflexivity.
Qed.

Lemma evaluate_counts_nan_as_zero_witness :
  Server.evaluate_means Fixture.metrics6
  = Ok (Server.Fin (zero_filled_mean (Server.precision5_list Fixture.metrics6)),
        Server.Fin (zero_filled_mean (Server.recall5_list Fixture.metrics6)),
        Server.Fin (zero_filled_mean (Server.f1_list Fixture.metrics6)),
        Server.Fin (zero_filled_mean (Server.ndcg5_list Fixture.metrics6)),
        Server.Fin (zero_filled_mean (Server.oneCall_list Fixture.metrics6)),
        Server.Fin (zero_filled_mean (Server.auc_list Fixture.metrics6))).
Proof.
  apply (evaluate_counts_nan_as_zero Fixture.metrics6).
  repeat constructor; discriminate.
Defined.

(** On the example the mean is (1 + 0 + 0) / 3. *)
Example zero_filled_mean_example :
  this (zero_filled_mean Fixture.metric_batches) = (1 # 3)%Q.
Proof. reflexivity. Qed.

(** X21. On a data set without batches [evaluate] raises [ValueError]:
    [np.concatenate] gets an empty list of arrays. *)
Theorem evaluate_empty_dataset_raises (m : Server.metric_lists) :
  Exists (fun batches => batches = [])
         [Server.ndcg5_list m; Server.recall5_list m;
          Server.precision5_list m; Server.f1_list m;
          Server.oneCall_list m; Server.auc_list m] ->
  Server.evaluate_means m = Raise ValueError.
Proof.
  intros X. unfold Server.evaluate_means, Server.mean_metric.
  destruct (Server.ndcg5_list m); [reflexivity|].
  destruct (Server.recall5_list m); [reflexivity|].
  destruct (Server.precision5_list m); [reflexivity|].
  destruct (Server.f1_list m); [reflexivity|].
  destruct (Server.oneCall_list m); [reflexivity|].
  destruct (Server.auc_list m); [reflexivity|].
  exfalso. repeat (inversion X as [? ? E | ? ? X']; [discriminate|];
                   clear X; rename X' into X).
  inversion X.
Qed.

Lemma evaluate_empty_dataset_raises_witness :
  Server.evaluate_means
    {| Server.ndcg5_list := []; Server.recall5_list := [];
       Server.precision5_list := []; Server.f1_list := [];
       Server.oneCall_list := []; Server.auc_list := [] |}
  = Raise ValueError.
Proof.
  apply (evaluate_empty_dataset_raises
           {| Server.ndcg5_list := []; Server.recall5_list := [];
              Server.precision5_list := []; Server.f1_list := [];
              Server.oneCall_list := []; Server.auc_list := [] |}).
  left. reflexivity.
Defined.

(** ** Pairwise masking: the cost of the exchange *)

Lemma Qc_of_nat_S (n : nat) : Qc_of_nat (S n) = (Qc_of_nat n + 1)%Qc.
Proof.
  unfold Qc_of_nat. apply Qc_is_canon.
  change (this (Q2Qc (inject_Z (Z.of_nat n)) + 1)%Qc)
    with (Qred (Qred (inject_Z (Z.of_nat n)) + Qred 1)).
  change (this (Q2Qc (inject_Z (Z.of_nat (S n)))))
    with (Qred (inject_Z (Z.of_nat (S n)))).
  rewrite !Qred_correct. rewrite Nat2Z.inj_succ.
  unfold Z.succ. rewrite inject_Z_plus. reflexivity.
Qed.

Lemma mapM_Forall2_ok {A B : Type} (f : A -> result B) (l : list A) :
  forall bs, mapM f l = Ok bs -> Forall2 (fun a b => f a = Ok b) l bs.
Proof.
  induction l as [|a l IH]; simpl; intros bs E.
  - injection E as <-. constructor.
  - destruct (f a) as [b|] eqn:Ea; [|discriminate]. cbn [bind] in E.
    destruct (mapM f l) as [bs'|]; [|discriminate]. cbn [bind] in E.
    injection E as <-. constructor; auto.
Qed.

Lemma take_ids_row_lengths (uids : list nat) (idx cts : list (list nat)) :
  Clients.take_ids uids idx = Ok cts ->
  Forall2 (fun row ids => length row = length ids) idx cts.
Proof.
  intros E. apply mapM_Forall2_ok in E.
  eapply Forall2_impl; [|exact E]. intros row ids Er. cbv beta in Er.
  apply mapM_Forall2_ok in Er. eapply Forall2_length, Er.
Qed.

Lemma skeleton_lookup (uid : nat) (cg cg0 : clients_grads) (gd : grads_dict) :
  skeleton cg = skeleton cg0 -> dict_get uid cg = Some gd ->
  exists gd0, dict_get uid cg0 = Some gd0 /\ dict_keys gd = dict_keys gd0.
Proof.
  revert cg0. induction cg as [|[u g] cg IH]; destruct cg0 as [|[u0 g0] cg0];
    simpl; intros E G; try discriminate.
  injection E as -> Eg Er. destruct (Nat.eqb uid u0).
  - injection G as ->. exists g0. split; [reflexivity|].
    unfold dict_keys. apply (f_equal (map fst)) in Eg.
    rewrite !map_map in Eg. exact Eg.
  - apply IH; assumption.
Qed.

Section ExchangeCost.
Variable RNG : Type.
Variable randn : RNG -> nat -> list Qc * RNG.
Hypothesis randn_length : forall g n, length (fst (randn g n)) = n.
Variable get_size : sized -> Qc.
Hypothesis Hsize : size_by_shape get_size.
Variable cg0 : clients_grads.
Hypothesis Huniform : uniform cg0.
Hypothesis Hwf0 : all_wf cg0.

Lemma share_step_cost (uid suid : nat) (name : string) (t0 : tensor)
  (st : Clients.mpc_state RNG) :
  In uid (dict_keys cg0) -> In suid (dict_keys cg0) ->
  slot_get uid name cg0 = Ok t0 ->
  conserved cg0 st ->
  exists st', Clients.share_step randn get_size uid suid name st = Ok st'
              /\ conserved cg0 st'
              /\ Clients.cost st'
                 = (Clients.cost st + get_size (SizedTensor t0))%Qc.
Proof.
  intros Iu Is G0 C.
  assert (Sh0 : slot_shape uid name cg0 = Some (shape t0) /\ wf_tensor t0).
  { unfold slot_get in G0. unfold slot_shape.
    destruct (dict_get uid cg0) as [gd0|] eqn:Gu0; [|discriminate].
    simpl in G0.
    destruct (dict_get name gd0) as [t|] eqn:Gn0; [|discriminate].
    injection G0 as ->. split; [reflexivity|].
    exact (all_wf_slot uid name gd0 t0 cg0 Hwf0 Gu0 Gn0). }
  destruct Sh0 as [Sh0 Wt0].
  destruct (share_step_conserved RNG randn randn_length get_size cg0 Huniform
              uid suid name (shape t0) st Iu Is Sh0 C) as (st' & E & C').
  exists st'. split; [exact E|]. split; [exact C'|].
  destruct C as (Hsk & _ & _).
  assert (Hcur : slot_shape uid name (Clients.store st) = Some (shape t0))
    by (rewrite (slot_shape_skeleton uid name _ _ Hsk); exact Sh0).
  destruct (slot_shape_get _ _ _ _ Hcur) as (gd & grads & _ & _ & Eg & Eget).
  unfold Clients.share_step in E. rewrite Eget in E. cbn [bind] in E.
  unfold Clients.randn_like in E.
  pose proof (randn_length (Clients.gen st) (numel (shape grads))) as Lx.
  destruct (randn (Clients.gen st) (numel (shape grads))) as [xs g'].
  simpl in Lx.
  destruct (tensor_isub grads {| shape := shape grads; data := xs |})
    as [grads'|]; [|discriminate].
  cbn [bind] in E.
  destruct (slot_get suid name (slot_set uid name grads' (Clients.store st)))
    as [target|]; [|discriminate].
  cbn [bind] in E.
  destruct (tensor_iadd target {| shape := shape grads; data := xs |})
    as [target'|]; [|discriminate].
  cbn [bind] in E. injection E as <-. simpl. f_equal.
  apply Hsize; [exact Lx | exact Wt0 | exact Eg].
Qed.

Definition slot_size (uid : nat) (name : string) : Qc :=
  match slot_get uid name cg0 with
  | Ok t => get_size (SizedTensor t)
  | Raise _ => 0%Qc
  end.

Lemma share_steps_cost (uid suid : nat) (names : list string) :
  In uid (dict_keys cg0) -> In suid (dict_keys cg0) ->
  Forall (fun name => exists t0, slot_get uid name cg0 = Ok t0) names ->
  forall st,
    conserved cg0 st ->
    exists st', foldM (Clients.share_step randn get_size uid suid) names st
                = Ok st'
                /\ conserved cg0 st'
                /\ Clients.cost st'
                   = (Clients.cost st + qsum (map (slot_size uid) names))%Qc.
Proof.
  intros Iu Is F. induction F as [|name names (t0 & G0) _ IH]; intros st C.
  - exists st. simpl. split; [reflexivity|]. split; [exact C|]. ring.
  - destruct (share_step_cost uid suid name t0 st Iu Is G0 C)
      as (st1 & E1 & C1 & K1).
    destruct (IH st1 C1) as (st2 & E2 & C2 & K2).
    exists st2. simpl. rewrite E1. cbn [bind]. split; [exact E2|].
    split; [exact C2|]. rewrite K2, K1. unfold slot_size at 2. rewrite G0.
    ring.
Qed.

Lemma send_to_cost (uid suid : nat) (st : Clients.mpc_state RNG) :
  In uid (dict_keys cg0) -> In suid (dict_keys cg0) ->
  conserved cg0 st ->
  exists st', Clients.send_to randn get_size uid suid st = Ok st'
              /\ conserved cg0 st'
              /\ Clients.cost st'
                 = (Clients.cost st + bundle_of get_size uid cg0)%Qc.
Proof.
  intros Iu Is C. pose proof (conserved_keys RNG cg0 st C) as Ek.
  destruct (dict_get_in suid (Clients.store st)) as [gs Gs];
    [rewrite Ek; exact Is|].
  destruct (dict_get_in uid (Clients.store st)) as [gd Gu];
    [rewrite Ek; exact Iu|].
  destruct C as (Hsk & Hwf & Hsum).
  destruct (skeleton_lookup uid _ cg0 gd Hsk Gu) as (gd0 & G0 & Keys).
  unfold Clients.send_to. rewrite Gs, Gu. cbn [of_option bind]. rewrite Keys.
  destruct (share_steps_cost uid suid (dict_keys gd0) Iu Is) with (st := st)
    as (st' & E & C' & K).
  - apply Forall_forall. intros name I.
    destruct (dict_get_in name gd0 I) as [t Gt]. exists t.
    unfold slot_get. rewrite G0. cbn [of_option bind]. rewrite Gt. reflexivity.
  - repeat split; assumption.
  - exists st'. split; [exact E|]. split; [exact C'|]. rewrite K. f_equal.
    unfold bundle_of, bundle_size. rewrite G0. f_equal. apply map_ext.
    intros name. unfold slot_size, slot_get. rewrite G0. cbn [of_option bind].
    destruct (dict_get name gd0); reflexivity.
Qed.

Lemma send_to_row_cost (uid : nat) (row : list nat) :
  In uid (dict_keys cg0) ->
  Forall (fun suid => In suid (dict_keys cg0)) row ->
  forall st,
    conserved cg0 st ->
    exists st', foldM (Clients.send_to randn get_size uid) row st = Ok st'
                /\ conserved cg0 st'
                /\ Clients.cost st'
                   = (Clients.cost st
                      + Qc_of_nat (length row) * bundle_of get_size uid cg0)%Qc.
Proof.
  intros Iu F. induction F as [|suid row Is _ IH]; intros st C.
  - exists st. simpl. split; [reflexivity|]. split; [exact C|].
    change (Qc_of_nat 0) with 0%Qc. ring.
  - destruct (send_to_cost uid suid st Iu Is C) as (st1 & E1 & C1 & K1).
    destruct (IH st1 C1) as (st2 & E2 & C2 & K2).
    exists st2. simpl foldM. rewrite E1. cbn [bind]. split; [exact E2|].
    split; [exact C2|]. rewrite K2, K1. simpl length. rewrite Qc_of_nat_S.
    ring.
Qed.

Lemma exchange_loop_cost (cts : list (list nat)) (uids' : list nat) :
  forall cts' pre st,
    cts = pre ++ cts' ->
    length uids' <= length cts' ->
    Forall (fun uid => In uid (dict_keys cg0)) uids' ->
    Forall (Forall (fun suid => In suid (dict_keys cg0))) cts' ->
    conserved cg0 st ->
    exists st',
      foldM (fun '(i, uid) st =>
               row <- of_option IndexError (nth_error cts i) ;;
               foldM (Clients.send_to randn get_size uid) row st)
            (combine (seq (length pre) (length uids')) uids') st
      = Ok st'
      /\ conserved cg0 st'
      /\ Clients.cost st'
         = (Clients.cost st
            + qsum (map (fun p => Qc_of_nat (length (fst p))
                                  * bundle_of get_size (snd p) cg0)
                        (combine cts' uids')))%Qc.
Proof.
  induction uids' as [|uid us IH]; intros cts' pre st Ec L Fu Fc C.
  - exists st. simpl. split; [reflexivity|]. split; [exact C|].
    destruct cts'; simpl; ring.
  - destruct cts' as [|row rest]; [simpl in L; lia|].
    inversion Fu as [|? ? Iu Fu']; subst.
    inversion Fc as [|? ? Fr Fc']; subst.
    simpl combine. simpl foldM.
    rewrite nth_error_app2 by lia. rewrite Nat.sub_diag. simpl nth_error.
    cbn [of_option bind].
    destruct (send_to_row_cost uid row Iu Fr st C) as (st1 & E1 & C1 & K1).
    rewrite E1. cbn [bind].
    destruct (IH rest (pre ++ [row]) st1) as (st2 & E2 & C2 & K2); auto.
    + rewrite <- app_assoc. reflexivity.
    + simpl in L. lia.
    + rewrite length_app in E2. simpl in E2.
      replace (length pre + 1) with (S (length pre)) in E2 by lia.
      exists st2. split; [exact E2|]. split; [exact C2|].
      rewrite K2, K1. simpl. ring.
Qed.
End ExchangeCost.

Lemma combine_row_lengths {A : Type} (f : A -> Qc)
  (idx cts : list (list nat)) :
  Forall2 (fun row ids => length row = length ids) idx cts ->
  forall uids : list A,
    map (fun p => (Qc_of_nat (length (fst p)) * f (snd p))%Qc)
        (combine cts uids)
    = map (fun p => (Qc_of_nat (length (fst p)) * f (snd p))%Qc)
          (combine idx uids).
Proof.
  induction 1 as [|row ids idx cts E _ IH]; intros uids; [reflexivity|].
  destruct uids as [|u uids]; [reflexivity|]. simpl. rewrite E, IH.
  reflexivity.
Qed.

Lemma fixture_size_by_shape : size_by_shape Fixture.get_size.
Proof.
  intros t t' W W' E. unfold Fixture.get_size. unfold wf_tensor in W, W'.
  rewrite W, W', E. reflexivity.
Qed.

(** X22. What masking costs.  When the serialized size of a tensor depends
    on its shape only, every user has the same named shapes, the tensors
    are well formed and the neighbour indices stay within the cohort,
    [MPC_perturb] succeeds and reports, in MiB, the sum over the users of
    the number of neighbours drawn for that user times the size of that
    user's gradient dictionary: one share of every tensor is billed per
    neighbour, also when a neighbour is drawn twice or is the user
    itself. *)
Theorem MPC_perturb_cost_formula
  (RNG : Type) (randn : RNG -> nat -> list Qc * RNG)
  (get_size : sized -> Qc)
  (sample_neighbor : RNG -> nat -> nat -> result (list (list nat)) * RNG)
  (xi : nat) (g g1 : RNG) (cg : clients_grads)
  (clients_idx : list (list nat)) :
  (forall g n, length (fst (randn g n)) = n) ->
  size_by_shape get_size ->
  uniform cg -> all_wf cg ->
  sample_neighbor g (length (dict_keys cg)) xi = (Ok clients_idx, g1) ->
  closed_exchange (length (dict_keys cg)) clients_idx ->
  exists cg' g',
    Clients.MPC_perturb randn get_size sample_neighbor xi g cg
    = Ok (cg', (exchange_bytes get_size clients_idx cg / MiB)%Qc, g').
Proof.
  intros randn_length Hsize U W Hs [Len In_range].
  unfold Clients.MPC_perturb. rewrite Hs. cbn [bind].
  unfold Clients.MPC_exchange.
  destruct (take_ids_ok (dict_keys cg) clients_idx In_range)
    as (cts & E & Lc & Fc).
  pose proof (take_ids_row_lengths _ _ _ E) as Rows.
  rewrite E. cbn [bind].
  destruct (exchange_loop_cost RNG randn randn_length get_size Hsize cg U W
              cts (dict_keys cg) cts []
              {| Clients.store := cg; Clients.gen := g1;
                 Clients.cost := 0%Qc |})
    as (st & Est & _ & K).
  - reflexivity.
  - lia.
  - apply Forall_forall. auto.
  - exact Fc.
  - split; [reflexivity|]. split; [exact W|]. reflexivity.
  - simpl length in Est. rewrite Est. cbn [bind].
    exists (Clients.store st), (Clients.gen st). do 3 f_equal.
    rewrite K. simpl Clients.cost. unfold exchange_bytes.
    rewrite (combine_row_lengths (fun u => bundle_of get_size u cg)
               clients_idx cts Rows).
    unfold Qcdiv. ring.
Qed.

Lemma MPC_perturb_cost_formula_witness :
  exists cg' g',
    Clients.MPC_perturb Fixture.randn Fixture.get_size Fixture.swap_neighbor
      1 0 Fixture.cohort2
    = Ok (cg', (exchange_bytes Fixture.get_size [[1%nat]; [0%nat]]
                  Fixture.cohort2 / MiB)%Qc, g').
Proof.
  apply (MPC_perturb_cost_formula nat Fixture.randn Fixture.get_size
           Fixture.swap_neighbor 1 0 0 Fixture.cohort2 [[1]; [0]]).
  - exact fixture_randn_length.
  - exact fixture_size_by_shape.
  - exact fixture_cohort2_uniform.
  - exact fixture_cohort2_wf.
  - reflexivity.
  - split; [reflexivity|]. repeat constructor.
Defined.

(** In the example each of the two users sends its three entries of four
    bytes to the other one: 24 bytes. *)
Example exchange_bytes_example :
  exchange_bytes Fixture.get_size [[1]; [0]] Fixture.cohort2 = Qc_of_nat 24.
Proof. vm_compute. reflexivity. Qed.

(** ** Server.train: the alternating epoch, call by call *)

Lemma filter_filter_implied {A : Type} (f h : A -> bool) (l : list A) :
  (forall a, f a = true -> h a = true) ->
  filter f (filter h l) = filter f l.
Proof.
  intros I. induction l as [|a l IH]; simpl; [reflexivity|].
  destruct (h a) eqn:Eh; simpl.
  - rewrite IH. reflexivity.
  - destruct (f a) eqn:Ef; [|exact IH].
    rewrite (I a Ef) in Eh. discriminate.
Qed.

Lemma filter_map_none {A B : Type} (f : B -> bool) (k : A -> B)
  (l : list A) :
  (forall a, f (k a) = false) -> filter f (map k l) = [].
Proof.
  intros Hk. induction l as [|a l IH]; simpl; [reflexivity|].
  rewrite Hk. exact IH.
Qed.

Lemma plain_run_calls_no_update_prior (RNG : Type)
  (shuffle : RNG -> list (list nat) * RNG) (opts : list Server.optimizer)
  (d : Qc) (n : nat) :
  forall g, filter is_update_prior (plain_run_calls shuffle opts d n g) = [].
Proof.
  induction n as [|n IH]; intros g; simpl; [reflexivity|].
  destruct (shuffle g) as [batches g1]. simpl.
  rewrite filter_app, IH, app_nil_r.
  induction batches as [|uids rest IHb]; simpl; [reflexivity|].
  rewrite filter_app, IHb, app_nil_r. unfold round_calls.
  rewrite !filter_app. simpl.
  rewrite (filter_map_none is_update_prior Server.ZeroGrad),
          (filter_map_none is_update_prior Server.OptStep); reflexivity.
Qed.

Lemma run_epochs_no_cohort (RNG : Type)
  (shuffle : RNG -> list (list nat) * RNG) (opts : list Server.optimizer)
  (d : Qc) (n : nat) :
  forall flag g,
    cohorts_processed shuffle n g = [] ->
    filter is_restore (fst (fst (Server.run_epochs shuffle opts n d flag g)))
    = [].
Proof.
  induction n as [|n IH]; intros flag g; simpl; [reflexivity|].
  destruct (shuffle g) as [batches g1]. intros C.
  apply app_eq_nil in C. destruct C as [-> C]. simpl.
  specialize (IH flag g1 C).
  destruct (Server.run_epochs shuffle opts n d flag g1) as [[cs f] g'].
  simpl in *. exact IH.
Qed.

Lemma run_epochs_attack_calls (RNG : Type)
  (shuffle : RNG -> list (list nat) * RNG) (opts : list Server.optimizer)
  (d : Qc) (n : nat) (flag : bool) (g : RNG) :
  filter is_restore (fst (fst (Server.run_epochs shuffle opts n d flag g)))
  = attack_calls shuffle flag n g.
Proof.
  unfold attack_calls. destruct flag.
  - destruct (cohorts_processed shuffle n g) as [|c0 rest] eqn:C.
    + apply run_epochs_no_cohort, C.
    + destruct (run_epochs_flagged RNG shuffle opts d n g c0 rest C)
        as (pre & post & g' & -> & Fp & Fq).
      simpl fst. rewrite !filter_app. simpl.
      rewrite (filter_none is_restore pre).
      * rewrite (filter_none is_restore _ (round_calls_no_restore opts d c0)).
        rewrite (filter_none is_restore post Fq). reflexivity.
      * eapply Forall_impl; [|exact Fp]. intros [] E; simpl in *; congruence.
  - destruct (run_epochs_unflagged RNG shuffle opts d n g)
      as (cs & g' & -> & F).
    apply filter_none, F.
Qed.

(** C6. In alternating mode the train phase of every epoch makes exactly
    these calls, in this order: [model.train()]; [n_enc_epochs] traversals
    of the loader in which, for every cohort, the encoder optimizer alone
    is zeroed, the clients train with the configured dropout probability,
    the gradients are aggregated and the encoder optimizer alone steps,
    without any attack; the one call of [update_prior]; then
    [n_dec_epochs] traversals that, the attack set aside, do the same with
    the decoder optimizer alone and dropout probability 0.  The attack is
    made in the decoder phase only: once, on the first cohort of that
    phase, when [epoch + 1] is one of the [restore_epochs]. *)
Theorem alternating_epoch_exact_order
  (RNG : Type) (shuffle : RNG -> list (list nat) * RNG)
  (srv : Server.t) (epoch : nat) (g : RNG) :
  Server.alternating srv = true ->
  exists enc_calls dec_calls,
    fst (Server.train_phase shuffle srv epoch g)
    = Server.ModelTrain :: enc_calls ++ Server.UpdatePrior :: dec_calls
    /\ enc_calls
       = plain_run_calls shuffle [Server.optimizer_encoder]
           (Server.dropout_prob srv) (Server.n_enc_epochs srv) g
    /\ filter not_restore dec_calls
       = plain_run_calls shuffle [Server.optimizer_decoder] 0%Qc
           (Server.n_dec_epochs srv)
           (loader_after shuffle (Server.n_enc_epochs srv) g)
    /\ filter is_restore dec_calls
       = attack_calls shuffle (attack_scheduled srv epoch)
           (Server.n_dec_epochs srv)
           (loader_after shuffle (Server.n_enc_epochs srv) g)
    /\ length (filter is_update_prior
                 (fst (Server.train_phase shuffle srv epoch g))) = 1
    /\ snd (Server.train_phase shuffle srv epoch g)
       = loader_after shuffle (Server.n_dec_epochs srv)
           (loader_after shuffle (Server.n_enc_epochs srv) g).
Proof.
  intros A. unfold Server.train_phase. rewrite A.
  fold (attack_scheduled srv epoch). unfold Server.run.
  destruct (run_epochs_unflagged RNG shuffle [Server.optimizer_encoder]
              (Server.dropout_prob srv) (Server.n_enc_epochs srv) g)
    as (cs1 & g1 & E1 & F1).
  destruct (run_epochs_plain RNG shuffle [Server.optimizer_encoder]
              (Server.dropout_prob srv) (Server.n_enc_epochs srv) false g)
    as [P1 L1].
  rewrite E1 in P1, L1. simpl in P1, L1. rewrite E1.
  assert (C1 : cs1 = plain_run_calls shuffle [Server.optimizer_encoder]
                       (Server.dropout_prob srv) (Server.n_enc_epochs srv) g).
  { rewrite <- P1. symmetry. apply filter_all.
    eapply Forall_impl; [|exact F1].
    intros c E. unfold not_restore. rewrite E. reflexivity. }
  subst g1.
  destruct (run_epochs_plain RNG shuffle [Server.optimizer_decoder] 0%Qc
              (Server.n_dec_epochs srv) (attack_scheduled srv epoch)
              (loader_after shuffle (Server.n_enc_epochs srv) g))
    as [P2 L2].
  pose proof (run_epochs_attack_calls RNG shuffle [Server.optimizer_decoder]
                0%Qc (Server.n_dec_epochs srv) (attack_scheduled srv epoch)
                (loader_after shuffle (Server.n_enc_epochs srv) g)) as R2.
  destruct (Server.run_epochs shuffle [Server.optimizer_decoder]
              (Server.n_dec_epochs srv) 0%Qc (attack_scheduled srv epoch)
              (loader_after shuffle (Server.n_enc_epochs srv) g))
    as [[cs2 f2] g2].
  simpl in P2, L2, R2. exists cs1, cs2. simpl fst. simpl snd.
  split; [reflexivity|]. split; [exact C1|]. split; [exact P2|].
  split; [exact R2|]. split; [|exact L2].
  simpl filter. rewrite filter_app. simpl filter.
  assert (U1 : filter is_update_prior cs1 = []).
  { rewrite C1. apply plain_run_calls_no_update_prior. }
  assert (U2 : filter is_update_prior cs2 = []).
  { rewrite <- (filter_filter_implied is_update_prior not_restore cs2).
    - rewrite P2. apply plain_run_calls_no_update_prior.
    - intros [] E; simpl in E; try discriminate; reflexivity. }
  rewrite U1, U2. reflexivity.
Qed.

Lemma alternating_epoch_exact_order_witness :
  exists enc_calls dec_calls,
    fst (Server.train_phase Fixture.shuffle
           (Fixture.server4 "encoder.w" "decoder.w") 0 0)
    = Server.ModelTrain :: enc_calls ++ Server.UpdatePrior :: dec_calls
    /\ enc_calls
       = plain_run_calls Fixture.shuffle [Server.optimizer_encoder]
           (Q2Qc (1 # 2)) 2 0
    /\ filter not_restore dec_calls
       = plain_run_calls Fixture.shuffle [Server.optimizer_decoder] 0%Qc 1
           (loader_after Fixture.shuffle 2 0)
    /\ filter is_restore dec_calls
       = attack_calls Fixture.shuffle true 1 (loader_after Fixture.shuffle 2 0)
    /\ length (filter is_update_prior
                 (fst (Server.train_phase Fixture.shuffle
                         (Fixture.server4 "encoder.w" "decoder.w") 0 0))) = 1
    /\ snd (Server.train_phase Fixture.shuffle
              (Fixture.server4 "encoder.w" "decoder.w") 0 0)
       = loader_after Fixture.shuffle 1 (loader_after Fixture.shuffle 2 0).
Proof.
  apply (alternating_epoch_exact_order nat Fixture.shuffle
           (Fixture.server4 "encoder.w" "decoder.w") 0 0).
  reflexivity.
Defined.

(** In the example the encoder phase makes two traversals, the first of
    them empty; the decoder phase makes one and attacks its first
    cohort. *)
Example alternating_epoch_example :
  fst (Server.train_phase Fixture.shuffle
         (Fixture.server4 "encoder.w" "decoder.w") 0 0)
  = [Server.ModelTrain;
     Server.IterLoader;
     Server.IterLoader;
     Server.ZeroGrad Server.optimizer_encoder;
     Server.ClientsTrain [1; 0] (Q2Qc (1 # 2));
     Server.AggregateGradients [1; 0];
     Server.OptStep Server.optimizer_encoder;
     Server.ZeroGrad Server.optimizer_encoder;
     Server.ClientsTrain [1] (Q2Qc (1 # 2));
     Server.AggregateGradients [1];
     Server.OptStep Server.optimizer_encoder;
     Server.UpdatePrior;
     Server.IterLoader;
     Server.ZeroGrad Server.optimizer_decoder;
     Server.ClientsTrain [2; 0] 0%Qc;
     Server.AggregateGradients [2; 0];
     Server.OptStep Server.optimizer_decoder;
     Server.RestoreFromGradient [2; 0];
     Server.ZeroGrad Server.optimizer_decoder;
     Server.ClientsTrain [1] 0%Qc;
     Server.AggregateGradients [1];
     Server.OptStep Server.optimizer_decoder].
Proof. reflexivity. Qed.

(** ** restore_from_gradient: what the attack labels *)

Lemma nonzero_rows_items (rows : list (list Qc)) :
  Server.nonzero_rows rows = nonzero_items rows.
Proof.
  unfold Server.nonzero_rows, nonzero_items.
  assert (G : forall s,
             map fst
               (filter (fun p : nat * list Qc =>
                          negb (Qc_eq_bool (qsum (snd p)) 0%Qc))
                       (combine (seq s (length rows)) rows))
             = filter (fun i => negb (Qc_eq_bool
                                        (qsum (nth (i - s) rows [])) 0%Qc))
                      (seq s (length rows))).
  { induction rows as [|r rows IH]; intros s; [reflexivity|].
    cbn [length seq combine filter snd]. rewrite Nat.sub_diag.
    cbn [nth].
    rewrite filter_ext_in
      with (g := fun i => negb (Qc_eq_bool (qsum (nth (i - S s) rows []))
                                            0%Qc))
           (l := seq (S s) (length rows)).
    - rewrite <- IH.
      destruct (negb (Qc_eq_bool (qsum r) 0%Qc)); reflexivity.
    - intros i I. apply in_seq in I.
      replace (i - s) with (S (i - S s)) by lia. reflexivity. }
  rewrite (G 0). apply filter_ext. intros i. rewrite Nat.sub_0_r.
  reflexivity.
Qed.

Lemma item_rows_length (n_items r c : nat) (d : list Qc) :
  r = n_items \/ c = n_items -> length (item_rows n_items r c d) = n_items.
Proof.
  unfold item_rows. destruct (Nat.eqb_spec r n_items) as [-> | N].
  - intros _. apply chunks_length.
  - intros [E | E]; [contradiction|]. rewrite transpose_length. exact E.
Qed.

(** Lines 195 to 198 on a matrix: the oriented array has the item rows. *)
Lemma orient_matrix (n_items r c : nat) (d : list Qc) :
  exists t',
    Server.orient n_items {| shape := [r; c]; data := d |} = Ok t'
    /\ Server.rows2 t' = Ok (item_rows n_items r c d).
Proof.
  unfold Server.orient, Server.shape0, item_rows. simpl shape. cbn [bind].
  destruct (Nat.eqb r n_items); eexists; (split; [reflexivity|]).
  - reflexivity.
  - unfold Server.numpy_T, Server.rows2. simpl shape. simpl data.
    rewrite <- (transpose_length c (chunks c r d)) at 1.
    apply f_equal. apply chunks_concat. unfold transpose.
    apply Forall_forall. intros l I. apply in_map_iff in I.
    destruct I as (j & <- & _). rewrite length_map. apply chunks_length.
Qed.

(** C4, as amended.  For a user whose decoder and encoder gradients are
    matrices with [n_items] in one dimension, stored under distinct names:
    when 2-means splits the decoder rows of non-zero sum into two
    non-empty clusters and the cluster labelled [big] has the strictly
    larger mean row norm, the attack returns a vector over all items that
    is 1 exactly on the items of that cluster and, when [use_enc_grad] is
    set, on the items whose encoder row has a non-zero sum; every other
    item is 0, whichever of the two labels [big] is.  In particular an
    item whose decoder row sums to zero is 0 unless the encoder refinement
    marks it, and with [use_enc_grad] off the vector is 1 on the cluster
    of larger norm only. *)
Theorem restore_attack_labels
  (kmeans_labels : nat -> list (list Qc) -> list bool)
  (l2norm : list Qc -> Qc) (srv : Server.t) (gd : grads_dict)
  (rd cd re ce : nat) (dd de : list Qc) (big : bool) :
  let dec_rows := item_rows (Server.n_items srv) rd cd dd in
  let enc_rows := item_rows (Server.n_items srv) re ce de in
  let idx := nonzero_items dec_rows in
  let nz := map (fun i => nth i dec_rows []) idx in
  let labels := kmeans_labels (Server.seed srv) nz in
  String.eqb (Server.enc_name srv) (Server.dec_name srv) = false ->
  dict_get (Server.dec_name srv) gd
  = Some {| shape := [rd; cd]; data := dd |} ->
  dict_get (Server.enc_name srv) gd
  = Some {| shape := [re; ce]; data := de |} ->
  rd = Server.n_items srv \/ cd = Server.n_items srv ->
  re = Server.n_items srv \/ ce = Server.n_items srv ->
  length labels = length idx ->
  cluster_rows true labels nz <> [] ->
  cluster_rows false labels nz <> [] ->
  (mean_norm l2norm (cluster_rows (negb big) labels nz)
   < mean_norm l2norm (cluster_rows big labels nz))%Qc ->
  exists x_pred,
    Server.restore_user kmeans_labels l2norm srv gd = Ok x_pred
    /\ length x_pred = Server.n_items srv
    /\ (forall i, i < Server.n_items srv ->
          ((in_cluster big labels idx i \/ enc_marked srv enc_rows i)
           /\ nth i x_pred 0%Qc = 1%Qc)
          \/ (~ (in_cluster big labels idx i \/ enc_marked srv enc_rows i)
              /\ nth i x_pred 0%Qc = 0%Qc))
    /\ (forall i, i < Server.n_items srv ->
          qsum (nth i dec_rows []) = 0%Qc ->
          ~ enc_marked srv enc_rows i ->
          nth i x_pred 0%Qc = 0%Qc)
    /\ (Server.use_enc_grad srv = false ->
        labels_larger_cluster_only big labels idx (Server.n_items srv) x_pred).
Proof.
  intros dec_rows enc_rows idx nz labels.
  intros N Gd Ge Dd De Hlab NE1 NE0 Hbig.
  assert (Ld : length dec_rows = Server.n_items srv)
    by (apply item_rows_length, Dd).
  assert (Le : length enc_rows = Server.n_items srv)
    by (apply item_rows_length, De).
  destruct (orient_matrix (Server.n_items srv) rd cd dd) as (d' & Od & Rd).
  destruct (orient_matrix (Server.n_items srv) re ce de) as (e' & Oe & Re).
  fold dec_rows in Rd. fold enc_rows in Re.
  assert (Eidx : Server.nonzero_rows dec_rows = idx)
    by apply nonzero_rows_items.
  destruct (decoder_prediction_larger_norm_cluster kmeans_labels l2norm srv
              dec_rows big) as (x0 & E0 & L0 & V0).
  { exact Ld. }
  { rewrite Eidx. unfold Server.take_rows. fold nz. fold labels.
    unfold nz. rewrite length_map. exact Hlab. }
  { rewrite Eidx. exact NE1. }
  { rewrite Eidx. exact NE0. }
  { rewrite Eidx. exact Hbig. }
  rewrite Eidx in V0. unfold Server.take_rows in V0. fold nz labels in V0.
  assert (Z : forall i, in_cluster big labels idx i ->
                        qsum (nth i dec_rows []) <> 0%Qc).
  { intros i (p & Hp & _). apply nth_error_In in Hp.
    unfold idx, nonzero_items in Hp. apply filter_In in Hp.
    apply Qc_nonzero_iff, Hp. }
  unfold Server.restore_user. rewrite Gd, N, Ge. cbn [of_option bind].
  rewrite Od. cbn [bind]. rewrite Oe. cbn [bind]. rewrite Rd. cbn [bind].
  rewrite E0. cbn [bind]. unfold Server.encoder_refinement, enc_marked.
  destruct (Server.use_enc_grad srv) eqn:U.
  - rewrite Re. cbn [bind].
    destruct (scatter_ones_spec (Server.nonzero_rows enc_rows) x0)
      as (x' & E & Lx & V).
    { eapply Forall_impl; [|apply nonzero_rows_lt].
      intros i Hi. simpl in Hi. lia. }
    assert (M : forall i, i < Server.n_items srv ->
              ((in_cluster big labels idx i
                \/ (true = true /\ i < length enc_rows
                    /\ qsum (nth i enc_rows []) <> 0%Qc))
               /\ nth i x' 0%Qc = 1%Qc)
              \/ (~ (in_cluster big labels idx i
                     \/ (true = true /\ i < length enc_rows
                         /\ qsum (nth i enc_rows []) <> 0%Qc))
                  /\ nth i x' 0%Qc = 0%Qc)).
    { intros i Hi. destruct (V i) as [V1 V2].
      destruct (in_dec Nat.eq_dec i (Server.nonzero_rows enc_rows)) as [I | NI].
      - left. split; [|exact (V1 I)]. right.
        apply nonzero_rows_In in I. tauto.
      - rewrite (V2 NI).
        assert (NM : ~ (true = true /\ i < length enc_rows
                        /\ qsum (nth i enc_rows []) <> 0%Qc)).
        { intros (_ & H1 & H2). apply NI, nonzero_rows_In. tauto. }
        destruct (V0 i Hi) as [[C X] | [C X]].
        + left. tauto.
        + right. tauto. }
    exists x'. split; [exact E|]. split; [lia|]. split; [exact M|].
    split; [|discriminate].
    intros i Hi S NM. destruct (M i Hi) as [[[C | C] _] | [_ X]].
    + exfalso. apply (Z i C S).
    + contradiction.
    + exact X.
  - assert (M : forall i, i < Server.n_items srv ->
              ((in_cluster big labels idx i
                \/ (false = true /\ i < length enc_rows
                    /\ qsum (nth i enc_rows []) <> 0%Qc))
               /\ nth i x0 0%Qc = 1%Qc)
              \/ (~ (in_cluster big labels idx i
                     \/ (false = true /\ i < length enc_rows
                         /\ qsum (nth i enc_rows []) <> 0%Qc))
                  /\ nth i x0 0%Qc = 0%Qc)).
    { intros i Hi. destruct (V0 i Hi) as [[C X] | [C X]].
      - left. tauto.
      - right. split; [|exact X]. intros [C' | (F & _)];
          [contradiction | discriminate]. }
    exists x0. split; [reflexivity|]. split; [exact L0|]. split; [exact M|].
    split.
    + intros i Hi S NM. destruct (V0 i Hi) as [[C _] | [_ X]]; [|exact X].
      exfalso. apply (Z i C S).
    + intros _. exact V0.
Qed.

Lemma restore_attack_labels_witness :
  exists x_pred,
    Server.restore_user Fixture.kmeans_large_is_0 Fixture.l2norm
      Fixture.server_refine Fixture.user_grads = Ok x_pred
    /\ length x_pred = 4
    /\ (forall i, i < 4 ->
          ((in_cluster false [false; true] [1; 3] i
            \/ enc_marked Fixture.server_refine
                 (item_rows 4 2 4 (map Qc_of_nat [0; 0; 1; 0; 0; 0; 0; 0])) i)
           /\ nth i x_pred 0%Qc = 1%Qc)
          \/ (~ (in_cluster false [false; true] [1; 3] i
                 \/ enc_marked Fixture.server_refine
                      (item_rows 4 2 4 (map Qc_of_nat [0; 0; 1; 0; 0; 0; 0; 0]))
                      i)
              /\ nth i x_pred 0%Qc = 0%Qc))
    /\ (forall i, i < 4 ->
          qsum (nth i (item_rows 4 4 2 (map Qc_of_nat [0; 0; 3; 4; 0; 0; 1; 0]))
                  []) = 0%Qc ->
          ~ enc_marked Fixture.server_refine
              (item_rows 4 2 4 (map Qc_of_nat [0; 0; 1; 0; 0; 0; 0; 0])) i ->
          nth i x_pred 0%Qc = 0%Qc)
    /\ (Server.use_enc_grad Fixture.server_refine = false ->
        labels_larger_cluster_only false [false; true] [1; 3] 4 x_pred).
Proof.
  apply (restore_attack_labels Fixture.kmeans_large_is_0 Fixture.l2norm
           Fixture.server_refine Fixture.user_grads 4 2 2 4
           (map Qc_of_nat [0; 0; 3; 4; 0; 0; 1; 0])
           (map Qc_of_nat [0; 0; 1; 0; 0; 0; 0; 0]) false).
  - reflexivity.
  - reflexivity.
  - reflexivity.
  - left. reflexivity.
  - right. reflexivity.
  - reflexivity.
  - discriminate.
  - discriminate.
  - reflexivity.
Defined.

(** The decoder matrix of the example has the rows [Fixture.dec_rows]. *)
Example user_grads_dec_rows :
  item_rows 4 4 2 (map Qc_of_nat [0; 0; 3; 4; 0; 0; 1; 0]) = Fixture.dec_rows.
Proof. reflexivity. Qed.

(** On the example the attack returns items 1 and 2: item 1 from the
    cluster of larger norm, item 2 from the encoder gradient. *)
Example restore_user_with_refinement :
  Server.restore_user Fixture.kmeans_large_is_0 Fixture.l2norm
    Fixture.server_refine Fixture.user_grads
  = Ok (map Qc_of_nat [0; 1; 1; 0]).
Proof. reflexivity. Qed.

(** C4 as stated fails when the encoder refinement is on.  The decoder
    rows 1 and 3 of the example form two non-empty clusters, row 1 (norm
    5, label 0) being the one of larger mean norm; the attack also labels
    item 2, whose decoder row is zero and which is in neither cluster,
    because its encoder row is not zero. *)
Lemma restore_refinement_labels_more :
  cluster_rows true
    (Fixture.kmeans_large_is_0 0
       (map (fun i => nth i Fixture.dec_rows []) (nonzero_items Fixture.dec_rows)))
    (map (fun i => nth i Fixture.dec_rows []) (nonzero_items Fixture.dec_rows))
  <> []
  /\ cluster_rows false
       (Fixture.kmeans_large_is_0 0
          (map (fun i => nth i Fixture.dec_rows [])
               (nonzero_items Fixture.dec_rows)))
       (map (fun i => nth i Fixture.dec_rows []) (nonzero_items Fixture.dec_rows))
     <> []
  /\ (mean_norm Fixture.l2norm
        (cluster_rows true
           (Fixture.kmeans_large_is_0 0
              (map (fun i => nth i Fixture.dec_rows [])
                   (nonzero_items Fixture.dec_rows)))
           (map (fun i => nth i Fixture.dec_rows [])
                (nonzero_items Fixture.dec_rows)))
      < mean_norm Fixture.l2norm
          (cluster_rows false
             (Fixture.kmeans_large_is_0 0
                (map (fun i => nth i Fixture.dec_rows [])
                     (nonzero_items Fixture.dec_rows)))
             (map (fun i => nth i Fixture.dec_rows [])
                  (nonzero_items Fixture.dec_rows))))%Qc
  /\ exists x_pred,
       Server.restore_user Fixture.kmeans_large_is_0 Fixture.l2norm
         Fixture.server_refine Fixture.user_grads = Ok x_pred
       /\ ~ labels_larger_cluster_only false
              (Fixture.kmeans_large_is_0 0
                 (map (fun i => nth i Fixture.dec_rows [])
                      (nonzero_items Fixture.dec_rows)))
              (nonzero_items Fixture.dec_rows) 4 x_pred.
Proof.
  split; [discriminate|]. split; [discriminate|]. split; [reflexivity|].
  exists (map Qc_of_nat [0; 1; 1; 0]). split; [reflexivity|].
  intros H. destruct (H 2) as [[C _] | [_ X]]; [lia| |].
  - destruct C as (p & Hp & _). vm_compute in Hp.
    destruct p as [|[|[|p]]]; discriminate.
  - apply (f_equal this) in X. vm_compute in X. discriminate.
Qed.
